(** * Fixed-grid Crank-Nicolson option pricer: the tridiagonal solver and
      the grid engine of [src/pde_fixed_grid.py], with the input validation
      of [src/utils.py], the constants of [src/config.py] and the stub of
      [src/pde_adaptive_time.py].

    The Python code computes on NumPy [float64] arrays.  The embedding is
    written once over an interface [Arith] of the arithmetic the code uses
    and is instantiated twice:
    - at [float] (Rocq's primitive IEEE 754 binary64 numbers), which is what
      the program runs on and which evaluates inside Rocq;
    - at [R], the exact arithmetic the numerical method is designed in.

    NumPy arrays are mutable objects: they live in a store ([gmap] from
    locations to lists) and the solver is a program of a state-and-exception
    monad over that store.

    The closed-form prices of [src/bs_analytic.py] and the benchmark loop
    of [src/benchmarks.py] are embedded the same way; the functions of
    [math] and [scipy.stats] they call are parameters of the embedding. *)

From Stdlib Require Import ZArith Floats Reals Lra Lia.
From stdpp Require Import base option list gmap strings.

Local Open Scope Z_scope.

(** ** Python exceptions and results *)

Inductive exn : Type :=
  | ValueError (msg : string)
  | IndexError (msg : string)
  | ZeroDivisionError (msg : string)
  | OverflowError (msg : string)
  | NotImplementedError (msg : string)
  | ImportError (msg : string)
  | SystemError (msg : string).

Inductive result (A : Type) : Type :=
  | Ok (a : A)
  | Raise (e : exn).

Arguments Ok {A} a.
Arguments Raise {A} e.

Definition is_ok {A} (r : result A) : bool :=
  match r with Ok _ => true | Raise _ => false end.

(** ** The arithmetic of the program *)

Class Arith (F : Type) : Type := {
  fzero : F;            (* 0.0 *)
  fone : F;             (* 1.0 *)
  ftwo : F;             (* 2.0 *)
  fthree : F;           (* 3.0 *)
  fhalf : F;            (* 0.5 *)
  fthree_halves : F;    (* 1.5 *)
  fadd : F -> F -> F;
  fsub : F -> F -> F;
  fmul : F -> F -> F;
  fdiv : F -> F -> F;   (* NumPy float64 division: total, see [float_arith] *)
  fneg : F -> F;
  fleb : F -> F -> bool;
  fltb : F -> F -> bool;
  feqb : F -> F -> bool;
  of_int : Z -> F       (* the conversion of a Python int in [n * dt] *)
}.

Declare Scope arith_scope.
Delimit Scope arith_scope with A.
Infix "+!" := fadd (at level 50, left associativity) : arith_scope.
Infix "-!" := fsub (at level 50, left associativity) : arith_scope.
Infix "*!" := fmul (at level 40, left associativity) : arith_scope.
Infix "/!" := fdiv (at level 40, left associativity) : arith_scope.
Notation "-! x" := (fneg x) (at level 35, right associativity) : arith_scope.
Infix "<=.?" := fleb (at level 70, no associativity) : arith_scope.
Infix "<.?" := fltb (at level 70, no associativity) : arith_scope.
Infix "=.?" := feqb (at level 70, no associativity) : arith_scope.
Local Open Scope arith_scope.

(** The conversion of an integer to binary64, rounding to nearest even. *)
Definition Z2float (z : Z) : float :=
  SF2Prim (binary_normalize prec emax z 0 false).

(** IEEE 754 binary64.  A division by zero is not an exception here: NumPy
    scalars and arrays follow IEEE 754, [x / 0.0] is an infinity or a NaN
    (with a [RuntimeWarning], which is not an exception). *)
#[export] Instance float_arith : Arith float := {|
  fzero := 0%float;
  fone := 1%float;
  ftwo := 2%float;
  fthree := 3%float;
  fhalf := 0.5%float;
  fthree_halves := 1.5%float;
  fadd := PrimFloat.add;
  fsub := PrimFloat.sub;
  fmul := PrimFloat.mul;
  fdiv := PrimFloat.div;
  fneg := PrimFloat.opp;
  fleb := PrimFloat.leb;
  fltb := PrimFloat.ltb;
  feqb := PrimFloat.eqb;
  of_int := Z2float
|}.

Definition Rleb (x y : R) : bool := if Rle_dec x y then true else false.
Definition Rltb (x y : R) : bool := if Rlt_dec x y then true else false.
Definition Reqb (x y : R) : bool := if Req_dec_T x y then true else false.

(** Exact real arithmetic. *)
#[export] Instance R_arith : Arith R := {|
  fzero := 0%R;
  fone := 1%R;
  ftwo := 2%R;
  fthree := 3%R;
  fhalf := (/ 2)%R;
  fthree_halves := (3 / 2)%R;
  fadd := Rplus;
  fsub := Rminus;
  fmul := Rmult;
  fdiv := Rdiv;
  fneg := Ropp;
  fleb := Rleb;
  fltb := Rltb;
  feqb := Reqb;
  of_int := IZR
|}.

(** ** Python indexing and ranges *)

(** [a[i]] on a sequence of length [n]: a negative index counts from the
    end, anything outside [-n .. n-1] is an [IndexError]. *)
Definition py_index (n : nat) (i : Z) : option nat :=
  if 0 <=? i then
    if i <? Z.of_nat n then Some (Z.to_nat i) else None
  else
    if - Z.of_nat n <=? i then Some (Z.to_nat (Z.of_nat n + i)) else None.

(** [range(a, b)] *)
Definition range_up (a b : Z) : list Z :=
  map (fun k => a + Z.of_nat k) (seq 0 (Z.to_nat (b - a))).

(** [range(a, b, -1)] *)
Definition range_down (a b : Z) : list Z :=
  map (fun k => a - Z.of_nat k) (seq 0 (Z.to_nat (a - b))).

#[export] Instance arith_inhabited {F : Type} `{Arith F} : Inhabited F :=
  populate fzero.

(** ** The store of NumPy arrays and the monad of the program *)

Abbreviation loc := positive.

Section Store.
Context {F : Type} `{Arith F}.

(** A program: from a store to a result and a store. *)
Definition Prog (A : Type) : Type :=
  gmap loc (list F) -> result A * gmap loc (list F).

Definition ret {A} (a : A) : Prog A := fun h => (Ok a, h).

Definition bind {A B} (m : Prog A) (k : A -> Prog B) : Prog B :=
  fun h =>
    match m h with
    | (Ok a, h') => k a h'
    | (Raise e, h') => (Raise e, h')
    end.

Definition raise {A} (e : exn) : Prog A := fun h => (Raise e, h).

Definition lift {A} (r : result A) : Prog A := fun h => (r, h).

(** The array an object reference points to. *)
Definition load (l : loc) : Prog (list F) :=
  fun h =>
    match h !! l with
    | Some a => (Ok a, h)
    | None => (Raise (SystemError "dangling reference"), h)
    end.

(** A new array object. *)
Definition alloc (a : list F) : Prog loc :=
  fun h => let l := fresh (dom h) in (Ok l, <[l := a]> h).

(** [a.size] *)
Definition np_size (l : loc) : Prog nat :=
  bind (load l) (fun a => ret (length a)).

(** [a.astype(float)]: a new array (NumPy's default is [copy=True]). *)
Definition astype_float (l : loc) : Prog loc :=
  bind (load l) alloc.

(** [a.copy()] *)
Definition np_copy (l : loc) : Prog loc :=
  bind (load l) alloc.

(** [np.empty(n, dtype=float)]: the contents are unspecified; every
    entry is written before it is read in the code below. *)
Definition np_empty (n : nat) : Prog loc :=
  alloc (replicate n fzero).

(** [a[i]] as an expression *)
Definition getitem (l : loc) (i : Z) : Prog F :=
  bind (load l) (fun a =>
    match py_index (length a) i with
    | Some k =>
        match a !! k with
        | Some v => ret v
        | None => raise (IndexError "index out of bounds")
        end
    | None => raise (IndexError "index out of bounds")
    end).

(** [a[i] = v] *)
Definition setitem (l : loc) (i : Z) (v : F) : Prog unit :=
  bind (load l) (fun a =>
    match py_index (length a) i with
    | Some k => fun h => (Ok tt, <[l := <[k := v]> a]> h)
    | None => raise (IndexError "index out of bounds")
    end).

(** [for i in xs: body(i)] *)
Fixpoint for_each (xs : list Z) (body : Z -> Prog unit) : Prog unit :=
  match xs with
  | [] => ret tt
  | i :: xs' => bind (body i) (fun _ => for_each xs' body)
  end.

(** [for i in xs: s = body(i, s)], for the variables a loop rebinds. *)
Fixpoint for_fold {S : Type} (xs : list Z) (body : Z -> S -> Prog S)
    (s : S) : Prog S :=
  match xs with
  | [] => ret s
  | i :: xs' => bind (body i s) (fun s' => for_fold xs' body s')
  end.

(** What a caller observes of a call that returns an array: its
    contents, or the exception. *)
Definition observe (m : Prog loc) (h : gmap loc (list F)) : result (list F) :=
  match m h with
  | (Ok l, h') =>
      match h' !! l with
      | Some x => Ok x
      | None => Raise (SystemError "dangling reference")
      end
  | (Raise e, _) => Raise e
  end.

End Store.

Notation "x <- m ;; k" := (bind m (fun x => k))
  (at level 100, m at next level, right associativity) : arith_scope.
Notation "m ;;; k" := (bind m (fun _ => k))
  (at level 100, right associativity) : arith_scope.

(** ** [_thomas_solve] (src/pde_fixed_grid.py, lines 14-35) *)

Section Thomas.
Context {F : Type} `{Arith F}.

(** Lines 26-28, the body of the forward loop. *)
Definition forward_body (b c d y : loc) (i : Z) : Prog unit :=
  b1 <- getitem b (i - 1) ;;
  d1 <- getitem d (i - 1) ;;
  let w := b1 /! d1 in
  di <- getitem d i ;;
  c1 <- getitem c (i - 1) ;;
  setitem d i (di -! w *! c1) ;;;
  yi <- getitem y i ;;
  y1 <- getitem y (i - 1) ;;
  setitem y i (yi -! w *! y1).

(** Line 33, the body of the backward loop. *)
Definition backward_body (c d y x : loc) (i : Z) : Prog unit :=
  yi <- getitem y i ;;
  ci <- getitem c i ;;
  xn <- getitem x (i + 1) ;;
  di <- getitem d i ;;
  setitem x i ((yi -! ci *! xn) /! di).

(** [a.astype(float).copy()] *)
Definition private_copy (l : loc) : Prog (F := F) loc :=
  t <- astype_float l ;; np_copy t.

Definition _thomas_solve (lower diag upper rhs : loc) : Prog loc :=
  n <- np_size diag ;;
  m <- np_size rhs ;;
  if negb (Nat.eqb m n) then
    raise (ValueError "rhs length must match diag length")
  else
    c <- private_copy upper ;;
    d <- private_copy diag ;;
    b <- private_copy lower ;;
    y <- private_copy rhs ;;
    for_each (range_up 1 (Z.of_nat n)) (forward_body b c d y) ;;;
    x <- np_empty n ;;
    yl <- getitem y (-1) ;;
    dl <- getitem d (-1) ;;
    setitem x (-1) (yl /! dl) ;;;
    for_each (range_down (Z.of_nat n - 2) (-1)) (backward_body c d y x) ;;;
    ret x.

(** The call [_thomas_solve(lower, diag, upper, rhs)] on four array
    values, held in a store of their own. *)
Definition store4 (lower diag upper rhs : list F) : gmap loc (list F) :=
  <[4%positive := rhs]> (<[3%positive := upper]>
    (<[2%positive := diag]> (<[1%positive := lower]> ∅))).

Definition thomas_call (lower diag upper rhs : list F) : result (list F) :=
  observe (_thomas_solve 1%positive 2%positive 3%positive 4%positive)
          (store4 lower diag upper rhs).

End Thomas.

(** ** The sweeps of the Thomas algorithm as the specification words them *)

Section ThomasSpec.
Context {F : Type} `{Arith F}.

(** Forward sweep, step [i]: [w = sub[i-1] / diag[i-1]],
    [diag[i] -= w * super[i-1]], [rhs[i] -= w * rhs[i-1]]. *)
Definition spec_forward_step (sub super : list F)
    (st : list F * list F) (i : nat) : list F * list F :=
  let w := sub !!! (i - 1)%nat /! st.1 !!! (i - 1)%nat in
  (<[i := st.1 !!! i -! w *! super !!! (i - 1)%nat]> st.1,
   <[i := st.2 !!! i -! w *! st.2 !!! (i - 1)%nat]> st.2).

(** for [i = 1 .. n-1] *)
Definition spec_forward_sweep (sub dg super rhs : list F) (n : nat)
    : list F * list F :=
  foldl (spec_forward_step sub super) (dg, rhs) (seq 1 (n - 1)).

(** Backward sweep, step [i]:
    [x[i] = (rhs[i] - super[i] * x[i+1]) / diag[i]]. *)
Definition spec_backward_step (super dg rhs : list F)
    (x : list F) (i : nat) : list F :=
  <[i := (rhs !!! i -! super !!! i *! x !!! (i + 1)%nat) /! dg !!! i]> x.

(** [x[n-1] = rhs[n-1] / diag[n-1]], then for [i = n-2 .. 0]. *)
Definition spec_backward_sweep (super dg rhs : list F) (n : nat) : list F :=
  foldl (spec_backward_step super dg rhs)
    (<[(n - 1)%nat := rhs !!! (n - 1)%nat /! dg !!! (n - 1)%nat]>
       (replicate n fzero))
    (reverse (seq 0 (n - 1))).

Definition spec_thomas (sub dg super rhs : list F) : list F :=
  let n := length dg in
  let st := spec_forward_sweep sub dg super rhs n in
  spec_backward_sweep super st.1 st.2 n.

(** The pivots: the main diagonal after the forward sweep. *)
Definition pivots (sub dg super rhs : list F) : list F :=
  (spec_forward_sweep sub dg super rhs (length dg)).1.

(** Row [i] of the tridiagonal matrix applied to [x]. *)
Definition tridiag_row (sub dg super x : list F) (i : nat) : F :=
  (if decide (i = 0%nat) then fzero
   else sub !!! (i - 1)%nat *! x !!! (i - 1)%nat)
  +! dg !!! i *! x !!! i
  +! (if decide (S i < length dg)%nat then super !!! i *! x !!! (i + 1)%nat
      else fzero).

(** [x] solves the tridiagonal system. *)
Definition solves_tridiagonal (sub dg super rhs x : list F) : Prop :=
  length x = length dg /\
  forall i, (i < length dg)%nat -> tridiag_row sub dg super x i = rhs !!! i.

End ThomasSpec.

(** ** [src/config.py] *)

Definition DEFAULT_PRICE_STEPS : Z := 200.
Definition DEFAULT_TIME_STEPS : Z := 200.
Definition S_MAX_MULTIPLIER {F : Type} `{Arith F} : F := fthree.

(** The names the module [config] defines. *)
Definition config_names : list string :=
  ["DEFAULT_PRICE_STEPS"; "DEFAULT_TIME_STEPS"; "S_MAX_MULTIPLIER";
   "ERROR_TOLERANCE"; "BENCHMARK_RUNS"].

(** ** [validate_option_inputs] (src/utils.py, lines 32-38) *)

Definition validate_option_inputs {F : Type} `{Arith F}
    (S0 K T sigma : F) : result unit :=
  if (S0 <=.? fzero) || (K <=.? fzero) then
    Raise (ValueError "Stock price and strike must be positive")
  else if T <=.? fzero then
    Raise (ValueError "Time to maturity must be positive")
  else if sigma <=.? fzero then
    Raise (ValueError "Volatility must be positive")
  else Ok tt.

(** ** NumPy and Python helpers of the engine *)

Section Numpy.
Context {F : Type} `{Arith F}.

(** Python's [max(a, b)]: the first argument unless the second is
    greater. *)
Definition py_max (a b : F) : F := if a <.? b then b else a.

(** [np.maximum(a, b)] on scalars. *)
Definition np_maximum (a b : F) : F := if a <.? b then b else a.

(** [np.linspace(start, stop, num)]: [arange(num) * step + start] with
    [step = (stop - start) / (num - 1)], the last node set to [stop]. *)
Definition np_linspace (start stop : F) (num : nat) : list F :=
  let div := Z.of_nat num - 1 in
  let delta := stop -! start in
  let y := map (fun k => of_int (Z.of_nat k)) (seq 0 num) in
  let y :=
    if 0 <? div then
      let step := delta /! of_int div in
      if step =.? fzero then map (fun v => v /! of_int div *! delta) y
      else map (fun v => v *! step) y
    else map (fun v => v *! delta) y in
  let y := map (fun v => v +! start) y in
  if 1 <? Z.of_nat num then <[(num - 1)%nat := stop]> y else y.

(** [a[lo:hi]] for [0 <= lo <= hi] *)
Definition py_slice (a : list F) (lo hi : nat) : list F :=
  take (hi - lo) (drop lo a).

(** [a[1:]] *)
Definition py_tail (a : list F) : list F := drop 1 a.

(** [a[:-1]] *)
Definition py_init (a : list F) : list F := take (length a - 1) a.

(** [a[lo:hi] = v] on a one-dimensional array: the shapes agree, or [v]
    has one entry, which is broadcast; otherwise a [ValueError]. *)
Definition set_slice (a : list F) (lo hi : nat) (v : list F)
    : result (list F) :=
  let w := length (py_slice a lo hi) in
  if Nat.eqb (length v) w then Ok (take lo a ++ v ++ drop (lo + w) a)
  else if Nat.eqb (length v) 1 then
    Ok (take lo a ++ replicate w (v !!! 0%nat) ++ drop (lo + w) a)
  else Raise (ValueError "could not broadcast input array").

End Numpy.

(** ** [price_european_fixed_grid] (src/pde_fixed_grid.py, lines 38-148) *)

Section Engine.
Context {F : Type} `{Arith F}.

(** [math.exp]: an [OverflowError] when the result is out of range. *)
Variable math_exp : F -> result F.
(** [np.interp(x, xp, fp)] *)
Variable np_interp : F -> list F -> list F -> F.

Record grid_info : Type := {
  info_S_grid : list F;
  info_V_tau_T : list F;
  info_dS : F;
  info_dt : F;
  info_M : Z;
  info_N : Z;
  info_Smax : F;
  info_surface : option (list (list F))
}.

Inductive pricing : Type :=
  | Price (price : F)
  | PriceInfo (price : F) (info : grid_info).

(** Lines 60-62. *)
Definition Smax_candidate (Smax : option F) (K : F) : F :=
  match Smax with
  | Some s => s
  | None => S_MAX_MULTIPLIER *! K
  end.

Definition resolve_Smax (Smax : option F) (S0 K : F) : F :=
  let s := Smax_candidate Smax K in
  if s <=.? S0 then py_max s (fthree_halves *! S0) else s.

(** Lines 69-72. *)
Definition payoff (option_type : string) (K : F) (S : list F) : list F :=
  if String.eqb option_type "call" then
    map (fun s => np_maximum (s -! K) fzero) S
  else
    map (fun s => np_maximum (K -! s) fzero) S.

(** Lines 74-75: [S[np.arange(1, M)]]. *)
Definition interior_nodes (S : list F) (M : Z) : list F :=
  map (fun i => S !!! Z.to_nat i) (range_up 1 M).

(** Lines 77-82. *)
Definition coef_alpha (sigma : F) (S_i : list F) : list F :=
  map (fun s => fhalf *! sigma *! sigma *! s *! s) S_i.

Definition coef_beta (r : F) (S_i : list F) : list F :=
  map (fun s => r *! s) S_i.

Definition coef_A (dS : F) (alpha beta : list F) : list F :=
  zip_with (fun a b => a /! (dS *! dS) -! b /! (ftwo *! dS)) alpha beta.

Definition coef_B (r dS : F) (alpha : list F) : list F :=
  map (fun a => (-! ftwo) *! a /! (dS *! dS) -! r) alpha.

Definition coef_C (dS : F) (alpha beta : list F) : list F :=
  zip_with (fun a b => a /! (dS *! dS) +! b /! (ftwo *! dS)) alpha beta.

(** Lines 85-91. *)
Definition lower_L (dt : F) (A : list F) : list F :=
  map (fun a => (-! fhalf) *! dt *! a) (py_tail A).
Definition diag_L (dt : F) (B : list F) : list F :=
  map (fun b => fone -! fhalf *! dt *! b) B.
Definition upper_L (dt : F) (C : list F) : list F :=
  map (fun c => (-! fhalf) *! dt *! c) (py_init C).
Definition lower_R (dt : F) (A : list F) : list F :=
  map (fun a => fhalf *! dt *! a) (py_tail A).
Definition diag_R (dt : F) (B : list F) : list F :=
  map (fun b => fone +! fhalf *! dt *! b) B.
Definition upper_R (dt : F) (C : list F) : list F :=
  map (fun c => fhalf *! dt *! c) (py_init C).

(** Lines 102-111: the values at [S = 0] and [S = Smax] at time [tau]. *)
Definition boundary (option_type : string) (Smax K r tau : F)
    : result (F * F) :=
  match math_exp ((-! r) *! tau) with
  | Ok e =>
      if String.eqb option_type "call" then Ok (fzero, Smax -! K *! e)
      else Ok (K *! e, fzero)
  | Raise e => Raise e
  end.

(** Lines 116-122. *)
Definition assemble_rhs (dt : F) (A B C : list F) (M : nat)
    (V : list F) (V0_n VM_n V0_np1 VM_np1 : F) : list F :=
  let V_in := py_slice V 1 M in
  let rhs := zip_with fmul (diag_R dt B) V_in in
  let rhs :=
    take 1 rhs ++
    zip_with fadd (py_tail rhs)
      (zip_with fmul (lower_R dt A) (py_init V_in)) in
  let rhs :=
    zip_with fadd (py_init rhs)
      (zip_with fmul (upper_R dt C) (py_tail V_in)) ++
    drop (length rhs - 1) rhs in
  let rhs :=
    <[0%nat := rhs !!! 0%nat
               +! fhalf *! dt *! A !!! 0%nat *! (V0_n +! V0_np1)]> rhs in
  <[(length rhs - 1)%nat :=
      rhs !!! (length rhs - 1)%nat
      +! fhalf *! dt *! C !!! (length C - 1)%nat *! (VM_n +! VM_np1)]> rhs.

(** Lines 99-128: one pass of the time loop.  [lL], [dL], [uL] refer to
    the arrays [lower_L], [diag_L], [upper_L]. *)
Definition time_step (option_type : string) (Smax K r dt : F)
    (A B C : list F) (M : nat) (lL dL uL : loc) (n : Z) (V : list F)
    : Prog (list F) :=
  let tau_n := of_int n *! dt in
  let tau_np1 := of_int (n + 1) *! dt in
  bn <- lift (boundary option_type Smax K r tau_n) ;;
  bnp1 <- lift (boundary option_type Smax K r tau_np1) ;;
  let V := <[M := bn.2]> (<[0%nat := bn.1]> V) in
  rhs <- alloc (assemble_rhs dt A B C M V bn.1 bn.2 bnp1.1 bnp1.2) ;;
  x <- _thomas_solve lL dL uL rhs ;;
  V_new_in <- load x ;;
  let V := <[0%nat := bnp1.1]> V in
  V <- lift (set_slice V 1 M V_new_in) ;;
  ret (<[M := bnp1.2]> V).

(** Lines 98-131: the loop body on the variables it rebinds, the value
    vector and (with [return_grid]) the rows of [surface]. *)
Definition time_loop_body (option_type : string) (Smax K r dt : F)
    (A B C : list F) (M : nat) (lL dL uL : loc) (n : Z)
    (st : list F * option (list (list F)))
    : Prog (list F * option (list (list F))) :=
  V' <- time_step option_type Smax K r dt A B C M lL dL uL n st.1 ;;
  ret (V', option_map (fun rows => rows ++ [V']) st.2).

Definition price_european_fixed_grid (S0 K T r sigma : F)
    (option_type : string) (M N : option Z) (Smax : option F)
    (return_grid : bool) : Prog pricing :=
  lift (validate_option_inputs S0 K T sigma) ;;;
  if negb (String.eqb option_type "call" || String.eqb option_type "put")
  then raise (ValueError "option_type must be 'call' or 'put'")
  else
    let M := default DEFAULT_PRICE_STEPS M in
    let N := default DEFAULT_TIME_STEPS N in
    if (M <? 3) || (N <? 1) then
      raise (ValueError "Need M >= 3 and N >= 1 for a meaningful grid")
    else
      let Smax := resolve_Smax Smax S0 K in
      let dS := Smax /! of_int M in
      let dt := T /! of_int N in
      let S := np_linspace fzero Smax (Z.to_nat (M + 1)) in
      let V := payoff option_type K S in
      let S_i := interior_nodes S M in
      let alpha := coef_alpha sigma S_i in
      let beta := coef_beta r S_i in
      let A := coef_A dS alpha beta in
      let B := coef_B r dS alpha in
      let C := coef_C dS alpha beta in
      lL <- alloc (lower_L dt A) ;;
      dL <- alloc (diag_L dt B) ;;
      uL <- alloc (upper_L dt C) ;;
      let surface := if return_grid then Some [V] else None in
      st <- for_fold (range_up 0 N)
              (time_loop_body option_type Smax K r dt A B C
                 (Z.to_nat M) lL dL uL)
              (V, surface) ;;
      let price := np_interp S0 S st.1 in
      if negb return_grid then ret (Price price)
      else
        ret (PriceInfo price
               {| info_S_grid := S; info_V_tau_T := st.1; info_dS := dS;
                  info_dt := dt; info_M := M; info_N := N;
                  info_Smax := Smax; info_surface := st.2 |}).

End Engine.

(** ** [src/pde_adaptive_time.py] *)

(** [from .config import name]: an [ImportError] when the module does not
    define the name. *)
Definition import_from (module_names : list string) (name : string)
    : result unit :=
  if bool_decide (name ∈ module_names) then Ok tt
  else Raise (ImportError ("cannot import name " +:+ name)).

(** The body of [price_option_adaptive_time] (lines 14-52). *)
Definition price_option_adaptive_time_body {F : Type}
    (spot strike rate volatility time_to_expiry : F)
    (num_space_points : Z) (option_type : string) : result F :=
  Raise (NotImplementedError
           "Adaptive time-stepping solver not yet implemented").

(** Executing the module: line 11 imports [PDEConfig] from [config], then
    the function is defined. *)
Definition pde_adaptive_time_module {F : Type}
    : result (F -> F -> F -> F -> F -> Z -> string -> result F) :=
  match import_from config_names "PDEConfig" with
  | Ok _ => Ok price_option_adaptive_time_body
  | Raise e => Raise e
  end.

(** A caller imports the module and calls the entry point. *)
Definition price_option_adaptive_time {F : Type}
    (spot strike rate volatility time_to_expiry : F)
    (num_space_points : Z) (option_type : string) : result F :=
  match pde_adaptive_time_module with
  | Ok f =>
      f spot strike rate volatility time_to_expiry num_space_points option_type
  | Raise e => Raise e
  end.

(** ** The quantities the statements below are about *)

Section Quantities.
Context {F : Type} `{Arith F}.

(** The coefficients at one node [s = S_i], in the order the code
    evaluates them. *)
Definition alpha_at (sigma s : F) : F := fhalf *! sigma *! sigma *! s *! s.
Definition beta_at (r s : F) : F := r *! s.
Definition A_at (sigma r dS s : F) : F :=
  alpha_at sigma s /! (dS *! dS) -! beta_at r s /! (ftwo *! dS).
Definition B_at (sigma r dS s : F) : F :=
  (-! ftwo) *! alpha_at sigma s /! (dS *! dS) -! r.
Definition C_at (sigma r dS s : F) : F :=
  alpha_at sigma s /! (dS *! dS) +! beta_at r s /! (ftwo *! dS).

(** The grid and the coefficient arrays of a call, from its resolved
    [Smax] and [M] (lines 64-82). *)
Definition grid_S (Smax : F) (M : Z) : list F :=
  np_linspace fzero Smax (Z.to_nat (M + 1)).
Definition grid_dS (Smax : F) (M : Z) : F := Smax /! of_int M.
Definition grid_nodes (Smax : F) (M : Z) : list F :=
  interior_nodes (grid_S Smax M) M.
Definition grid_A (sigma r Smax : F) (M : Z) : list F :=
  coef_A (grid_dS Smax M) (coef_alpha sigma (grid_nodes Smax M))
    (coef_beta r (grid_nodes Smax M)).
Definition grid_B (sigma r Smax : F) (M : Z) : list F :=
  coef_B r (grid_dS Smax M) (coef_alpha sigma (grid_nodes Smax M)).
Definition grid_C (sigma r Smax : F) (M : Z) : list F :=
  coef_C (grid_dS Smax M) (coef_alpha sigma (grid_nodes Smax M))
    (coef_beta r (grid_nodes Smax M)).

(** The boundary values of the specification, [e] being
    [exp(-r * tau)]. *)
Definition boundary_at_zero (option_type : string) (K e : F) : F :=
  if String.eqb option_type "call" then fzero else K *! e.
Definition boundary_at_Smax (option_type : string) (Smax K e : F) : F :=
  if String.eqb option_type "call" then Smax -! K *! e else fzero.

(** A model of [np.interp(x, xp, fp)] for increasing [xp]: the first or
    the last value outside the grid, linear between two nodes. *)
Fixpoint interp_between (x : F) (xp fp : list F) : option F :=
  match xp, fp with
  | x0 :: ((x1 :: _) as xp'), f0 :: ((f1 :: _) as fp') =>
      if x <.? x1 then
        Some ((f1 -! f0) /! (x1 -! x0) *! (x -! x0) +! f0)
      else interp_between x xp' fp'
  | _, _ => None
  end.

Definition linear_interp (x : F) (xp fp : list F) : F :=
  if x <.? xp !!! 0%nat then fp !!! 0%nat
  else
    match interp_between x xp fp with
    | Some v => v
    | None => fp !!! (length fp - 1)%nat
    end.

End Quantities.

Section StepValues.
Context {F : Type} `{Arith F}.
Variable math_exp : F -> result F.

(** The value vector a pass computes from [V], as a function. *)
Definition step_value (option_type : string) (Smax K r dt : F)
    (A B C : list F) (M : nat) (n : Z) (V : list F) : result (list F) :=
  match boundary math_exp option_type Smax K r (of_int n *! dt),
        boundary math_exp option_type Smax K r (of_int (n + 1) *! dt) with
  | Ok bn, Ok bnp1 =>
      Ok (bnp1.1 ::
          spec_thomas (lower_L dt A) (diag_L dt B) (upper_L dt C)
            (assemble_rhs dt A B C M (<[M := bn.2]> (<[0%nat := bn.1]> V))
               bn.1 bn.2 bnp1.1 bnp1.2)
          ++ [bnp1.2])
  | Raise e, _ => Raise e
  | _, Raise e => Raise e
  end.

End StepValues.

(** The rows a loop over [ns] appends to the surface, as a function. *)
Fixpoint steps_values {F : Type} (step : Z -> list F -> result (list F))
    (ns : list Z) (V : list F) : result (list (list F)) :=
  match ns with
  | [] => Ok []
  | n :: ns' =>
      match step n V with
      | Ok V' =>
          match steps_values step ns' V' with
          | Ok rows => Ok (V' :: rows)
          | Raise e => Raise e
          end
      | Raise e => Raise e
      end
  end.

(** The messages of the parameter checks, and the message of the grid
    check. *)
Definition invalid_parameter_message (msg : string) : Prop :=
  msg = "Stock price and strike must be positive" \/
  msg = "Time to maturity must be positive" \/
  msg = "Volatility must be positive" \/
  msg = "option_type must be 'call' or 'put'".

Definition invalid_grid_message (msg : string) : Prop :=
  msg = "Need M >= 3 and N >= 1 for a meaningful grid".

(** A [math.exp] that is never available, and an [np.interp] that is
    never consulted: for calls that must not reach them. *)
Definition no_exp (x : float) : result float :=
  Raise (OverflowError "math range error").
Definition no_interp (x : float) (xp fp : list float) : float := nan.

(** [math.exp] in exact arithmetic. *)
Definition real_exp (x : R) : result R := Ok (exp x).

(** [v] is within [2^-40] of [1.0]. *)
Definition near_one (v : float) : bool :=
  (PrimFloat.abs (v - 1) <=? 0x1p-40)%float.

(** An infinity or a NaN. *)
Definition nonfinite (x : float) : bool :=
  match Prim2SF x with
  | S754_infinity _ | S754_nan => true
  | _ => false
  end.

(** ** Which exceptions a program may raise, and what it leaves in place *)

(** Every exception but [ValueError]. *)
Definition benign (e : exn) : Prop :=
  match e with ValueError _ => False | _ => True end.

(** [keeps E h0 m Q]: run from any store that extends [h0], the program
    [m] ends in a store that still extends [h0]; a value it returns
    satisfies [Q] and an exception it raises satisfies [E]. *)
Definition keeps {F A : Type} (E : exn -> Prop) (h0 : gmap loc (list F))
    (m : Prog A) (Q : A -> Prop) : Prop :=
  forall h, h0 ⊆ h ->
    h0 ⊆ (m h).2 /\
    match (m h).1 with Ok a => Q a | Raise e => E e end.

(** No condition on the exception. *)
Definition any_exn (e : exn) : Prop := True.

(** ** Strict diagonal dominance of a tridiagonal matrix *)

(** The sum of the moduli of the off-diagonal entries of row [i]. *)
Definition off_diagonal_sum (sub dg super : list R) (i : nat) : R :=
  ((if decide (i = 0%nat) then 0 else Rabs (sub !!! (i - 1)%nat))
   + (if decide (S i < length dg)%nat then Rabs (super !!! i) else 0))%R.

Definition strictly_dominant (sub dg super : list R) : Prop :=
  forall i, (i < length dg)%nat ->
    (off_diagonal_sum sub dg super i < Rabs (dg !!! i))%R.

(** ** [src/bs_analytic.py] *)

(** Sequencing of computations that may raise. *)
Definition and_then {A B : Type} (r : result A) (k : A -> result B)
    : result B :=
  match r with
  | Ok a => k a
  | Raise e => Raise e
  end.

Notation "x <~ r ;; k" := (and_then r (fun x => k))
  (at level 100, r at next level, right associativity) : arith_scope.

(** [delta], [gamma], [vega] of the dataclass [Greeks] (lines 57-61). *)
Record Greeks (F : Type) : Type := {
  delta : F;
  gamma : F;
  vega : F
}.

Arguments delta {F} g.
Arguments gamma {F} g.
Arguments vega {F} g.

Section BsAnalytic.
Context {F : Type} `{Arith F}.

(** [math.sqrt], [math.log] and [math.exp] raise on arguments outside
    their domain or range; [scipy.stats.norm.cdf] and [norm.pdf] return a
    NumPy scalar for every argument; [abs] is the builtin. *)
Variable math_sqrt math_log math_exp : F -> result F.
Variable norm_cdf norm_pdf : F -> F.
Variable py_abs : F -> F.

(** [x / y] on Python floats: a [ZeroDivisionError] when [y == 0]. *)
Definition float_truediv (x y : F) : result F :=
  if y =.? fzero then Raise (ZeroDivisionError "float division by zero")
  else Ok (x /! y).

(** Lines 13-22. *)
Definition _validate_inputs (S0 K T r sigma : F) : result unit :=
  if S0 <=.? fzero then Raise (ValueError "S0 (spot price) must be > 0")
  else if K <=.? fzero then Raise (ValueError "K (strike) must be > 0")
  else if T <=.? fzero then
    Raise (ValueError "T (time to maturity, years) must be > 0")
  else if sigma <=.? fzero then
    Raise (ValueError "sigma (volatility) must be > 0")
  else Ok tt.

(** Lines 24-33. *)
Definition _d1_d2 (S0 K T r sigma : F) : result (F * F) :=
  _ <~ _validate_inputs S0 K T r sigma ;;
  sqrtT <~ math_sqrt T ;;
  let denom := sigma *! sqrtT in
  q <~ float_truediv S0 K ;;
  l <~ math_log q ;;
  d1 <~ float_truediv (l +! (r +! fhalf *! sigma *! sigma) *! T) denom ;;
  let d2 := d1 -! denom in
  Ok (d1, d2).

(** Lines 36-46. *)
Definition bs_price (S0 K T r sigma : F) (option_type : string)
    : result F :=
  d <~ _d1_d2 S0 K T r sigma ;;
  disc <~ math_exp ((-! r) *! T) ;;
  if String.eqb option_type "call" then
    Ok (S0 *! norm_cdf d.1 -! K *! disc *! norm_cdf d.2)
  else if String.eqb option_type "put" then
    Ok (K *! disc *! norm_cdf (-! d.2) -! S0 *! norm_cdf (-! d.1))
  else Raise (ValueError "option_type must be 'call' or 'put'").

(** Lines 49-54. *)
Definition bs_call_price (S0 K T r sigma : F) : result F :=
  bs_price S0 K T r sigma "call".

Definition bs_put_price (S0 K T r sigma : F) : result F :=
  bs_price S0 K T r sigma "put".

(** Lines 64-81.  [pdf_d1] is a NumPy scalar, so the division that gives
    [gamma] is NumPy's and raises nothing. *)
Definition bs_greeks (S0 K T r sigma : F) (option_type : string)
    : result (Greeks F) :=
  d <~ _d1_d2 S0 K T r sigma ;;
  let pdf_d1 := norm_pdf d.1 in
  sqrtT <~ math_sqrt T ;;
  let gamma := pdf_d1 /! (S0 *! sigma *! sqrtT) in
  let vega := S0 *! pdf_d1 *! sqrtT in
  if String.eqb option_type "call" then
    Ok {| delta := norm_cdf d.1; gamma := gamma; vega := vega |}
  else if String.eqb option_type "put" then
    Ok {| delta := norm_cdf d.1 -! fone; gamma := gamma; vega := vega |}
  else Raise (ValueError "option_type must be 'call' or 'put'").

(** Lines 84-88. *)
Definition call_put_parity_error (S0 K T r sigma : F) : result F :=
  C <~ bs_call_price S0 K T r sigma ;;
  P <~ bs_put_price S0 K T r sigma ;;
  e <~ math_exp ((-! r) *! T) ;;
  let parity_rhs := S0 -! K *! e in
  Ok (py_abs ((C -! P) -! parity_rhs)).

End BsAnalytic.

(** The messages of [_validate_inputs]. *)
Definition bs_parameter_message (msg : string) : Prop :=
  msg = "S0 (spot price) must be > 0" \/
  msg = "K (strike) must be > 0" \/
  msg = "T (time to maturity, years) must be > 0" \/
  msg = "sigma (volatility) must be > 0".

(** [math.sqrt] and [math.log] in exact arithmetic: a [ValueError]
    outside the domain. *)
Definition real_sqrt (x : R) : result R :=
  if Rleb 0 x then Ok (sqrt x) else Raise (ValueError "math domain error").

Definition real_log (x : R) : result R :=
  if Rltb 0 x then Ok (ln x) else Raise (ValueError "math domain error").

(** The density of the standard normal distribution. *)
Definition real_norm_pdf (x : R) : R :=
  (exp (- (x * x) / 2) / sqrt (2 * PI))%R.

(** A distribution function on the reals: with values strictly between 0
    and 1 and symmetric, [cdf (-x) = 1 - cdf x], as the one of the
    standard normal distribution is. *)
Definition symmetric_cdf (cdf : R -> R) : Prop :=
  forall x, (0 < cdf x < 1)%R /\ cdf (- x)%R = (1 - cdf x)%R.

(** The logistic distribution function, which is one. *)
Definition logistic_cdf (x : R) : R := (1 / (1 + exp (- x)))%R.

(** ** [src/benchmarks.py] *)

(** The names the modules [bs_analytic] and [pde_fixed_grid] define. *)
Definition bs_analytic_names : list string :=
  ["annotations"; "math"; "dataclass"; "Literal"; "Tuple"; "norm";
   "OptionType"; "_validate_inputs"; "_d1_d2"; "bs_price"; "bs_call_price";
   "bs_put_price"; "Greeks"; "bs_greeks"; "call_put_parity_error"].

Definition pde_fixed_grid_names : list string :=
  ["annotations"; "math"; "Literal"; "Dict"; "Any"; "Tuple"; "np";
   "DEFAULT_PRICE_STEPS"; "DEFAULT_TIME_STEPS"; "S_MAX_MULTIPLIER";
   "validate_option_inputs"; "OptionType"; "_thomas_solve";
   "price_european_fixed_grid"].

(** The exceptions of this module: the ones above, and the
    [AttributeError] of a name a module does not define. *)
Inductive bench_exn : Type :=
  | Builtin (e : exn)
  | AttributeError (msg : string)
  | OtherException (msg : string).

Inductive outcome (A : Type) : Type :=
  | Returns (a : A)
  | Raises (e : bench_exn).

Arguments Returns {A} a.
Arguments Raises {A} e.

(** [module.name]: the object when the module defines the name. *)
Definition module_attr {A : Type} (module : string) (names : list string)
    (name : string) (object : A) : outcome A :=
  if bool_decide (name ∈ names) then Returns object
  else Raises (AttributeError
                 ("module '" +:+ module +:+ "' has no attribute '"
                  +:+ name +:+ "'")).

(** A row of the results table (lines 50-57). *)
Record bench_row (F V : Type) : Type := {
  row_spot : option V;
  row_strike : option V;
  row_solver_price : F;
  row_bs_price : F;
  row_abs_error : F;
  row_rel_error : F
}.

Arguments Build_bench_row {F V} _ _ _ _ _ _.

Section Benchmarks.
Context {F : Type} `{Arith F}.

(** Keyword dictionaries and their values; [tc.get(key)];
    [tc.get('option_type', 'call') == 'call']; [abs].  A callable takes
    the entries of [tc] and of [params] as keyword arguments. *)
Variables (kwargs value : Type).
Variable dict_get : kwargs -> string -> option value.
Variable is_call : kwargs -> bool.
Variable py_abs : F -> F.

(** What calling an attribute of [bs_analytic] on the entries of [tc]
    would do. *)
Variable call_attr : string -> kwargs -> outcome F.

(** Lines 44-57, the body of the [try]. *)
Definition benchmark_case (solver_func : kwargs -> kwargs -> outcome F)
    (params tc : kwargs) : outcome (bench_row F value) :=
  match solver_func tc params with
  | Raises e => Raises e
  | Returns price =>
      let name := if is_call tc then "call_price" else "put_price" in
      match module_attr "bs_analytic" bs_analytic_names name
              (call_attr name) with
      | Raises e => Raises e
      | Returns f =>
          match f tc with
          | Raises e => Raises e
          | Returns bs_price =>
              let error := py_abs (price -! bs_price) in
              let rel_error :=
                if negb (bs_price =.? fzero) then error /! bs_price
                else fzero in
              Returns (Build_bench_row (dict_get tc "spot")
                         (dict_get tc "strike") price bs_price error
                         rel_error)
          end
      end
  end.

(** Lines 41-62: the rows of the table, and what is printed. *)
Fixpoint benchmark_loop (solver_func : kwargs -> kwargs -> outcome F)
    (params : kwargs) (test_cases : list kwargs)
    (results : list (bench_row F value)) (printed : list (kwargs * bench_exn))
    : list (bench_row F value) * list (kwargs * bench_exn) :=
  match test_cases with
  | [] => (results, printed)
  | tc :: rest =>
      match benchmark_case solver_func params tc with
      | Returns row =>
          benchmark_loop solver_func params rest (results ++ [row]) printed
      | Raises e =>
          benchmark_loop solver_func params rest results
            (printed ++ [(tc, e)])
      end
  end.

Definition benchmark_solver (solver_func : kwargs -> kwargs -> outcome F)
    (params : kwargs) (test_cases : list kwargs) (name : string)
    : list (bench_row F value) * list (kwargs * bench_exn) :=
  benchmark_loop solver_func params test_cases [] [].

(** Lines 84-94: the solver is looked up in [pde_fixed_grid] before
    [benchmark_solver] is called. *)
Definition compare_solvers
    (price_option_fixed_grid : kwargs -> kwargs -> outcome F)
    (test_cases : list kwargs) (params : kwargs)
    : outcome (list (string * list (bench_row F value))) :=
  match module_attr "pde_fixed_grid" pde_fixed_grid_names
          "price_option_fixed_grid" price_option_fixed_grid with
  | Raises e => Raises e
  | Returns solver =>
      Returns [("fixed_grid",
                (benchmark_solver solver params test_cases "Fixed Grid").1)]
  end.

End Benchmarks.

(** Executing the module [benchmarks]: line 11 imports [PDEConfig] from
    [config]. *)
Definition benchmarks_module : result unit :=
  import_from config_names "PDEConfig".

(** What is printed for a test case: the exception of the solver, or the
    [AttributeError] of the price function that [bs_analytic] lacks. *)
Definition case_error {F kwargs : Type} (is_call : kwargs -> bool)
    (solver_func : kwargs -> kwargs -> outcome F) (params : kwargs)
    (tc : kwargs) (e : bench_exn) : Prop :=
  solver_func tc params = Raises e \/
  ((exists price, solver_func tc params = Returns price) /\
   e = AttributeError
         ("module 'bs_analytic' has no attribute '"
          +:+ (if is_call tc then "call_price" else "put_price") +:+ "'")).

(** * Proofs *)

(** The solver on the example system of the specification, in binary64. *)
Example thomas_float_run :
  thomas_call [(-1)%float; (-1)%float] [2%float; 2%float; 2%float]
              [(-1)%float; (-1)%float] [1%float; 0%float; 1%float]
  = Ok [1%float; 1%float; 0x1.fffffffffffffp-1%float].
Proof. vm_compute. reflexivity. Qed.

Section Running.
Context {F : Type} `{Arith F}.
Implicit Types (h : gmap loc (list F)) (l : loc) (a : list F).

Lemma bind_ok {A B} (m : Prog A) (k : A -> Prog B) h (v : A) h' :
  m h = (Ok v, h') -> bind m k h = k v h'.
Proof. intros Hm. unfold bind. by rewrite Hm. Qed.

Lemma bind_raise {A B} (m : Prog A) (k : A -> Prog B) h e h' :
  m h = (Raise e, h') -> bind m k h = (Raise e, h').
Proof. intros Hm. unfold bind. by rewrite Hm. Qed.

Lemma load_ok h l a : h !! l = Some a -> load l h = (Ok a, h).
Proof. intros Hl. unfold load. by rewrite Hl. Qed.

Lemma np_size_ok h l a : h !! l = Some a -> np_size l h = (Ok (length a), h).
Proof. intros Hl. unfold np_size. by rewrite (bind_ok _ _ _ _ _ (load_ok _ _ _ Hl)). Qed.

Lemma py_index_nonneg (n : nat) (i : Z) :
  0 <= i < Z.of_nat n -> py_index n i = Some (Z.to_nat i).
Proof.
  intros [H0 H1]. unfold py_index.
  destruct (Z.leb_spec 0 i); [|lia]. destruct (Z.ltb_spec i (Z.of_nat n)); [done|lia].
Qed.

Lemma py_index_last (n : nat) : (0 < n)%nat -> py_index n (-1) = Some (n - 1)%nat.
Proof.
  intros Hn. unfold py_index. simpl.
  destruct (Z.leb_spec (- Z.of_nat n) (-1)); [|lia]. f_equal. lia.
Qed.

Lemma py_index_lt (n : nat) (i : Z) (k : nat) :
  py_index n i = Some k -> (k < n)%nat.
Proof.
  unfold py_index. destruct (Z.leb_spec 0 i).
  - destruct (Z.ltb_spec i (Z.of_nat n)); [|done]. intros [= <-]. lia.
  - destruct (Z.leb_spec (- Z.of_nat n) i); [|done]. intros [= <-]. lia.
Qed.

Lemma getitem_ok h l a (i : Z) (k : nat) :
  h !! l = Some a -> py_index (length a) i = Some k ->
  getitem l i h = (Ok (a !!! k), h).
Proof.
  intros Hl Hi. unfold getitem. rewrite (bind_ok _ _ _ _ _ (load_ok _ _ _ Hl)).
  rewrite Hi. pose proof (py_index_lt _ _ _ Hi) as Hk.
  by rewrite (list_lookup_lookup_total_lt a k Hk).
Qed.

Lemma setitem_ok h l a (i : Z) (k : nat) (v : F) :
  h !! l = Some a -> py_index (length a) i = Some k ->
  setitem l i v h = (Ok tt, <[l := <[k := v]> a]> h).
Proof.
  intros Hl Hi. unfold setitem. rewrite (bind_ok _ _ _ _ _ (load_ok _ _ _ Hl)).
  by rewrite Hi.
Qed.

Lemma alloc_fresh h a : h !! (fresh (dom h)) = None.
Proof. apply not_elem_of_dom. apply is_fresh. Qed.

End Running.

Section Keeps.
Context {F : Type} `{Arith F}.
Variable E : exn -> Prop.
Variable h0 : gmap loc (list F).

Lemma keeps_ret {A} (a : A) (Q : A -> Prop) : Q a -> keeps E h0 (ret a) Q.
Proof. intros HQ h Hh. by split. Qed.

Lemma keeps_raise {A} (e : exn) (Q : A -> Prop) :
  E e -> keeps E h0 (raise e) Q.
Proof. intros HE h Hh. by split. Qed.

Lemma keeps_lift {A} (r : result A) (Q : A -> Prop) :
  match r with Ok a => Q a | Raise e => E e end -> keeps E h0 (lift r) Q.
Proof. intros Hr h Hh. by split. Qed.

Lemma keeps_bind {A B} (m : Prog A) (k : A -> Prog B)
    (Q1 : A -> Prop) (Q : B -> Prop) :
  keeps E h0 m Q1 -> (forall a, Q1 a -> keeps E h0 (k a) Q) ->
  keeps E h0 (bind m k) Q.
Proof.
  intros Hm Hk h Hh. destruct (Hm h Hh) as [Hsub Hres].
  unfold bind. destruct (m h) as [[a|e] h']; simpl in *.
  - by apply Hk.
  - by split.
Qed.

Lemma keeps_weaken {A} (m : Prog A) (Q1 Q : A -> Prop) :
  keeps E h0 m Q1 -> (forall a, Q1 a -> Q a) -> keeps E h0 m Q.
Proof.
  intros Hm HQ h Hh. destruct (Hm h Hh) as [Hsub Hres]. split; [done|].
  destruct (m h).1; auto.
Qed.

Lemma keeps_load (l : loc) :
  (forall msg, E (SystemError msg)) -> keeps E h0 (load l) (fun _ => True).
Proof.
  intros HE h Hh. unfold load. destruct (h !! l); simpl; auto.
Qed.

Lemma keeps_alloc (a : list F) :
  keeps E h0 (alloc a) (fun l => h0 !! l = None).
Proof.
  intros h Hh. unfold alloc. simpl.
  assert (h0 !! fresh (dom h) = None) as Hfresh.
  { destruct (h0 !! fresh (dom h)) eqn:Hl; [|done].
    pose proof (lookup_weaken _ _ _ _ Hl Hh) as Hl'.
    by rewrite alloc_fresh in Hl'. }
  split; [|done]. by apply insert_subseteq_r.
Qed.

Lemma keeps_getitem (l : loc) (i : Z) :
  (forall msg, E (SystemError msg)) -> (forall msg, E (IndexError msg)) ->
  keeps E h0 (getitem l i) (fun _ => True).
Proof.
  intros HS HI h Hh. unfold getitem, bind, load.
  destruct (h !! l) as [a|]; simpl; [|auto].
  destruct (py_index (length a) i) as [k|]; simpl; [|auto].
  destruct (a !! k); simpl; auto.
Qed.

Lemma keeps_setitem (l : loc) (i : Z) (v : F) :
  (forall msg, E (SystemError msg)) -> (forall msg, E (IndexError msg)) ->
  h0 !! l = None -> keeps E h0 (setitem l i v) (fun _ => True).
Proof.
  intros HS HI Hl h Hh. unfold setitem, bind, load.
  destruct (h !! l) as [a|]; simpl; [|auto].
  destruct (py_index (length a) i) as [k|]; simpl; [|auto].
  split; [|done]. by apply insert_subseteq_r.
Qed.

Lemma keeps_for_each (xs : list Z) (body : Z -> Prog unit) :
  (forall i, keeps E h0 (body i) (fun _ => True)) ->
  keeps E h0 (for_each xs body) (fun _ => True).
Proof.
  intros Hbody. induction xs as [|i xs IH]; simpl.
  - by apply keeps_ret.
  - eapply keeps_bind; [apply Hbody|]. intros _ _. apply IH.
Qed.

Lemma keeps_for_fold {S} (xs : list Z) (body : Z -> S -> Prog S) (s : S) :
  (forall i s', keeps E h0 (body i s') (fun _ => True)) ->
  keeps E h0 (for_fold xs body s) (fun _ => True).
Proof.
  intros Hbody. revert s. induction xs as [|i xs IH]; intros s; simpl.
  - by apply keeps_ret.
  - eapply keeps_bind; [apply Hbody|]. intros s' _. apply IH.
Qed.

End Keeps.

(** ** [_thomas_solve] writes to its private copies only *)

Section ThomasFrame.
Context {F : Type} `{Arith F}.
Implicit Types (h : gmap loc (list F)).

Lemma np_size_none h (l : loc) :
  h !! l = None ->
  np_size l h = (Raise (SystemError "dangling reference"), h).
Proof. intros Hl. unfold np_size, bind, load. by rewrite Hl. Qed.

Lemma private_copy_keeps h0 (l : loc) :
  keeps benign h0 (private_copy l) (fun l' => h0 !! l' = None).
Proof.
  unfold private_copy, astype_float, np_copy.
  eapply keeps_bind.
  { eapply keeps_bind; [by apply keeps_load|]. intros a _. apply keeps_alloc. }
  intros t _. eapply keeps_bind; [by apply keeps_load|].
  intros a _. apply keeps_alloc.
Qed.

Lemma forward_body_keeps h0 (b c d y : loc) (i : Z) :
  h0 !! d = None -> h0 !! y = None ->
  keeps benign h0 (forward_body b c d y i) (fun _ => True).
Proof.
  intros Hd Hy. unfold forward_body.
  repeat (eapply keeps_bind; [by apply keeps_getitem|]; intros ? _).
  eapply keeps_bind; [by apply keeps_setitem|]; intros ? _.
  repeat (eapply keeps_bind; [by apply keeps_getitem|]; intros ? _).
  by apply keeps_setitem.
Qed.

Lemma backward_body_keeps h0 (c d y x : loc) (i : Z) :
  h0 !! x = None ->
  keeps benign h0 (backward_body c d y x i) (fun _ => True).
Proof.
  intros Hx. unfold backward_body.
  repeat (eapply keeps_bind; [by apply keeps_getitem|]; intros ? _).
  by apply keeps_setitem.
Qed.

(** The store a call ends in extends the store it started from, and the
    only [ValueError] is the one of the length check. *)
Lemma thomas_frame h (lower diag upper rhs : loc) :
  h ⊆ (_thomas_solve lower diag upper rhs h).2 /\
  (forall msg,
     (_thomas_solve lower diag upper rhs h).1 = Raise (ValueError msg) ->
     exists dv yv, h !! diag = Some dv /\ h !! rhs = Some yv /\
                   length yv <> length dv).
Proof.
  unfold _thomas_solve.
  destruct (h !! diag) as [dv|] eqn:Hd.
  2:{ rewrite (bind_raise _ _ _ _ _ (np_size_none _ _ Hd)). simpl. by split. }
  rewrite (bind_ok _ _ _ _ _ (np_size_ok _ _ _ Hd)).
  destruct (h !! rhs) as [yv|] eqn:Hy.
  2:{ rewrite (bind_raise _ _ _ _ _ (np_size_none _ _ Hy)). simpl. by split. }
  rewrite (bind_ok _ _ _ _ _ (np_size_ok _ _ _ Hy)).
  destruct (Nat.eqb_spec (length yv) (length dv)) as [Heq|Hne]; simpl.
  2:{ split; [done|]. intros msg _. by exists dv, yv. }
  match goal with |- _ ⊆ (?m h).2 /\ _ =>
    assert (keeps benign h m (fun _ => True)) as Hk end.
  { eapply keeps_bind; [apply private_copy_keeps|]; intros c Hc.
    eapply keeps_bind; [apply private_copy_keeps|]; intros d Hd'.
    eapply keeps_bind; [apply private_copy_keeps|]; intros b Hb.
    eapply keeps_bind; [apply private_copy_keeps|]; intros y Hy'.
    eapply keeps_bind.
    { apply keeps_for_each. intros i. by apply forward_body_keeps. }
    intros _ _.
    eapply keeps_bind; [apply keeps_alloc|]; intros x Hx.
    repeat (eapply keeps_bind; [by apply keeps_getitem|]; intros ? _).
    eapply keeps_bind; [by apply keeps_setitem|]; intros ? _.
    eapply keeps_bind.
    { apply keeps_for_each. intros i. by apply backward_body_keeps. }
    intros _ _. by apply keeps_ret. }
  destruct (Hk h (reflexivity h)) as [Hsub Hres]. split; [done|].
  intros msg Hmsg. rewrite Hmsg in Hres. done.
Qed.

End ThomasFrame.

(** ** [_thomas_solve] performs the sweeps of the specification *)

Section ThomasRun.
Context {F : Type} `{Arith F}.
Implicit Types (h : gmap loc (list F)) (bv cv dv yv xv : list F).

Lemma range_up_seq (a b : nat) :
  range_up (Z.of_nat a) (Z.of_nat b) = map Z.of_nat (seq a (b - a)).
Proof.
  unfold range_up.
  replace (Z.to_nat (Z.of_nat b - Z.of_nat a)) with (b - a)%nat by lia.
  apply list_eq. intros i. rewrite !list_lookup_fmap.
  destruct (decide (i < b - a)%nat) as [Hi|Hi].
  - rewrite !lookup_seq_lt by lia. simpl. f_equal. lia.
  - by rewrite !(lookup_ge_None_2 (seq _ _)) by (rewrite length_seq; lia).
Qed.

Lemma range_down_seq (n : nat) :
  (1 <= n)%nat ->
  range_down (Z.of_nat n - 2) (-1) = map Z.of_nat (reverse (seq 0 (n - 1))).
Proof.
  intros Hn. unfold range_down.
  replace (Z.to_nat (Z.of_nat n - 2 - -1)) with (n - 1)%nat by lia.
  apply list_eq. intros i.
  rewrite !list_lookup_fmap.
  destruct (decide (i < n - 1)%nat) as [Hi|Hi].
  - rewrite reverse_lookup by (rewrite length_seq; lia).
    rewrite length_seq, !lookup_seq_lt by lia. simpl. f_equal. lia.
  - rewrite (lookup_ge_None_2 (seq 0 (n - 1))) by (rewrite length_seq; lia).
    rewrite (lookup_ge_None_2 (reverse _)) by (rewrite length_reverse, length_seq; lia).
    done.
Qed.

Lemma forward_body_run h (b c d y : loc) bv cv dv yv (k : nat) :
  d <> y -> b <> d -> c <> d ->
  h !! b = Some bv -> h !! c = Some cv ->
  h !! d = Some dv -> h !! y = Some yv ->
  (1 <= k)%nat -> (k < length dv)%nat -> (k < length yv)%nat ->
  (k - 1 < length bv)%nat -> (k - 1 < length cv)%nat ->
  let st := spec_forward_step bv cv (dv, yv) k in
  forward_body b c d y (Z.of_nat k) h
  = (Ok tt, <[y := st.2]> (<[d := st.1]> h)).
Proof.
  intros Hdy Hbd Hcd Hb Hc Hd Hy Hk1 Hkd Hky Hkb Hkc st.
  unfold forward_body.
  assert (Z.to_nat (Z.of_nat k - 1) = (k - 1)%nat) as Hk' by lia.
  rewrite (bind_ok _ _ _ _ _ (getitem_ok h b bv (Z.of_nat k - 1) (k - 1) Hb
    ltac:(rewrite py_index_nonneg by lia; by rewrite Hk'))).
  rewrite (bind_ok _ _ _ _ _ (getitem_ok h d dv (Z.of_nat k - 1) (k - 1) Hd
    ltac:(rewrite py_index_nonneg by lia; by rewrite Hk'))).
  rewrite (bind_ok _ _ _ _ _ (getitem_ok h d dv (Z.of_nat k) k Hd
    ltac:(rewrite py_index_nonneg by lia; by rewrite Nat2Z.id))).
  rewrite (bind_ok _ _ _ _ _ (getitem_ok h c cv (Z.of_nat k - 1) (k - 1) Hc
    ltac:(rewrite py_index_nonneg by lia; by rewrite Hk'))).
  rewrite (bind_ok _ _ _ _ _ (setitem_ok h d dv (Z.of_nat k) k _ Hd
    ltac:(rewrite py_index_nonneg by lia; by rewrite Nat2Z.id))).
  set (h1 := <[d := _]> h).
  assert (h1 !! y = Some yv) as Hy1.
  { unfold h1. by rewrite lookup_insert_ne. }
  rewrite (bind_ok _ _ _ _ _ (getitem_ok h1 y yv (Z.of_nat k) k Hy1
    ltac:(rewrite py_index_nonneg by lia; by rewrite Nat2Z.id))).
  rewrite (bind_ok _ _ _ _ _ (getitem_ok h1 y yv (Z.of_nat k - 1) (k - 1) Hy1
    ltac:(rewrite py_index_nonneg by lia; by rewrite Hk'))).
  rewrite (setitem_ok h1 y yv (Z.of_nat k) k _ Hy1
    ltac:(rewrite py_index_nonneg by lia; by rewrite Nat2Z.id)).
  done.
Qed.

Lemma forward_loop_run (b c d y : loc) bv cv (n : nat) (ks : list nat) :
  d <> y -> b <> d -> b <> y -> c <> d -> c <> y ->
  Forall (fun k => 1 <= k < n /\ k - 1 < length bv /\ k - 1 < length cv)%nat ks ->
  forall h dv yv,
    h !! b = Some bv -> h !! c = Some cv ->
    h !! d = Some dv -> h !! y = Some yv ->
    length dv = n -> length yv = n ->
    let st := foldl (spec_forward_step bv cv) (dv, yv) ks in
    exists h',
      for_each (map Z.of_nat ks) (forward_body b c d y) h = (Ok tt, h') /\
      h' !! d = Some st.1 /\ h' !! y = Some st.2 /\
      (forall l, l <> d -> l <> y -> h' !! l = h !! l).
Proof.
  intros Hdy Hbd Hby Hcd Hcy Hks.
  induction Hks as [|k ks (Hk1 & Hkb & Hkc) _ IH];
    intros h dv yv Hb Hc Hd Hy Hld Hly st.
  - exists h. simpl. by repeat split.
  - simpl in st. simpl.
    rewrite (bind_ok _ _ _ _ _
      (forward_body_run h b c d y bv cv dv yv k Hdy Hbd Hcd Hb Hc Hd Hy
         ltac:(lia) ltac:(lia) ltac:(lia) Hkb Hkc)).
    set (st1 := spec_forward_step bv cv (dv, yv) k) in *.
    set (h1 := <[y := st1.2]> (<[d := st1.1]> h)).
    destruct (IH h1 st1.1 st1.2) as (h' & Hrun & Hd' & Hy' & Hfr).
    + unfold h1. by rewrite !lookup_insert_ne.
    + unfold h1. by rewrite !lookup_insert_ne.
    + unfold h1. rewrite lookup_insert_ne by done. by rewrite lookup_insert_eq.
    + unfold h1. by rewrite lookup_insert_eq.
    + unfold st1, spec_forward_step. simpl. by rewrite length_insert.
    + unfold st1, spec_forward_step. simpl. by rewrite length_insert.
    + exists h'. replace (st1.1, st1.2) with st1 in * by by destruct st1.
      repeat split; try done.
      intros l Hl1 Hl2. rewrite Hfr by done. unfold h1.
      by rewrite !lookup_insert_ne.
Qed.

Lemma backward_body_run h (c d y x : loc) cv dv yv xv (k : nat) :
  h !! c = Some cv -> h !! d = Some dv ->
  h !! y = Some yv -> h !! x = Some xv ->
  (k < length cv)%nat -> (k < length dv)%nat -> (k < length yv)%nat ->
  (k + 1 < length xv)%nat ->
  backward_body c d y x (Z.of_nat k) h
  = (Ok tt, <[x := spec_backward_step cv dv yv xv k]> h).
Proof.
  intros Hc Hd Hy Hx Hkc Hkd Hky Hkx. unfold backward_body.
  rewrite (bind_ok _ _ _ _ _ (getitem_ok h y yv (Z.of_nat k) k Hy
    ltac:(rewrite py_index_nonneg by lia; by rewrite Nat2Z.id))).
  rewrite (bind_ok _ _ _ _ _ (getitem_ok h c cv (Z.of_nat k) k Hc
    ltac:(rewrite py_index_nonneg by lia; by rewrite Nat2Z.id))).
  rewrite (bind_ok _ _ _ _ _ (getitem_ok h x xv (Z.of_nat k + 1) (k + 1) Hx
    ltac:(rewrite py_index_nonneg by lia; f_equal; lia))).
  rewrite (bind_ok _ _ _ _ _ (getitem_ok h d dv (Z.of_nat k) k Hd
    ltac:(rewrite py_index_nonneg by lia; by rewrite Nat2Z.id))).
  rewrite (setitem_ok h x xv (Z.of_nat k) k _ Hx
    ltac:(rewrite py_index_nonneg by lia; by rewrite Nat2Z.id)).
  done.
Qed.

Lemma backward_loop_run (c d y x : loc) cv dv yv (n : nat) (ks : list nat) :
  c <> x -> d <> x -> y <> x ->
  length dv = n -> length yv = n ->
  Forall (fun k => k + 1 < n /\ k < length cv)%nat ks ->
  forall h xv,
    h !! c = Some cv -> h !! d = Some dv ->
    h !! y = Some yv -> h !! x = Some xv ->
    length xv = n ->
    exists h',
      for_each (map Z.of_nat ks) (backward_body c d y x) h = (Ok tt, h') /\
      h' !! x = Some (foldl (spec_backward_step cv dv yv) xv ks) /\
      (forall l, l <> x -> h' !! l = h !! l).
Proof.
  intros Hcx Hdx Hyx Hld Hly Hks.
  induction Hks as [|k ks (Hk1 & Hkc) _ IH]; intros h xv Hc Hd Hy Hx Hlx.
  - exists h. simpl. by repeat split.
  - simpl.
    rewrite (bind_ok _ _ _ _ _
      (backward_body_run h c d y x cv dv yv xv k Hc Hd Hy Hx
         Hkc ltac:(lia) ltac:(lia) ltac:(lia))).
    set (x1 := spec_backward_step cv dv yv xv k).
    destruct (IH (<[x := x1]> h) x1) as (h' & Hrun & Hx' & Hfr).
    + by rewrite lookup_insert_ne.
    + by rewrite lookup_insert_ne.
    + by rewrite lookup_insert_ne.
    + by rewrite lookup_insert_eq.
    + unfold x1, spec_backward_step. by rewrite length_insert.
    + exists h'. repeat split; try done.
      intros l Hl. rewrite Hfr by done. by rewrite lookup_insert_ne.
Qed.

Lemma private_copy_run h (l : loc) (a : list F) :
  h !! l = Some a ->
  exists l' h',
    private_copy l h = (Ok l', h') /\ h !! l' = None /\
    h' !! l' = Some a /\ h ⊆ h'.
Proof.
  intros Hl. unfold private_copy.
  set (t := fresh (dom h)). set (h1 := <[t := a]> h).
  assert (astype_float l h = (Ok t, h1)) as Hrun1.
  { unfold astype_float. by rewrite (bind_ok _ _ _ _ _ (load_ok _ _ _ Hl)). }
  assert (h !! t = None) as Ht by by apply alloc_fresh.
  assert (h1 !! t = Some a) as Ht1 by apply lookup_insert_eq.
  set (l' := fresh (dom h1)).
  assert (np_copy t h1 = (Ok l', <[l' := a]> h1)) as Hrun2.
  { unfold np_copy. by rewrite (bind_ok _ _ _ _ _ (load_ok _ _ _ Ht1)). }
  rewrite (bind_ok _ _ _ _ _ Hrun1), Hrun2.
  assert (h1 !! l' = None) as Hl1 by by apply alloc_fresh.
  assert (h ⊆ h1) as Hsub by by apply insert_subseteq.
  exists l', (<[l' := a]> h1). repeat split.
  - destruct (h !! l') eqn:Hhl; [|done].
    pose proof (lookup_weaken _ _ _ _ Hhl Hsub) as Hw. congruence.
  - apply lookup_insert_eq.
  - etrans; [exact Hsub|]. by apply insert_subseteq.
Qed.

End ThomasRun.

Section ThomasCorrect.
Context {F : Type} `{Arith F}.
Implicit Types (h : gmap loc (list F)) (bv cv dv yv xv : list F).

Lemma forward_sweep_length bv cv (ks : list nat) dv yv :
  length (foldl (spec_forward_step bv cv) (dv, yv) ks).1 = length dv /\
  length (foldl (spec_forward_step bv cv) (dv, yv) ks).2 = length yv.
Proof.
  revert dv yv. induction ks as [|k ks IH]; intros dv yv; [done|].
  simpl. unfold spec_forward_step at 2 4. simpl.
  destruct (IH (<[k := dv !!! k -! bv !!! (k - 1)%nat /! dv !!! (k - 1)%nat
                            *! cv !!! (k - 1)%nat]> dv)
               (<[k := yv !!! k -! bv !!! (k - 1)%nat /! dv !!! (k - 1)%nat
                            *! yv !!! (k - 1)%nat]> yv)) as [IH1 IH2].
  rewrite !length_insert in *. done.
Qed.

(** On arrays of well-formed lengths the call returns, and what it
    returns is the result of the two sweeps. *)
Lemma thomas_run h (lower diag upper rhs : loc) bv dv cv yv :
  h !! lower = Some bv -> h !! diag = Some dv ->
  h !! upper = Some cv -> h !! rhs = Some yv ->
  length yv = length dv -> (1 <= length dv)%nat ->
  (length dv - 1 <= length bv)%nat -> (length dv - 1 <= length cv)%nat ->
  exists x h',
    _thomas_solve lower diag upper rhs h = (Ok x, h') /\
    h' !! x = Some (spec_thomas bv dv cv yv).
Proof.
  intros Hb Hd Hc Hy Hlen Hn Hlb Hlc. unfold _thomas_solve.
  rewrite (bind_ok _ _ _ _ _ (np_size_ok _ _ _ Hd)).
  rewrite (bind_ok _ _ _ _ _ (np_size_ok _ _ _ Hy)).
  rewrite Hlen, Nat.eqb_refl. simpl.
  set (n := length dv) in *.
  destruct (private_copy_run h upper cv Hc) as (c & h1 & Hr1 & Hc0 & Hc1 & Hs1).
  rewrite (bind_ok _ _ _ _ _ Hr1).
  destruct (private_copy_run h1 diag dv (lookup_weaken _ _ _ _ Hd Hs1))
    as (d & h2 & Hr2 & Hd1 & Hd2 & Hs2).
  rewrite (bind_ok _ _ _ _ _ Hr2).
  destruct (private_copy_run h2 lower bv
              (lookup_weaken _ _ _ _ (lookup_weaken _ _ _ _ Hb Hs1) Hs2))
    as (b & h3 & Hr3 & Hb2 & Hb3 & Hs3).
  rewrite (bind_ok _ _ _ _ _ Hr3).
  destruct (private_copy_run h3 rhs yv
              (lookup_weaken _ _ _ _ (lookup_weaken _ _ _ _
                 (lookup_weaken _ _ _ _ Hy Hs1) Hs2) Hs3))
    as (y & h4 & Hr4 & Hy3 & Hy4 & Hs4).
  rewrite (bind_ok _ _ _ _ _ Hr4).
  (* the private arrays in the store the loops start from *)
  pose proof (lookup_weaken _ _ _ _ Hc1 Hs2) as Hc2.
  pose proof (lookup_weaken _ _ _ _ Hc2 Hs3) as Hc3.
  pose proof (lookup_weaken _ _ _ _ Hc3 Hs4) as Hc4.
  pose proof (lookup_weaken _ _ _ _ Hd2 Hs3) as Hd3.
  pose proof (lookup_weaken _ _ _ _ Hd3 Hs4) as Hd4.
  pose proof (lookup_weaken _ _ _ _ Hb3 Hs4) as Hb4.
  assert (c <> d) as Hcd by (intros ->; congruence).
  assert (c <> b) as Hcb by (intros ->; congruence).
  assert (c <> y) as Hcy by (intros ->; congruence).
  assert (d <> b) as Hdb by (intros ->; congruence).
  assert (d <> y) as Hdy by (intros ->; congruence).
  assert (b <> y) as Hby by (intros ->; congruence).
  (* forward loop *)
  change 1 with (Z.of_nat 1). rewrite range_up_seq.
  destruct (forward_loop_run b c d y bv cv n (seq 1 (n - 1))
              Hdy ltac:(done) Hby Hcd Hcy) with (h := h4) (dv := dv) (yv := yv)
    as (h5 & Hr5 & Hd5 & Hy5 & Hfr5); try done.
  { apply Forall_forall. intros k Hk%elem_of_seq. lia. }
  rewrite (bind_ok _ _ _ _ _ Hr5).
  fold (spec_forward_sweep bv dv cv yv n) in Hd5, Hy5.
  set (st := spec_forward_sweep bv dv cv yv n) in *.
  destruct (forward_sweep_length bv cv (seq 1 (n - 1)) dv yv) as [Hl1 Hl2].
  fold (spec_forward_sweep bv dv cv yv n) in Hl1, Hl2. fold st in Hl1, Hl2.
  assert (h5 !! c = Some cv) as Hc5 by (rewrite Hfr5; done).
  (* the result array *)
  unfold np_empty. unfold alloc at 1.
  set (x := fresh (dom h5)). set (h6 := <[x := replicate n fzero]> h5).
  assert (h5 !! x = None) as Hx5 by by apply alloc_fresh.
  rewrite (bind_ok _ _ (h5) x h6) by done.
  assert (c <> x) as Hcx by (intros ->; congruence).
  assert (d <> x) as Hdx by (intros ->; congruence).
  assert (y <> x) as Hyx by (intros ->; congruence).
  assert (h6 !! c = Some cv) as Hc6 by (unfold h6; by rewrite lookup_insert_ne).
  assert (h6 !! d = Some st.1) as Hd6 by (unfold h6; by rewrite lookup_insert_ne).
  assert (h6 !! y = Some st.2) as Hy6 by (unfold h6; by rewrite lookup_insert_ne).
  assert (h6 !! x = Some (replicate n fzero)) as Hx6 by apply lookup_insert_eq.
  rewrite (bind_ok _ _ _ _ _ (getitem_ok h6 y st.2 (-1) (n - 1) Hy6
    ltac:(rewrite Hl2, Hlen; apply py_index_last; lia))).
  rewrite (bind_ok _ _ _ _ _ (getitem_ok h6 d st.1 (-1) (n - 1) Hd6
    ltac:(rewrite Hl1; apply py_index_last; lia))).
  rewrite (bind_ok _ _ _ _ _ (setitem_ok h6 x (replicate n fzero) (-1) (n - 1) _ Hx6
    ltac:(rewrite length_replicate; apply py_index_last; lia))).
  set (x0 := <[(n - 1)%nat := _]> (replicate n fzero)).
  set (h7 := <[x := x0]> h6).
  (* backward loop *)
  rewrite range_down_seq by done.
  destruct (backward_loop_run c d y x cv st.1 st.2 n (reverse (seq 0 (n - 1)))
              Hcx Hdx Hyx) with (h := h7) (xv := x0)
    as (h8 & Hr8 & Hx8 & Hfr8); try done.
  { by rewrite Hl2. }
  { apply Forall_forall. intros k Hk%elem_of_reverse%elem_of_seq. lia. }
  { unfold h7. by rewrite lookup_insert_ne. }
  { unfold h7. by rewrite lookup_insert_ne. }
  { unfold h7. by rewrite lookup_insert_ne. }
  { unfold h7. by rewrite lookup_insert_eq. }
  { unfold x0. by rewrite length_insert, length_replicate. }
  rewrite (bind_ok _ _ _ _ _ Hr8).
  exists x, h8. split; [done|]. rewrite Hx8. done.
Qed.

End ThomasCorrect.

(** ** The recurrences the two sweeps compute *)

Section Recurrences.
Context {F : Type} `{Arith F}.
Implicit Types (bv cv dv yv xv : list F).

(** After the forward steps [1 .. m]: entry [0] and the entries after
    [m] are untouched, the entries [1 .. m] satisfy the recurrence. *)
Lemma forward_sweep_inv bv cv dv yv (m : nat) :
  let st := foldl (spec_forward_step bv cv) (dv, yv) (seq 1 m) in
  (m < length dv)%nat -> (m < length yv)%nat ->
  (forall i, (i = 0 \/ m < i)%nat ->
     st.1 !!! i = dv !!! i /\ st.2 !!! i = yv !!! i) /\
  (forall i, (1 <= i <= m)%nat ->
     let w := bv !!! (i - 1)%nat /! st.1 !!! (i - 1)%nat in
     st.1 !!! i = dv !!! i -! w *! cv !!! (i - 1)%nat /\
     st.2 !!! i = yv !!! i -! w *! st.2 !!! (i - 1)%nat).
Proof.
  induction m as [|m IH]; intros st Hd Hy.
  - split; [done|]. intros i Hi. lia.
  - destruct IH as [IH1 IH2]; [lia|lia|].
    subst st. rewrite seq_S, foldl_app. simpl.
    set (st := foldl (spec_forward_step bv cv) (dv, yv) (seq 1 m)) in *.
    destruct (forward_sweep_length bv cv (seq 1 m) dv yv) as [Hl1 Hl2].
    fold st in Hl1, Hl2.
    unfold spec_forward_step. simpl. split.
    + intros i Hi.
      rewrite !list_lookup_total_insert_ne by lia. apply IH1. lia.
    + intros i Hi. destruct (decide (i = S m)) as [->|Hne].
      * rewrite !list_lookup_total_insert_eq by lia.
        rewrite !list_lookup_total_insert_ne by lia.
        destruct (IH1 (S m)) as [-> ->]; [lia|]. done.
      * rewrite !list_lookup_total_insert_ne by lia. apply IH2. lia.
Qed.

Lemma forward_sweep_rec bv dv cv yv :
  length yv = length dv ->
  let st := spec_forward_sweep bv dv cv yv (length dv) in
  length st.1 = length dv /\ length st.2 = length dv /\
  st.1 !!! 0%nat = dv !!! 0%nat /\ st.2 !!! 0%nat = yv !!! 0%nat /\
  (forall i, (1 <= i < length dv)%nat ->
     let w := bv !!! (i - 1)%nat /! st.1 !!! (i - 1)%nat in
     st.1 !!! i = dv !!! i -! w *! cv !!! (i - 1)%nat /\
     st.2 !!! i = yv !!! i -! w *! st.2 !!! (i - 1)%nat).
Proof.
  intros Hlen st. unfold spec_forward_sweep in st.
  destruct (forward_sweep_length bv cv (seq 1 (length dv - 1)) dv yv)
    as [Hl1 Hl2]. fold st in Hl1, Hl2.
  split; [done|]. split; [congruence|].
  destruct (decide (length dv = 0%nat)) as [Hz|Hnz].
  { subst st. rewrite Hz. simpl. repeat split; try done; lia. }
  destruct (forward_sweep_inv bv cv dv yv (length dv - 1)) as [H1 H2];
    [lia|lia|]. fold st in H1, H2.
  destruct (H1 0%nat) as [? ?]; [lia|]. repeat split; try done.
  all: apply H2; lia.
Qed.

Lemma backward_fold_length cv dv yv (ks : list nat) xv :
  length (foldl (spec_backward_step cv dv yv) xv ks) = length xv.
Proof.
  revert xv. induction ks as [|k ks IH]; intros xv; [done|].
  simpl. rewrite IH. unfold spec_backward_step. by rewrite length_insert.
Qed.

(** After the backward steps [j+m-1 .. j]: the entries from [j+m] on are
    untouched, the entries [j .. j+m-1] satisfy the recurrence. *)
Lemma backward_sweep_inv cv dv yv xv (m j : nat) :
  let x := foldl (spec_backward_step cv dv yv) xv (reverse (seq j m)) in
  (j + m <= length xv)%nat ->
  (forall i, (j + m <= i)%nat -> x !!! i = xv !!! i) /\
  (forall i, (j <= i < j + m)%nat ->
     x !!! i = (yv !!! i -! cv !!! i *! x !!! (i + 1)%nat) /! dv !!! i).
Proof.
  revert j. induction m as [|m IH]; intros j x Hlen.
  - split; [done|]. intros i Hi. lia.
  - subst x. simpl. rewrite reverse_cons, foldl_app. simpl.
    destruct (IH (S j)) as [IH1 IH2]; [lia|].
    set (x := foldl (spec_backward_step cv dv yv) xv (reverse (seq (S j) m))) in *.
    pose proof (backward_fold_length cv dv yv (reverse (seq (S j) m)) xv) as Hl.
    fold x in Hl.
    unfold spec_backward_step. split.
    + intros i Hi. rewrite list_lookup_total_insert_ne by lia. apply IH1. lia.
    + intros i Hi. destruct (decide (i = j)) as [->|Hne].
      * rewrite list_lookup_total_insert_eq by lia.
        by rewrite list_lookup_total_insert_ne by lia.
      * rewrite !list_lookup_total_insert_ne by lia. apply IH2. lia.
Qed.

Lemma backward_sweep_rec cv dv yv (n : nat) :
  (1 <= n)%nat ->
  let x := spec_backward_sweep cv dv yv n in
  length x = n /\
  x !!! (n - 1)%nat = yv !!! (n - 1)%nat /! dv !!! (n - 1)%nat /\
  (forall i, (i + 1 < n)%nat ->
     x !!! i = (yv !!! i -! cv !!! i *! x !!! (i + 1)%nat) /! dv !!! i).
Proof.
  intros Hn x. unfold spec_backward_sweep in x.
  set (x0 := <[(n - 1)%nat := _]> (replicate n fzero)) in *.
  assert (length x0 = n) as Hl0
    by (unfold x0; by rewrite length_insert, length_replicate).
  destruct (backward_sweep_inv cv dv yv x0 (n - 1) 0) as [H1 H2]; [lia|].
  fold x in H1, H2. split.
  { subst x. by rewrite backward_fold_length. }
  split.
  - rewrite H1 by lia. unfold x0.
    by rewrite list_lookup_total_insert_eq by (rewrite length_replicate; lia).
  - intros i Hi. apply H2. lia.
Qed.

Lemma spec_thomas_length bv dv cv yv :
  length yv = length dv -> (1 <= length dv)%nat ->
  length (spec_thomas bv dv cv yv) = length dv.
Proof.
  intros Hlen Hn. unfold spec_thomas.
  by destruct (backward_sweep_rec cv
    (spec_forward_sweep bv dv cv yv (length dv)).1
    (spec_forward_sweep bv dv cv yv (length dv)).2 (length dv) Hn) as [? _].
Qed.

End Recurrences.

(** ** In exact arithmetic the sweeps solve the system *)

Section Exact.
Implicit Types (bv cv dv yv : list R).

Lemma thomas_solves bv dv cv yv :
  length yv = length dv -> (1 <= length dv)%nat ->
  Forall (fun p => p <> 0%R) (pivots bv dv cv yv) ->
  solves_tridiagonal bv dv cv yv (spec_thomas bv dv cv yv).
Proof.
  intros Hlen Hn Hpiv. split; [by apply spec_thomas_length|].
  unfold pivots in Hpiv. unfold spec_thomas.
  destruct (forward_sweep_rec bv dv cv yv Hlen)
    as (Hl1 & Hl2 & Hd0 & Hy0 & Hrec).
  set (st := spec_forward_sweep bv dv cv yv (length dv)) in *.
  destruct (backward_sweep_rec cv st.1 st.2 (length dv) Hn)
    as (Hlx & Hlast & Hback).
  set (x := spec_backward_sweep cv st.1 st.2 (length dv)) in *.
  assert (forall i, (i < length dv)%nat -> st.1 !!! i <> 0%R) as Hnz.
  { intros i Hi. eapply Forall_lookup_total_1; [exact Hpiv|]. lia. }
  intros i Hi. unfold tridiag_row. simpl.
  (* the entry [x !!! i] in terms of the swept system *)
  assert (x !!! i * st.1 !!! i =
          st.2 !!! i - (if decide (S i < length dv)%nat
                        then cv !!! i * x !!! (i + 1)%nat else 0))%R as Hxi.
  { destruct (decide (S i < length dv)%nat) as [Hlt|Hge].
    - rewrite (Hback i) by lia. simpl. field. by apply Hnz.
    - replace i with (length dv - 1)%nat by lia. rewrite Hlast. simpl.
      field. apply Hnz. lia. }
  destruct (decide (i = 0%nat)) as [->|Hi0].
  - rewrite Hd0, Hy0 in Hxi.
    destruct (decide (1 < length dv)%nat); lra.
  - destruct (Hrec i) as [Hdi Hyi]; [lia|]. simpl in Hdi, Hyi.
    pose proof (Hback (i - 1)%nat) as Hprev.
    replace (i - 1 + 1)%nat with i in Hprev by lia.
    specialize (Hprev ltac:(lia)). simpl in Hprev.
    pose proof (Hnz (i - 1)%nat ltac:(lia)) as Hnz1.
    pose proof (Hnz i Hi) as Hnzi.
    set (W := (bv !!! (i - 1)%nat / st.1 !!! (i - 1)%nat)%R) in *.
    assert (bv !!! (i - 1)%nat = W * st.1 !!! (i - 1)%nat)%R as HB.
    { unfold W. field. done. }
    assert (x !!! (i - 1)%nat * st.1 !!! (i - 1)%nat
            = st.2 !!! (i - 1)%nat - cv !!! (i - 1)%nat * x !!! i)%R as HX1.
    { rewrite Hprev. field. done. }
    rewrite HB.
    replace (dv !!! i) with (st.1 !!! i + W * cv !!! (i - 1)%nat)%R
      by (rewrite Hdi; ring).
    replace (yv !!! i) with (st.2 !!! i + W * st.2 !!! (i - 1)%nat)%R
      by (rewrite Hyi; ring).
    destruct (decide (S i < length dv)%nat); nra.
Qed.

End Exact.

(** ** Binary64: infinities and NaN propagate through the sweeps *)

Section Binary64.

Lemma eqb_zero_spec (x : float) :
  (x =? 0)%float = true -> exists s, Prim2SF x = S754_zero s.
Proof.
  rewrite FloatAxioms.eqb_spec. change (Prim2SF 0%float) with (S754_zero false).
  destruct (Prim2SF x) as [s| [] | |[] m e]; try done. by exists s.
Qed.

Lemma sub_nonfinite_l (x y : float) :
  nonfinite x = true -> nonfinite (x - y)%float = true.
Proof.
  unfold nonfinite. rewrite sub_spec.
  destruct (Prim2SF x) as [| [] | |], (Prim2SF y) as [| [] | |]; done.
Qed.

Lemma sub_nonfinite_r (x y : float) :
  nonfinite y = true -> nonfinite (x - y)%float = true.
Proof.
  unfold nonfinite. rewrite sub_spec.
  destruct (Prim2SF x) as [| [] | |], (Prim2SF y) as [| [] | |]; done.
Qed.

Lemma mul_nonfinite_l (x y : float) :
  nonfinite x = true -> nonfinite (x * y)%float = true.
Proof.
  unfold nonfinite. rewrite mul_spec.
  destruct (Prim2SF x) as [| [] | |], (Prim2SF y) as [| [] | |]; done.
Qed.

Lemma mul_nonfinite_r (x y : float) :
  nonfinite y = true -> nonfinite (x * y)%float = true.
Proof.
  unfold nonfinite. rewrite mul_spec.
  destruct (Prim2SF x) as [| [] | |], (Prim2SF y) as [| [] | |]; done.
Qed.

Lemma div_nonfinite_l (x y : float) :
  nonfinite x = true -> nonfinite (x / y)%float = true.
Proof.
  unfold nonfinite. rewrite div_spec.
  destruct (Prim2SF x) as [| [] | |], (Prim2SF y) as [| [] | |]; done.
Qed.

Lemma div_zero_nonfinite (x y : float) :
  (y =? 0)%float = true -> nonfinite (x / y)%float = true.
Proof.
  intros [s Hy]%eqb_zero_spec. unfold nonfinite. rewrite div_spec, Hy.
  by destruct (Prim2SF x) as [| [] | |].
Qed.

End Binary64.

Section ZeroPivot.
Implicit Types (bv cv dv yv : list float).

(** With a zero pivot every entry of the result is an infinity or a
    NaN. *)
Lemma thomas_zero_pivot_nonfinite bv dv cv yv (p : nat) :
  length yv = length dv -> (p < length dv)%nat ->
  (pivots bv dv cv yv !!! p =.? fzero) = true ->
  Forall (fun v => nonfinite v = true) (spec_thomas bv dv cv yv).
Proof.
  intros Hlen Hp Hzero. unfold pivots in Hzero. unfold spec_thomas.
  assert (1 <= length dv)%nat as Hn by lia.
  destruct (forward_sweep_rec bv dv cv yv Hlen)
    as (Hl1 & Hl2 & _ & _ & Hrec).
  set (st := spec_forward_sweep bv dv cv yv (length dv)) in *.
  destruct (backward_sweep_rec cv st.1 st.2 (length dv) Hn)
    as (Hlx & Hlast & Hback).
  set (x := spec_backward_sweep cv st.1 st.2 (length dv)) in *.
  (* the right-hand side after the zero pivot *)
  assert (forall k, (p + 1 + k < length dv)%nat ->
            nonfinite (st.2 !!! (p + 1 + k)%nat) = true) as Hy.
  { induction k as [|k IH]; intros Hk.
    - destruct (Hrec (p + 1 + 0)%nat) as [_ ->]; [lia|].
      replace (p + 1 + 0 - 1)%nat with p by lia.
      apply sub_nonfinite_r, mul_nonfinite_l, div_zero_nonfinite, Hzero.
    - destruct (Hrec (p + 1 + S k)%nat) as [_ ->]; [lia|].
      replace (p + 1 + S k - 1)%nat with (p + 1 + k)%nat by lia.
      apply sub_nonfinite_r, mul_nonfinite_r, IH. lia. }
  (* the last entry of the result *)
  assert (nonfinite (x !!! (length dv - 1)%nat) = true) as Hxl.
  { rewrite Hlast. destruct (decide (p = length dv - 1)%nat) as [->|Hne].
    - apply div_zero_nonfinite, Hzero.
    - apply div_nonfinite_l.
      replace (length dv - 1)%nat with (p + 1 + (length dv - 2 - p))%nat by lia.
      apply Hy. lia. }
  (* and the entries before it *)
  assert (forall k, (k < length dv)%nat ->
            nonfinite (x !!! (length dv - 1 - k)%nat) = true) as Hx.
  { induction k as [|k IH]; intros Hk.
    - by rewrite Nat.sub_0_r.
    - rewrite Hback by lia.
      replace (length dv - 1 - S k + 1)%nat with (length dv - 1 - k)%nat by lia.
      apply div_nonfinite_l, sub_nonfinite_r, mul_nonfinite_r, IH. lia. }
  apply (@Forall_lookup_total_2 float _ arith_inhabited). intros i Hi. rewrite Hlx in Hi.
  replace i with (length dv - 1 - (length dv - 1 - i))%nat by lia.
  apply Hx. lia.
Qed.

End ZeroPivot.

(** ** The coefficient arrays of the engine *)

Section Coefficients.
Context {F : Type} `{Arith F}.
Implicit Types (Sv A B C : list F).

Lemma range_up_length (a b : Z) : length (range_up a b) = Z.to_nat (b - a).
Proof. unfold range_up. by rewrite length_map, length_seq. Qed.

Lemma range_up_lookup (a b : Z) (k : nat) :
  Z.of_nat k < b - a -> range_up a b !! k = Some (a + Z.of_nat k).
Proof.
  intros Hk. unfold range_up. rewrite list_lookup_fmap.
  by rewrite lookup_seq_lt by lia.
Qed.

Lemma np_linspace_length (start stop : F) (num : nat) :
  length (np_linspace start stop num) = num.
Proof.
  unfold np_linspace.
  repeat (case_match; rewrite ?length_insert, ?length_map, ?length_seq); done.
Qed.

Lemma interior_nodes_length Sv (M : Z) :
  length (interior_nodes Sv M) = Z.to_nat (M - 1).
Proof. unfold interior_nodes. by rewrite length_map, range_up_length. Qed.

Lemma interior_nodes_lookup Sv (M : Z) (k : nat) :
  Z.of_nat k < M - 1 ->
  interior_nodes Sv M !! k = Some (Sv !!! S k).
Proof.
  intros Hk. unfold interior_nodes. rewrite list_lookup_fmap.
  rewrite range_up_lookup by done. simpl. do 2 f_equal. lia.
Qed.

Lemma py_tail_length A : length (py_tail A) = (length A - 1)%nat.
Proof. unfold py_tail. by rewrite length_drop. Qed.

Lemma py_init_length A : length (py_init A) = (length A - 1)%nat.
Proof. unfold py_init. rewrite length_take. lia. Qed.

Lemma py_tail_lookup A (k : nat) : py_tail A !! k = A !! S k.
Proof. unfold py_tail. by rewrite lookup_drop. Qed.

Lemma py_init_lookup A (k : nat) :
  (S k < length A)%nat -> py_init A !! k = A !! k.
Proof. intros Hk. unfold py_init. by rewrite lookup_take_lt by lia. Qed.

Lemma coef_alpha_length sigma Sv : length (coef_alpha sigma Sv) = length Sv.
Proof. unfold coef_alpha. by rewrite length_map. Qed.
Lemma coef_beta_length r Sv : length (coef_beta r Sv) = length Sv.
Proof. unfold coef_beta. by rewrite length_map. Qed.
Lemma coef_A_length dS sigma r Sv :
  length (coef_A dS (coef_alpha sigma Sv) (coef_beta r Sv)) = length Sv.
Proof.
  unfold coef_A. rewrite length_zip_with, coef_alpha_length, coef_beta_length. lia.
Qed.
Lemma coef_B_length r dS sigma Sv :
  length (coef_B r dS (coef_alpha sigma Sv)) = length Sv.
Proof. unfold coef_B. by rewrite length_map, coef_alpha_length. Qed.
Lemma coef_C_length dS sigma r Sv :
  length (coef_C dS (coef_alpha sigma Sv) (coef_beta r Sv)) = length Sv.
Proof.
  unfold coef_C. rewrite length_zip_with, coef_alpha_length, coef_beta_length. lia.
Qed.

Lemma lower_L_length dt A : length (lower_L dt A) = (length A - 1)%nat.
Proof. unfold lower_L. by rewrite length_map, py_tail_length. Qed.
Lemma diag_L_length dt B : length (diag_L dt B) = length B.
Proof. unfold diag_L. by rewrite length_map. Qed.
Lemma upper_L_length dt C : length (upper_L dt C) = (length C - 1)%nat.
Proof. unfold upper_L. by rewrite length_map, py_init_length. Qed.
Lemma lower_R_length dt A : length (lower_R dt A) = (length A - 1)%nat.
Proof. unfold lower_R. by rewrite length_map, py_tail_length. Qed.
Lemma diag_R_length dt B : length (diag_R dt B) = length B.
Proof. unfold diag_R. by rewrite length_map. Qed.
Lemma upper_R_length dt C : length (upper_R dt C) = (length C - 1)%nat.
Proof. unfold upper_R. by rewrite length_map, py_init_length. Qed.

Lemma coef_A_lookup dS sigma r Sv (k : nat) s :
  Sv !! k = Some s ->
  coef_A dS (coef_alpha sigma Sv) (coef_beta r Sv) !! k = Some (A_at sigma r dS s).
Proof.
  intros Hs. unfold coef_A, coef_alpha, coef_beta.
  by rewrite lookup_zip_with, !list_lookup_fmap, Hs.
Qed.

Lemma coef_B_lookup dS sigma r Sv (k : nat) s :
  Sv !! k = Some s ->
  coef_B r dS (coef_alpha sigma Sv) !! k = Some (B_at sigma r dS s).
Proof.
  intros Hs. unfold coef_B, coef_alpha. by rewrite !list_lookup_fmap, Hs.
Qed.

Lemma coef_C_lookup dS sigma r Sv (k : nat) s :
  Sv !! k = Some s ->
  coef_C dS (coef_alpha sigma Sv) (coef_beta r Sv) !! k = Some (C_at sigma r dS s).
Proof.
  intros Hs. unfold coef_C, coef_alpha, coef_beta.
  by rewrite lookup_zip_with, !list_lookup_fmap, Hs.
Qed.

End Coefficients.

(** ** One pass of the time loop *)

Section TimeStep.
Context {F : Type} `{Arith F}.
Variable math_exp : F -> result F.
Implicit Types (h : gmap loc (list F)) (V A B C : list F).

Lemma py_slice_length V (lo hi : nat) :
  (hi <= length V)%nat -> length (py_slice V lo hi) = (hi - lo)%nat.
Proof. intros Hh. unfold py_slice. rewrite length_take, length_drop. lia. Qed.

Lemma assemble_rhs_length dt A B C (M : nat) V (a b c d : F) :
  (2 <= M)%nat -> length V = (M + 1)%nat ->
  length A = (M - 1)%nat -> length B = (M - 1)%nat ->
  length C = (M - 1)%nat ->
  length (assemble_rhs dt A B C M V a b c d) = (M - 1)%nat.
Proof.
  intros HM HV HA HB HC. unfold assemble_rhs.
  rewrite !length_insert, length_app, length_drop, !length_app.
  rewrite !length_zip_with, !py_init_length, !py_tail_length, !length_app.
  rewrite !length_zip_with, !length_take, !length_zip_with.
  rewrite !py_init_length, !py_tail_length, !length_zip_with.
  rewrite upper_R_length, lower_R_length, diag_R_length.
  rewrite py_slice_length by lia. lia.
Qed.

(** [V[0] = a; V[1:M] = x; V[M] = b] on a vector of [M+1] entries. *)
Lemma overwrite_value_vector V (M : nat) (x : list F) (a b : F) :
  (1 <= M)%nat -> length V = (M + 1)%nat -> length x = (M - 1)%nat ->
  exists W, set_slice (<[0%nat := a]> V) 1 M x = Ok W /\
            <[M := b]> W = a :: x ++ [b].
Proof.
  intros HM HV Hx. destruct V as [|v0 V']; [simpl in HV; lia|].
  simpl in HV. unfold set_slice.
  rewrite py_slice_length by (simpl; lia).
  replace (length x =? M - 1)%nat with true by (symmetry; apply Nat.eqb_eq; lia).
  eexists. split; [done|]. simpl.
  destruct (drop (M - 1) V') as [|z [|z' t]] eqn:Hdrop.
  - apply (f_equal length) in Hdrop. rewrite length_drop in Hdrop.
    simpl in Hdrop. lia.
  - destruct M as [|M']; [lia|]. simpl. f_equal.
    replace M' with (length x + 0)%nat by lia. by rewrite insert_app_r.
  - apply (f_equal length) in Hdrop. rewrite length_drop in Hdrop.
    simpl in Hdrop. lia.
Qed.

(** A pass returns the value vector [step_value] describes, and leaves
    the arrays of the store it started from in place. *)
Lemma time_step_run h (option_type : string) (Smax K r dt : F)
    A B C (M : nat) (lL dL uL : loc) (n : Z) V V' :
  (3 <= M)%nat -> length V = (M + 1)%nat ->
  length A = (M - 1)%nat -> length B = (M - 1)%nat ->
  length C = (M - 1)%nat ->
  h !! lL = Some (lower_L dt A) -> h !! dL = Some (diag_L dt B) ->
  h !! uL = Some (upper_L dt C) ->
  step_value math_exp option_type Smax K r dt A B C M n V = Ok V' ->
  exists h',
    time_step math_exp option_type Smax K r dt A B C M lL dL uL n V h
    = (Ok V', h') /\ h ⊆ h'.
Proof.
  intros HM HV HA HB HC HlL HdL HuL Hstep.
  unfold step_value in Hstep. unfold time_step.
  destruct (boundary math_exp option_type Smax K r (of_int n *! dt))
    as [bn|e]; [|done].
  destruct (boundary math_exp option_type Smax K r (of_int (n + 1) *! dt))
    as [bnp1|e]; [|done].
  injection Hstep as <-. unfold lift at 1 2. unfold bind at 1 2.
  set (V1 := <[M := bn.2]> (<[0%nat := bn.1]> V)) in *.
  set (rhs := assemble_rhs dt A B C M V1 bn.1 bn.2 bnp1.1 bnp1.2) in *.
  assert (length V1 = (M + 1)%nat) as HV1
    by (unfold V1; by rewrite !length_insert).
  assert (length rhs = (M - 1)%nat) as Hrhs
    by (unfold rhs; apply assemble_rhs_length; [lia|done..]).
  unfold alloc at 1.
  set (rh := fresh (dom h)). set (h1 := <[rh := rhs]> h).
  assert (h !! rh = None) as Hrh by by apply alloc_fresh.
  rewrite (bind_ok _ _ h rh h1) by done.
  assert (h ⊆ h1) as Hsub1 by by apply insert_subseteq.
  destruct (thomas_run h1 lL dL uL rh (lower_L dt A) (diag_L dt B)
              (upper_L dt C) rhs) as (x & h2 & Hrun & Hx).
  { by eapply lookup_weaken. }
  { by eapply lookup_weaken. }
  { by eapply lookup_weaken. }
  { apply lookup_insert_eq. }
  { by rewrite diag_L_length, HB. }
  { rewrite diag_L_length. lia. }
  { rewrite diag_L_length, lower_L_length. lia. }
  { rewrite diag_L_length, upper_L_length. lia. }
  rewrite (bind_ok _ _ _ _ _ Hrun).
  rewrite (bind_ok _ _ _ _ _ (load_ok _ _ _ Hx)).
  set (xs := spec_thomas _ _ _ rhs) in *.
  assert (length xs = (M - 1)%nat) as Hxs.
  { unfold xs. rewrite spec_thomas_length; rewrite diag_L_length; lia. }
  destruct (overwrite_value_vector V1 M xs bnp1.1 bnp1.2)
    as (W & HW & HW'); [lia|done|done|].
  unfold lift, bind. rewrite HW. unfold ret. rewrite HW'.
  exists h2. split; [done|].
  etrans; [exact Hsub1|].
  pose proof (thomas_frame h1 lL dL uL rh) as [Hfr _].
  by rewrite Hrun in Hfr.
Qed.

End TimeStep.

(** ** The time loop *)

Section TimeLoop.
Context {F : Type} `{Arith F}.
Variable math_exp : F -> result F.
Implicit Types (h : gmap loc (list F)) (V A B C : list F).

Lemma step_value_length option_type (Smax K r dt : F) A B C (M : nat)
    (n : Z) V V' :
  (1 <= M)%nat -> length B = (M - 1)%nat ->
  step_value math_exp option_type Smax K r dt A B C M n V = Ok V' ->
  length V' = (M + 1)%nat.
Proof.
  intros HM HB. unfold step_value.
  destruct (boundary _ _ _ _ _ (of_int n *! dt)); [|done].
  destruct (boundary _ _ _ _ _ (of_int (n + 1) *! dt)); [|done].
  intros [= <-]. simpl. rewrite length_app. simpl.
  unfold spec_thomas. rewrite diag_L_length.
  destruct (decide (M = 1%nat)) as [->|HM1].
  - rewrite HB. done.
  - destruct (backward_sweep_rec (upper_L dt C)
      (spec_forward_sweep (lower_L dt A) (diag_L dt B) (upper_L dt C)
         (assemble_rhs dt A B C M (<[M:=a.2]> (<[0%nat:=a.1]> V))
            a.1 a.2 a0.1 a0.2) (length B)).1
      (spec_forward_sweep (lower_L dt A) (diag_L dt B) (upper_L dt C)
         (assemble_rhs dt A B C M (<[M:=a.2]> (<[0%nat:=a.1]> V))
            a.1 a.2 a0.1 a0.2) (length B)).2 (length B)) as [-> _]; lia.
Qed.

Lemma steps_values_length (step : Z -> list F -> result (list F))
    (ns : list Z) V rows :
  steps_values step ns V = Ok rows -> length rows = length ns.
Proof.
  revert V rows. induction ns as [|n ns IH]; intros V rows; simpl.
  - by intros [= <-].
  - destruct (step n V) as [V'|]; [|done].
    destruct (steps_values step ns V') as [rows'|] eqn:Hrows; [|done].
    intros [= <-]. simpl. f_equal. by eapply IH.
Qed.

(** Row [i] is the step [ns !! i] applied to the row before it. *)
Lemma steps_values_lookup (step : Z -> list F -> result (list F))
    (ns : list Z) V rows (i : nat) (n : Z) :
  steps_values step ns V = Ok rows -> ns !! i = Some n ->
  exists prev row,
    (V :: rows) !! i = Some prev /\ rows !! i = Some row /\
    step n prev = Ok row.
Proof.
  revert V rows i. induction ns as [|n0 ns IH]; intros V rows i; simpl; [done|].
  destruct (step n0 V) as [V'|] eqn:Hstep; [|done].
  destruct (steps_values step ns V') as [rows'|] eqn:Hrows; [|done].
  intros [= <-] Hi. destruct i as [|i]; simpl in *.
  - injection Hi as <-. by exists V, V'.
  - by apply (IH V' rows' i).
Qed.

Lemma steps_values_total (step : Z -> list F -> result (list F))
    (ns : list Z) V :
  (forall n V0, n ∈ ns -> exists V', step n V0 = Ok V') ->
  exists rows, steps_values step ns V = Ok rows.
Proof.
  revert V. induction ns as [|n ns IH]; intros V Hstep; simpl.
  - by eexists.
  - destruct (Hstep n V) as [V' ->]; [by left|].
    destruct (IH V') as [rows ->]; [|by eexists].
    intros n' V0 Hn'. apply Hstep. by right.
Qed.

(** The loop returns the rows of [steps_values] and leaves the arrays
    of the store it started from in place. *)
Lemma time_loop_run option_type (Smax K r dt : F) A B C (M : nat)
    (lL dL uL : loc) (ns : list Z) :
  (3 <= M)%nat ->
  length A = (M - 1)%nat -> length B = (M - 1)%nat ->
  length C = (M - 1)%nat ->
  forall h V (surface : option (list (list F))) rows,
    length V = (M + 1)%nat ->
    h !! lL = Some (lower_L dt A) -> h !! dL = Some (diag_L dt B) ->
    h !! uL = Some (upper_L dt C) ->
    steps_values (step_value math_exp option_type Smax K r dt A B C M)
      ns V = Ok rows ->
    exists h',
      for_fold ns
        (time_loop_body math_exp option_type Smax K r dt A B C M lL dL uL)
        (V, surface) h
      = (Ok (default V (last rows),
             option_map (fun done_rows => done_rows ++ rows) surface), h') /\
      h ⊆ h'.
Proof.
  intros HM HA HB HC.
  induction ns as [|n ns IH]; intros h V surface rows HV HlL HdL HuL Hrows;
    simpl in Hrows.
  - injection Hrows as <-. exists h. split; [|done]. simpl.
    destruct surface; simpl; by rewrite ?app_nil_r.
  - destruct (step_value _ _ _ _ _ _ _ _ _ _ n V) as [V'|] eqn:Hstep; [|done].
    destruct (steps_values _ ns V') as [rows'|] eqn:Hrows'; [|done].
    injection Hrows as <-.
    destruct (time_step_run math_exp h option_type Smax K r dt A B C M
                lL dL uL n V V') as (h1 & Hrun & Hsub1); try done.
    destruct (IH h1 V' (option_map (fun done_rows => done_rows ++ [V']) surface)
                rows') as (h' & Hloop & Hsub); try done.
    { eapply step_value_length; [| |exact Hstep]; [lia|done]. }
    { by eapply lookup_weaken. }
    { by eapply lookup_weaken. }
    { by eapply lookup_weaken. }
    exists h'. split; [|by etrans].
    simpl.
    assert (time_loop_body math_exp option_type Smax K r dt A B C M
              lL dL uL n (V, surface) h
            = (Ok (V', option_map (fun done_rows => done_rows ++ [V']) surface),
               h1)) as Hbody.
    { unfold time_loop_body. simpl. by rewrite (bind_ok _ _ _ _ _ Hrun). }
    rewrite (bind_ok _ _ _ _ _ Hbody).
    rewrite Hloop. do 2 f_equal. f_equal.
    + rewrite last_cons. by destruct (last rows').
    + destruct surface; simpl; [|done]. by rewrite <- app_assoc.
Qed.

End TimeLoop.

(** ** The grid and the operators of a pricing call *)

Section Grid.
Context {F : Type} `{Arith F}.

Lemma grid_A_length sigma r Smax M :
  length (grid_A sigma r Smax M) = Z.to_nat (M - 1).
Proof. unfold grid_A, grid_nodes. by rewrite coef_A_length, interior_nodes_length. Qed.
Lemma grid_B_length sigma r Smax M :
  length (grid_B sigma r Smax M) = Z.to_nat (M - 1).
Proof. unfold grid_B, grid_nodes. by rewrite coef_B_length, interior_nodes_length. Qed.
Lemma grid_C_length sigma r Smax M :
  length (grid_C sigma r Smax M) = Z.to_nat (M - 1).
Proof. unfold grid_C, grid_nodes. by rewrite coef_C_length, interior_nodes_length. Qed.

Lemma payoff_length option_type K (Sv : list F) :
  length (payoff option_type K Sv) = length Sv.
Proof. unfold payoff. case_match; by rewrite length_map. Qed.

End Grid.

Section EngineRun.
Context {F : Type} `{Arith F}.
Variable math_exp : F -> result F.
Variable np_interp : F -> list F -> list F -> F.
Implicit Types (h : gmap loc (list F)).

Lemma alloc_run h (a : list F) :
  exists l, alloc a h = (Ok l, <[l := a]> h) /\ h !! l = None.
Proof. exists (fresh (dom h)). split; [done|]. by apply alloc_fresh. Qed.

(** A call on valid inputs whose time steps all have a value. *)
Lemma engine_run h (S0 K T r sigma : F) (option_type : string)
    (Mo No : option Z) (Smax : option F) (return_grid : bool) rows :
  let M := default DEFAULT_PRICE_STEPS Mo in
  let N := default DEFAULT_TIME_STEPS No in
  let Sx := resolve_Smax Smax S0 K in
  let dt := T /! of_int N in
  let V0 := payoff option_type K (grid_S Sx M) in
  validate_option_inputs S0 K T sigma = Ok tt ->
  option_type = "call" \/ option_type = "put" ->
  3 <= M -> 1 <= N ->
  steps_values
    (step_value math_exp option_type Sx K r dt (grid_A sigma r Sx M)
       (grid_B sigma r Sx M) (grid_C sigma r Sx M) (Z.to_nat M))
    (range_up 0 N) V0 = Ok rows ->
  exists h',
    price_european_fixed_grid math_exp np_interp S0 K T r sigma option_type
      Mo No Smax return_grid h
    = (Ok (let V := default V0 (last rows) in
           let price := np_interp S0 (grid_S Sx M) V in
           if return_grid then
             PriceInfo price
               {| info_S_grid := grid_S Sx M; info_V_tau_T := V;
                  info_dS := grid_dS Sx M; info_dt := dt;
                  info_M := M; info_N := N; info_Smax := Sx;
                  info_surface := Some (V0 :: rows) |}
           else Price price), h') /\
    h ⊆ h'.
Proof.
  intros M N Sx dt V0 Hvalid Hopt HM HN Hrows.
  unfold price_european_fixed_grid. rewrite Hvalid.
  unfold lift at 1. unfold bind at 1.
  replace (negb (String.eqb option_type "call" || String.eqb option_type "put"))
    with false by (by destruct Hopt as [-> | ->]).
  fold M N. destruct (Z.ltb_spec M 3); [lia|].
  destruct (Z.ltb_spec N 1); [lia|].
  change (false || false) with false. cbv iota.
  fold Sx. fold dt. fold (grid_dS Sx M). fold (grid_S Sx M).
  fold (grid_nodes Sx M). fold (grid_A sigma r Sx M).
  fold (grid_B sigma r Sx M). fold (grid_C sigma r Sx M). fold V0.
  set (A := grid_A sigma r Sx M) in *. set (B := grid_B sigma r Sx M) in *.
  set (C := grid_C sigma r Sx M) in *.
  destruct (alloc_run h (lower_L dt A)) as (lL & HrL & HlL).
  rewrite (bind_ok _ _ _ _ _ HrL). set (h1 := <[lL := _]> h).
  destruct (alloc_run h1 (diag_L dt B)) as (dL & HrD & HdL).
  rewrite (bind_ok _ _ _ _ _ HrD). set (h2 := <[dL := _]> h1).
  destruct (alloc_run h2 (upper_L dt C)) as (uL & HrU & HuL).
  rewrite (bind_ok _ _ _ _ _ HrU). set (h3 := <[uL := _]> h2).
  assert (h ⊆ h1) as Hs1 by by apply insert_subseteq.
  assert (h1 ⊆ h2) as Hs2 by by apply insert_subseteq.
  assert (h2 ⊆ h3) as Hs3 by by apply insert_subseteq.
  destruct (time_loop_run math_exp option_type Sx K r dt A B C (Z.to_nat M)
              lL dL uL (range_up 0 N)) with
    (h := h3) (V := V0) (rows := rows)
    (surface := if return_grid then Some [V0] else None)
    as (h' & Hloop & Hsub); try done.
  { lia. }
  { unfold A. rewrite grid_A_length. lia. }
  { unfold B. rewrite grid_B_length. lia. }
  { unfold C. rewrite grid_C_length. lia. }
  { unfold V0, grid_S. rewrite payoff_length, np_linspace_length. lia. }
  { eapply lookup_weaken; [|exact Hs3]. eapply lookup_weaken; [|exact Hs2].
    apply lookup_insert_eq. }
  { eapply lookup_weaken; [|exact Hs3]. apply lookup_insert_eq. }
  { apply lookup_insert_eq. }
  rewrite (bind_ok _ _ _ _ _ Hloop).
  exists h'. split.
  - destruct return_grid; done.
  - do 3 (etrans; [eassumption|]). done.
Qed.

End EngineRun.

(** ** What a caller observes of [_thomas_solve] *)

Section ThomasObserved.
Context {F : Type} `{Arith F}.
Implicit Types (h : gmap loc (list F)) (bv cv dv yv : list F).

Lemma observe_thomas_ok h (lower diag upper rhs : loc) bv dv cv yv :
  h !! lower = Some bv -> h !! diag = Some dv ->
  h !! upper = Some cv -> h !! rhs = Some yv ->
  length yv = length dv -> (1 <= length dv)%nat ->
  (length dv - 1 <= length bv)%nat -> (length dv - 1 <= length cv)%nat ->
  observe (_thomas_solve lower diag upper rhs) h
  = Ok (spec_thomas bv dv cv yv).
Proof.
  intros Hb Hd Hc Hy Hlen Hn Hlb Hlc.
  destruct (thomas_run h lower diag upper rhs bv dv cv yv)
    as (x & h' & Hrun & Hx); try done.
  unfold observe. by rewrite Hrun, Hx.
Qed.

Lemma thomas_mismatch h (lower diag upper rhs : loc) dv yv :
  h !! diag = Some dv -> h !! rhs = Some yv -> length yv <> length dv ->
  _thomas_solve lower diag upper rhs h
  = (Raise (ValueError "rhs length must match diag length"), h).
Proof.
  intros Hd Hy Hne. unfold _thomas_solve.
  rewrite (bind_ok _ _ _ _ _ (np_size_ok _ _ _ Hd)).
  rewrite (bind_ok _ _ _ _ _ (np_size_ok _ _ _ Hy)).
  by destruct (Nat.eqb_spec (length yv) (length dv)).
Qed.

Lemma observe_value_error h (lower diag upper rhs : loc) dv yv :
  h !! diag = Some dv -> h !! rhs = Some yv ->
  (exists msg, observe (_thomas_solve lower diag upper rhs) h
               = Raise (ValueError msg))
  <-> length yv <> length dv.
Proof.
  intros Hd Hy. split.
  - intros [msg Hobs]. unfold observe in Hobs.
    destruct (thomas_frame h lower diag upper rhs) as [_ Hval].
    destruct (_thomas_solve lower diag upper rhs h) as [[x|e] h'] eqn:Hrun.
    + by destruct (h' !! x).
    + injection Hobs as ->.
      destruct (Hval msg eq_refl) as (dv' & yv' & Hd' & Hy' & Hne).
      congruence.
  - intros Hne. eexists. unfold observe.
    by rewrite (thomas_mismatch h lower diag upper rhs dv yv).
Qed.

(** On empty arrays the first read, [y[-1]], is out of range. *)
Lemma thomas_empty h (lower diag upper rhs : loc) bv cv :
  h !! lower = Some bv -> h !! diag = Some [] ->
  h !! upper = Some cv -> h !! rhs = Some [] ->
  observe (_thomas_solve lower diag upper rhs) h
  = Raise (IndexError "index out of bounds").
Proof.
  intros Hb Hd Hc Hy. unfold observe, _thomas_solve.
  rewrite (bind_ok _ _ _ _ _ (np_size_ok _ _ _ Hd)).
  rewrite (bind_ok _ _ _ _ _ (np_size_ok _ _ _ Hy)). simpl.
  destruct (private_copy_run h upper cv Hc) as (c & h1 & Hr1 & _ & _ & Hs1).
  rewrite (bind_ok _ _ _ _ _ Hr1).
  destruct (private_copy_run h1 diag [] (lookup_weaken _ _ _ _ Hd Hs1))
    as (d & h2 & Hr2 & _ & _ & Hs2).
  rewrite (bind_ok _ _ _ _ _ Hr2).
  destruct (private_copy_run h2 lower bv
              (lookup_weaken _ _ _ _ (lookup_weaken _ _ _ _ Hb Hs1) Hs2))
    as (b & h3 & Hr3 & _ & _ & Hs3).
  rewrite (bind_ok _ _ _ _ _ Hr3).
  destruct (private_copy_run h3 rhs []
              (lookup_weaken _ _ _ _ (lookup_weaken _ _ _ _
                 (lookup_weaken _ _ _ _ Hy Hs1) Hs2) Hs3))
    as (y & h4 & Hr4 & Hy3 & Hy4 & Hs4).
  rewrite (bind_ok _ _ _ _ _ Hr4).
  change (range_up 1 (Z.of_nat 0)) with (@nil Z). simpl for_each.
  unfold ret at 1. unfold bind at 1.
  unfold np_empty, alloc. unfold bind at 1.
  set (x := fresh (dom h4)).
  assert (h4 !! x = None) as Hx by by apply alloc_fresh.
  assert (<[x := replicate 0 fzero]> h4 !! y = Some []) as Hy5.
  { rewrite lookup_insert_ne; [done|]. intros ->. congruence. }
  unfold getitem at 1. unfold bind at 1 2.
  by rewrite (load_ok _ _ _ Hy5).
Qed.

(** The sweeps read the first [n-1] entries of the sub- and the
    super-diagonal only. *)
Lemma spec_thomas_take bv dv cv yv :
  spec_thomas (take (length dv - 1) bv) dv (take (length dv - 1) cv) yv
  = spec_thomas bv dv cv yv.
Proof.
  unfold spec_thomas. set (n := length dv).
  assert (spec_forward_sweep (take (n - 1) bv) dv (take (n - 1) cv) yv n
          = spec_forward_sweep bv dv cv yv n) as ->.
  { unfold spec_forward_sweep.
    assert (Forall (fun k => 1 <= k < n)%nat (seq 1 (n - 1))) as Hks.
    { apply Forall_forall. intros k Hk%elem_of_seq. lia. }
    generalize (dv, yv). induction Hks as [|k ks Hk _ IH]; intros st; [done|].
    simpl. rewrite <- IH. f_equal. unfold spec_forward_step.
    by rewrite !lookup_total_take_lt by lia. }
  set (st := spec_forward_sweep bv dv cv yv n).
  unfold spec_backward_sweep.
  assert (Forall (fun k => k < n - 1)%nat (reverse (seq 0 (n - 1)))) as Hks.
  { apply Forall_forall. intros k Hk%elem_of_reverse%elem_of_seq. lia. }
  generalize (<[(n - 1)%nat := st.2 !!! (n - 1)%nat /! st.1 !!! (n - 1)%nat]>
                (replicate n fzero)).
  induction Hks as [|k ks Hk _ IH]; intros x; [done|].
  simpl. rewrite <- IH. f_equal. unfold spec_backward_step.
  by rewrite lookup_total_take_lt by lia.
Qed.

End ThomasObserved.

(** * The claims about the tridiagonal solver *)

(** C2.  On arrays of well-formed lengths (right-hand side as long as the
    main diagonal, [n >= 1], at least [n-1] sub- and super-diagonal
    entries) [_thomas_solve] returns the result of the forward sweep
    followed by the backward sweep, in every arithmetic; and in binary64,
    for diagonal {2,2,2}, sub/super {-1,-1}, rhs {1,0,1}, it returns three
    values within 2^-40 of {1,1,1}. *)
Theorem thomas_solve_performs_sweeps :
  (forall (F : Type) (HA : Arith F) (h : gmap loc (list F))
          (lower diag upper rhs : loc) (bv dv cv yv : list F),
     h !! lower = Some bv -> h !! diag = Some dv ->
     h !! upper = Some cv -> h !! rhs = Some yv ->
     length yv = length dv -> (1 <= length dv)%nat ->
     (length dv - 1 <= length bv)%nat -> (length dv - 1 <= length cv)%nat ->
     observe (_thomas_solve lower diag upper rhs) h
     = Ok (spec_backward_sweep cv
             (spec_forward_sweep bv dv cv yv (length dv)).1
             (spec_forward_sweep bv dv cv yv (length dv)).2 (length dv))) /\
  (exists x,
     thomas_call [(-1)%float; (-1)%float] [2%float; 2%float; 2%float]
                 [(-1)%float; (-1)%float] [1%float; 0%float; 1%float] = Ok x /\
     length x = 3%nat /\ forallb near_one x = true).
Proof.
  split.
  - intros F HA h lower diag upper rhs bv dv cv yv Hb Hd Hc Hy Hlen Hn Hlb Hlc.
    by rewrite (observe_thomas_ok h lower diag upper rhs bv dv cv yv).
  - eexists. split; [vm_compute; reflexivity|]. by vm_compute.
Qed.

Lemma thomas_solve_performs_sweeps_witness :
  observe (_thomas_solve 1%positive 2%positive 3%positive 4%positive)
    (store4 [(-1)%float; (-1)%float] [2%float; 2%float; 2%float]
            [(-1)%float; (-1)%float] [1%float; 0%float; 1%float])
  = Ok (spec_backward_sweep [(-1)%float; (-1)%float]
          (spec_forward_sweep [(-1)%float; (-1)%float]
             [2%float; 2%float; 2%float] [(-1)%float; (-1)%float]
             [1%float; 0%float; 1%float] 3).1
          (spec_forward_sweep [(-1)%float; (-1)%float]
             [2%float; 2%float; 2%float] [(-1)%float; (-1)%float]
             [1%float; 0%float; 1%float] 3).2 3).
Proof.
  apply (proj1 thomas_solve_performs_sweeps float float_arith
           (store4 [(-1)%float; (-1)%float] [2%float; 2%float; 2%float]
                   [(-1)%float; (-1)%float] [1%float; 0%float; 1%float])
           1%positive 2%positive 3%positive 4%positive
           [(-1)%float; (-1)%float] [2%float; 2%float; 2%float]
           [(-1)%float; (-1)%float] [1%float; 0%float; 1%float]);
    first [reflexivity | simpl; lia].
Defined.

(** C6, as the claim states it, fails in binary64: on the system with
    main diagonal {2,2,2}, sub- and super-diagonal {-1,-1} and
    right-hand side {1,0,1}, whose pivots {2, 1.5, 1.3333333333333335}
    are not zero, [_thomas_solve] returns {1, 1, 0.9999999999999999}
    (the last entry is [1 - 2^-53]), and the last row gives
    [-1 * 1 + 2 * 0.9999999999999999 = 0.9999999999999998], not 1: the
    returned vector satisfies the system up to rounding only. *)
Lemma thomas_solution_is_rounded :
  ~ (forall bv dv cv yv : list float,
       length yv = length dv -> (1 <= length dv)%nat ->
       length bv = (length dv - 1)%nat -> length cv = (length dv - 1)%nat ->
       Forall (fun p => (p =.? fzero) = false) (pivots bv dv cv yv) ->
       exists x, thomas_call bv dv cv yv = Ok x /\
                 solves_tridiagonal bv dv cv yv x).
Proof.
  intros Hclaim.
  destruct (Hclaim [(-1)%float; (-1)%float] [2%float; 2%float; 2%float]
              [(-1)%float; (-1)%float] [1%float; 0%float; 1%float])
    as (x & Hx & _ & Hrows); try first [reflexivity | simpl; lia].
  - vm_compute. repeat constructor.
  - vm_compute in Hx. injection Hx as <-.
    specialize (Hrows 2%nat ltac:(simpl; lia)).
    apply (f_equal (fun v => (v =.? fone))) in Hrows.
    vm_compute in Hrows. discriminate Hrows.
Qed.

(** C6, amended.  [_thomas_solve] raises its size-mismatch [ValueError]
    exactly when the right-hand side and the main diagonal differ in
    length; on well-formed arrays of equal length it returns a vector of
    length [n]; in exact arithmetic, with non-zero pivots, that vector
    solves the tridiagonal system; in binary64 it need not: on main
    diagonal {2,2,2}, sub- and super-diagonal {-1,-1}, right-hand side
    {1,0,1} the call returns {1, 1, 1 - 2^-53}, whose last row evaluates
    to [1 - 2^-52]. *)
Theorem thomas_solve_contract :
  (forall (F : Type) (HA : Arith F) (h : gmap loc (list F))
          (lower diag upper rhs : loc) (dv yv : list F),
     h !! diag = Some dv -> h !! rhs = Some yv ->
     ((exists msg, observe (_thomas_solve lower diag upper rhs) h
                   = Raise (ValueError msg))
      <-> length yv <> length dv)) /\
  (forall (F : Type) (HA : Arith F) (h : gmap loc (list F))
          (lower diag upper rhs : loc) (bv dv cv yv : list F),
     h !! lower = Some bv -> h !! diag = Some dv ->
     h !! upper = Some cv -> h !! rhs = Some yv ->
     length yv = length dv -> (1 <= length dv)%nat ->
     length bv = (length dv - 1)%nat -> length cv = (length dv - 1)%nat ->
     exists x, observe (_thomas_solve lower diag upper rhs) h = Ok x /\
               length x = length dv) /\
  (forall (h : gmap loc (list R)) (lower diag upper rhs : loc)
          (bv dv cv yv : list R),
     h !! lower = Some bv -> h !! diag = Some dv ->
     h !! upper = Some cv -> h !! rhs = Some yv ->
     length yv = length dv -> (1 <= length dv)%nat ->
     length bv = (length dv - 1)%nat -> length cv = (length dv - 1)%nat ->
     Forall (fun p => p <> 0%R) (pivots bv dv cv yv) ->
     exists x, observe (_thomas_solve lower diag upper rhs) h = Ok x /\
               solves_tridiagonal bv dv cv yv x) /\
  (thomas_call [(-1)%float; (-1)%float] [2%float; 2%float; 2%float]
     [(-1)%float; (-1)%float] [1%float; 0%float; 1%float]
   = Ok [1%float; 1%float; 0x1.fffffffffffffp-1%float] /\
   tridiag_row [(-1)%float; (-1)%float] [2%float; 2%float; 2%float]
     [(-1)%float; (-1)%float]
     [1%float; 1%float; 0x1.fffffffffffffp-1%float] 2
   = 0x1.ffffffffffffep-1%float).
Proof.
  split; [|split; [|split]]; [| | |split; vm_compute; reflexivity].
  - intros F HA h lower diag upper rhs dv yv Hd Hy.
    by apply observe_value_error.
  - intros F HA h lower diag upper rhs bv dv cv yv Hb Hd Hc Hy Hlen Hn Hlb Hlc.
    exists (spec_thomas bv dv cv yv). split.
    + apply observe_thomas_ok; try done; lia.
    + by apply spec_thomas_length.
  - intros h lower diag upper rhs bv dv cv yv Hb Hd Hc Hy Hlen Hn Hlb Hlc Hp.
    exists (spec_thomas bv dv cv yv). split.
    + apply observe_thomas_ok; try done; lia.
    + by apply thomas_solves.
Qed.

Lemma thomas_solve_contract_witness :
  ((exists msg,
      observe (_thomas_solve 1%positive 2%positive 3%positive 4%positive)
        (store4 [] [1%R] [] [1%R; 2%R]) = Raise (ValueError msg))
   <-> length [1%R; 2%R] <> length [1%R]) /\
  (exists x,
     observe (_thomas_solve 1%positive 2%positive 3%positive 4%positive)
       (store4 [1%R] [2%R; 2%R] [1%R] [3%R; 3%R]) = Ok x /\
     length x = 2%nat) /\
  (exists x,
     observe (_thomas_solve 1%positive 2%positive 3%positive 4%positive)
       (store4 [1%R] [2%R; 2%R] [1%R] [3%R; 3%R]) = Ok x /\
     solves_tridiagonal [1%R] [2%R; 2%R] [1%R] [3%R; 3%R] x).
Proof.
  destruct thomas_solve_contract as (H1 & H2 & H3 & _). split; [|split].
  - apply (H1 R R_arith (store4 [] [1%R] [] [1%R; 2%R])
             1%positive 2%positive 3%positive 4%positive [1%R] [1%R; 2%R]);
      reflexivity.
  - apply (H2 R R_arith (store4 [1%R] [2%R; 2%R] [1%R] [3%R; 3%R])
             1%positive 2%positive 3%positive 4%positive
             [1%R] [2%R; 2%R] [1%R] [3%R; 3%R]);
      first [reflexivity | simpl; lia].
  - apply (H3 (store4 [1%R] [2%R; 2%R] [1%R] [3%R; 3%R])
             1%positive 2%positive 3%positive 4%positive
             [1%R] [2%R; 2%R] [1%R] [3%R; 3%R]);
      try first [reflexivity | simpl; lia].
    unfold pivots, spec_forward_sweep, spec_forward_step. simpl.
    repeat constructor; lra.
Defined.

(** C7, as the claim states it, fails: with main diagonal {0,1}, sub- and
    super-diagonal {1} and right-hand side {1,1} the first pivot is zero,
    and the call returns the array {nan, nan}; no exception is raised. *)
Lemma thomas_zero_pivot_returns :
  ~ (forall bv dv cv yv : list float,
       length yv = length dv ->
       length bv = (length dv - 1)%nat -> length cv = (length dv - 1)%nat ->
       (exists p, (p < length dv)%nat /\
                  (pivots bv dv cv yv !!! p =.? fzero) = true) ->
       exists msg, thomas_call bv dv cv yv = Raise (ZeroDivisionError msg)).
Proof.
  intros Hclaim.
  destruct (Hclaim [1%float] [0%float; 1%float] [1%float] [1%float; 1%float])
    as [msg Hmsg]; try reflexivity.
  - exists 0%nat. split; [simpl; lia|reflexivity].
  - vm_compute in Hmsg. discriminate Hmsg.
Qed.

(** C7, amended.  A zero pivot raises nothing: on arrays of well-formed
    lengths, if a pivot (an entry of the main diagonal after the forward
    sweep) equals zero, [_thomas_solve] returns a vector of length [n],
    and every entry of it is an infinity or a NaN. *)
Theorem thomas_zero_pivot_nonfinite_result :
  forall (h : gmap loc (list float)) (lower diag upper rhs : loc)
         (bv dv cv yv : list float) (p : nat),
    h !! lower = Some bv -> h !! diag = Some dv ->
    h !! upper = Some cv -> h !! rhs = Some yv ->
    length yv = length dv ->
    (length dv - 1 <= length bv)%nat -> (length dv - 1 <= length cv)%nat ->
    (p < length dv)%nat ->
    (pivots bv dv cv yv !!! p =.? fzero) = true ->
    exists x,
      observe (_thomas_solve lower diag upper rhs) h = Ok x /\
      length x = length dv /\
      Forall (fun v => nonfinite v = true) x.
Proof.
  intros h lower diag upper rhs bv dv cv yv p Hb Hd Hc Hy Hlen Hlb Hlc Hp Hz.
  exists (spec_thomas bv dv cv yv). split; [|split].
  - apply observe_thomas_ok; try done; lia.
  - apply spec_thomas_length; [done|lia].
  - by apply (thomas_zero_pivot_nonfinite bv dv cv yv p).
Qed.

Lemma thomas_zero_pivot_nonfinite_result_witness :
  exists x,
    observe (_thomas_solve 1%positive 2%positive 3%positive 4%positive)
      (store4 [1%float] [0%float; 1%float] [1%float] [1%float; 1%float])
    = Ok x /\
    length x = 2%nat /\ Forall (fun v => nonfinite v = true) x.
Proof.
  apply (thomas_zero_pivot_nonfinite_result
           (store4 [1%float] [0%float; 1%float] [1%float] [1%float; 1%float])
           1%positive 2%positive 3%positive 4%positive
           [1%float] [0%float; 1%float] [1%float] [1%float; 1%float] 0%nat);
    first [reflexivity | simpl; lia].
Defined.

(** C10.  The lengths of the sub- and the super-diagonal are never
    checked: with the right-hand side as long as the main diagonal, and
    at least [n-1] sub- and super-diagonal entries, a call observes the
    same as the call on their first [n-1] entries; for [n >= 1] it returns
    the result of the sweeps on those entries; and it never raises the
    [ValueError] of the length check. *)
Theorem thomas_ignores_extra_entries :
  forall (F : Type) (HA : Arith F) (h h2 : gmap loc (list F))
         (lower diag upper rhs : loc) (bv dv cv yv : list F),
    h !! lower = Some bv -> h !! diag = Some dv ->
    h !! upper = Some cv -> h !! rhs = Some yv ->
    h2 !! lower = Some (take (length dv - 1) bv) -> h2 !! diag = Some dv ->
    h2 !! upper = Some (take (length dv - 1) cv) -> h2 !! rhs = Some yv ->
    length yv = length dv ->
    (length dv - 1 <= length bv)%nat -> (length dv - 1 <= length cv)%nat ->
    observe (_thomas_solve lower diag upper rhs) h
    = observe (_thomas_solve lower diag upper rhs) h2 /\
    ((1 <= length dv)%nat ->
     observe (_thomas_solve lower diag upper rhs) h
     = Ok (spec_thomas (take (length dv - 1) bv) dv
             (take (length dv - 1) cv) yv)) /\
    (forall msg, observe (_thomas_solve lower diag upper rhs) h
                 <> Raise (ValueError msg)).
Proof.
  intros F HA h h2 lower diag upper rhs bv dv cv yv
    Hb Hd Hc Hy Hb2 Hd2 Hc2 Hy2 Hlen Hlb Hlc.
  assert (forall msg, observe (_thomas_solve lower diag upper rhs) h
                      <> Raise (ValueError msg)) as Hnov.
  { intros msg Hmsg.
    by apply (proj1 (observe_value_error h lower diag upper rhs dv yv Hd Hy)
                (ex_intro _ msg Hmsg)). }
  destruct (decide (length dv = 0%nat)) as [Hz|Hnz].
  - destruct dv; [|done]. destruct yv; [|done].
    rewrite (thomas_empty h lower diag upper rhs bv cv) by done.
    rewrite (thomas_empty h2 lower diag upper rhs _ _ Hb2 Hd2 Hc2 Hy2).
    split; [done|]. split; [simpl; lia|done].
  - rewrite (observe_thomas_ok h lower diag upper rhs bv dv cv yv)
      by (try done; lia).
    rewrite (observe_thomas_ok h2 lower diag upper rhs _ dv _ yv Hb2 Hd2 Hc2 Hy2)
      by (rewrite ?length_take; try done; lia).
    rewrite spec_thomas_take. split; [done|]. split; [done|].
    intros msg Hmsg. discriminate Hmsg.
Qed.

Lemma thomas_ignores_extra_entries_witness :
  observe (_thomas_solve 1%positive 2%positive 3%positive 4%positive)
    (store4 [(-1)%float; 7%float; 9%float] [2%float; 2%float]
            [(-1)%float; 5%float] [1%float; 1%float])
  = observe (_thomas_solve 1%positive 2%positive 3%positive 4%positive)
      (store4 [(-1)%float] [2%float; 2%float] [(-1)%float]
              [1%float; 1%float]).
Proof.
  apply (thomas_ignores_extra_entries float float_arith
           (store4 [(-1)%float; 7%float; 9%float] [2%float; 2%float]
                   [(-1)%float; 5%float] [1%float; 1%float])
           (store4 [(-1)%float] [2%float; 2%float] [(-1)%float]
                   [1%float; 1%float])
           1%positive 2%positive 3%positive 4%positive
           [(-1)%float; 7%float; 9%float] [2%float; 2%float]
           [(-1)%float; 5%float] [1%float; 1%float]);
    first [reflexivity | simpl; lia].
Defined.

(** ** The engine leaves the arrays of the store in place *)

Section EngineFrame.
Context {F : Type} `{Arith F}.
Variable math_exp : F -> result F.
Variable np_interp : F -> list F -> list F -> F.
Implicit Types (h : gmap loc (list F)).

Lemma any_lift h0 {A} (r : result A) :
  keeps any_exn h0 (lift r) (fun _ => True).
Proof. apply keeps_lift. by destruct r. Qed.

Lemma thomas_keeps_any h0 (lower diag upper rhs : loc) :
  keeps any_exn h0 (_thomas_solve lower diag upper rhs) (fun _ => True).
Proof.
  intros h Hh. split.
  - etrans; [exact Hh|]. apply thomas_frame.
  - by destruct (_thomas_solve lower diag upper rhs h).1.
Qed.

Lemma time_step_keeps h0 option_type (Smax K r dt : F) (A B C : list F)
    (M : nat) (lL dL uL : loc) (n : Z) (V : list F) :
  keeps any_exn h0
    (time_step math_exp option_type Smax K r dt A B C M lL dL uL n V)
    (fun _ => True).
Proof.
  unfold time_step.
  eapply keeps_bind; [apply any_lift|]; intros bn _.
  eapply keeps_bind; [apply any_lift|]; intros bnp1 _.
  eapply keeps_bind; [apply keeps_alloc|]; intros rh _.
  eapply keeps_bind; [apply thomas_keeps_any|]; intros x _.
  eapply keeps_bind; [by apply keeps_load|]; intros V_new_in _.
  eapply keeps_bind; [apply any_lift|]; intros V' _.
  by apply keeps_ret.
Qed.

Lemma time_step_frame h option_type (Smax K r dt : F) (A B C : list F)
    (M : nat) (lL dL uL : loc) (n : Z) (V : list F) :
  h ⊆ (time_step math_exp option_type Smax K r dt A B C M lL dL uL n V h).2.
Proof. by apply (time_step_keeps h). Qed.

Lemma engine_frame h (S0 K T r sigma : F) (option_type : string)
    (Mo No : option Z) (Smax : option F) (return_grid : bool) :
  h ⊆ (price_european_fixed_grid math_exp np_interp S0 K T r sigma
         option_type Mo No Smax return_grid h).2.
Proof.
  cut (keeps any_exn h
         (price_european_fixed_grid math_exp np_interp S0 K T r sigma
            option_type Mo No Smax return_grid) (fun _ => True)).
  { intros Hk. by apply Hk. }
  unfold price_european_fixed_grid.
  eapply keeps_bind; [apply any_lift|]; intros _ _.
  case_match; [by apply keeps_raise|].
  case_match; [by apply keeps_raise|].
  eapply keeps_bind; [apply keeps_alloc|]; intros lL _.
  eapply keeps_bind; [apply keeps_alloc|]; intros dL _.
  eapply keeps_bind; [apply keeps_alloc|]; intros uL _.
  eapply keeps_bind.
  { apply keeps_for_fold. intros n st. unfold time_loop_body.
    eapply keeps_bind; [apply time_step_keeps|]; intros V' _.
    by apply keeps_ret. }
  intros st _. case_match; by apply keeps_ret.
Qed.

End EngineFrame.

(** C8.  [_thomas_solve] leaves every array of the caller in place: the
    store a call ends in, whether it returns or raises, extends the store
    it started from, entry for entry; its writes go to the copies it
    allocates.  The same holds for each pass of the engine's time loop,
    which makes one solve, and for a whole pricing call: the arrays
    [lower_L], [diag_L], [upper_L] are the same before and after every
    solve. *)
Theorem thomas_solve_preserves_caller_arrays :
  (forall (F : Type) (HA : Arith F) (h : gmap loc (list F))
          (lower diag upper rhs : loc),
     h ⊆ (_thomas_solve lower diag upper rhs h).2) /\
  (forall (F : Type) (HA : Arith F) (math_exp : F -> result F)
          (h : gmap loc (list F)) (option_type : string) (Smax K r dt : F)
          (A B C : list F) (M : nat) (lL dL uL : loc) (n : Z) (V : list F),
     h ⊆ (time_step math_exp option_type Smax K r dt A B C M lL dL uL n V h).2) /\
  (forall (F : Type) (HA : Arith F) (math_exp : F -> result F)
          (np_interp : F -> list F -> list F -> F)
          (h : gmap loc (list F)) (S0 K T r sigma : F) (option_type : string)
          (Mo No : option Z) (Smax : option F) (return_grid : bool),
     h ⊆ (price_european_fixed_grid math_exp np_interp S0 K T r sigma
            option_type Mo No Smax return_grid h).2).
Proof.
  split; [|split].
  - intros. apply thomas_frame.
  - intros. apply time_step_frame.
  - intros. apply engine_frame.
Qed.

(** * The claims about the grid engine *)

Section OperatorEntries.
Context {F : Type} `{Arith F}.

Lemma grid_nodes_lookup (Smax : F) (M i : Z) :
  1 <= i <= M - 1 ->
  grid_nodes Smax M !! Z.to_nat (i - 1)
  = Some (grid_S Smax M !!! Z.to_nat i).
Proof.
  intros Hi. unfold grid_nodes. rewrite interior_nodes_lookup by lia.
  do 2 f_equal. lia.
Qed.

Lemma operator_entries (sigma r Smax dt : F) (M i : Z) :
  3 <= M -> 1 <= i <= M - 1 ->
  let s := grid_S Smax M !!! Z.to_nat i in
  let dS := grid_dS Smax M in
  let A := grid_A sigma r Smax M in
  let B := grid_B sigma r Smax M in
  let C := grid_C sigma r Smax M in
  A !! Z.to_nat (i - 1) = Some (A_at sigma r dS s) /\
  B !! Z.to_nat (i - 1) = Some (B_at sigma r dS s) /\
  C !! Z.to_nat (i - 1) = Some (C_at sigma r dS s) /\
  diag_L dt B !! Z.to_nat (i - 1)
  = Some (fone -! fhalf *! dt *! B_at sigma r dS s) /\
  diag_R dt B !! Z.to_nat (i - 1)
  = Some (fone +! fhalf *! dt *! B_at sigma r dS s) /\
  (2 <= i ->
   lower_L dt A !! Z.to_nat (i - 2)
   = Some ((-! fhalf) *! dt *! A_at sigma r dS s) /\
   lower_R dt A !! Z.to_nat (i - 2)
   = Some (fhalf *! dt *! A_at sigma r dS s)) /\
  (i <= M - 2 ->
   upper_L dt C !! Z.to_nat (i - 1)
   = Some ((-! fhalf) *! dt *! C_at sigma r dS s) /\
   upper_R dt C !! Z.to_nat (i - 1)
   = Some (fhalf *! dt *! C_at sigma r dS s)).
Proof.
  intros HM Hi s dS A B C.
  pose proof (grid_nodes_lookup Smax M i Hi) as Hs. fold s in Hs.
  assert (A !! Z.to_nat (i - 1) = Some (A_at sigma r dS s)) as HA
    by by apply coef_A_lookup.
  assert (B !! Z.to_nat (i - 1) = Some (B_at sigma r dS s)) as HB
    by by apply coef_B_lookup.
  assert (C !! Z.to_nat (i - 1) = Some (C_at sigma r dS s)) as HC
    by by apply coef_C_lookup.
  repeat split; try done.
  - unfold diag_L. by rewrite list_lookup_fmap, HB.
  - unfold diag_R. by rewrite list_lookup_fmap, HB.
  - unfold lower_L. rewrite list_lookup_fmap, py_tail_lookup.
    replace (S (Z.to_nat (i - 2))) with (Z.to_nat (i - 1)) by lia.
    by rewrite HA.
  - unfold lower_R. rewrite list_lookup_fmap, py_tail_lookup.
    replace (S (Z.to_nat (i - 2))) with (Z.to_nat (i - 1)) by lia.
    by rewrite HA.
  - unfold upper_L. rewrite list_lookup_fmap, py_init_lookup.
    + by rewrite HC.
    + unfold C. rewrite grid_C_length. lia.
  - unfold upper_R. rewrite list_lookup_fmap, py_init_lookup.
    + by rewrite HC.
    + unfold C. rewrite grid_C_length. lia.
Qed.

End OperatorEntries.



(** ** Binary64: the product [1.5 * x] of a positive finite [x] *)

Section Binary64Rounding.

Lemma iter_pos_nat {A : Type} (f : A -> A) (p : positive) (x : A) :
  SpecFloat.iter_pos f p x = Nat.iter (Pos.to_nat p) f x.
Proof.
  revert x. induction p as [p IH|p IH|]; intros x.
  - change (SpecFloat.iter_pos f p~1 x)
      with (SpecFloat.iter_pos f p (SpecFloat.iter_pos f p (f x))).
    rewrite !IH, Pos2Nat.inj_xI.
    rewrite <- Nat.iter_succ_r, <- Nat.iter_add. f_equal. lia.
  - change (SpecFloat.iter_pos f p~0 x)
      with (SpecFloat.iter_pos f p (SpecFloat.iter_pos f p x)).
    rewrite !IH, Pos2Nat.inj_xO, <- Nat.iter_add. f_equal. lia.
  - done.
Qed.

Lemma shr_1_m (r : shr_record) :
  0 <= shr_m r -> shr_m (shr_1 r) = shr_m r / 2.
Proof.
  destruct r as [m b s]. simpl. intros Hm.
  destruct m as [|[p|p|]|p]; simpl; try lia; try done.
  - apply Z.div_unique with 1; lia.
  - apply Z.div_unique with 0; lia.
Qed.

Lemma shr_iter_m (k : nat) (r : shr_record) :
  0 <= shr_m r ->
  shr_m (Nat.iter k shr_1 r) = shr_m r / 2 ^ Z.of_nat k.
Proof.
  intros Hm. induction k as [|k IH].
  - simpl. by rewrite Z.div_1_r.
  - simpl Nat.iter. rewrite shr_1_m.
    + rewrite IH, Z.div_div by lia. f_equal.
      rewrite Nat2Z.inj_succ, Z.pow_succ_r by lia. lia.
    + rewrite IH. apply Z.div_pos; lia.
Qed.

(** [shr_fexp] on a non-negative mantissa: a shift by [n] digits when
    [n] is positive. *)
Lemma shr_fexp_m (prec emax m e : Z) (l : location) :
  0 <= m ->
  let n := fexp prec emax (Zdigits2 m + e) - e in
  shr_m (shr_fexp prec emax m e l).1
  = (if 0 <? n then m / 2 ^ n else m) /\
  (shr_fexp prec emax m e l).2 = (if 0 <? n then e + n else e).
Proof.
  intros Hm n. unfold shr_fexp. fold n.
  assert (shr_m (shr_record_of_loc m l) = m) as Hrec
    by (by destruct l as [|[]]).
  unfold shr. destruct n as [|p|p]; simpl; try done.
  rewrite iter_pos_nat, shr_iter_m by lia.
  by rewrite Hrec, positive_nat_Z.
Qed.

Lemma round_nearest_even_bounds (q : Z) (l : location) :
  q <= round_nearest_even q l <= q + 1.
Proof.
  unfold round_nearest_even.
  destruct l as [|[]]; try lia. destruct (Z.even q); lia.
Qed.

(** What [binary_round_aux] returns on a positive mantissa without
    remainder: two shifts with a rounding by at most one in between. *)
Lemma binary_round_aux_shape (prec emax : Z) (sx : bool) (mx ex : Z) :
  0 <= mx ->
  let n := fexp prec emax (Zdigits2 mx + ex) - ex in
  let q := if 0 <? n then mx / 2 ^ n else mx in
  let e1 := if 0 <? n then ex + n else ex in
  exists m1,
    q <= m1 <= q + 1 /\
    let n2 := fexp prec emax (Zdigits2 m1 + e1) - e1 in
    let m2 := if 0 <? n2 then m1 / 2 ^ n2 else m1 in
    let e2 := if 0 <? n2 then e1 + n2 else e1 in
    binary_round_aux prec emax sx mx ex loc_Exact
    = match m2 with
      | Z0 => S754_zero sx
      | Zpos m =>
          if e2 <=? emax - prec then S754_finite sx m e2
          else S754_infinity sx
      | Zneg _ => S754_nan
      end.
Proof.
  intros Hmx n q e1. unfold binary_round_aux.
  destruct (shr_fexp_m prec emax mx ex loc_Exact Hmx) as [Hq He].
  fold n in Hq, He. fold q in Hq. fold e1 in He.
  destruct (shr_fexp prec emax mx ex loc_Exact) as [r1 e1'] eqn:H1.
  simpl in Hq, He. subst e1'.
  set (m1 := round_nearest_even (shr_m r1) (loc_of_shr_record r1)).
  exists m1. split.
  { unfold m1. rewrite <- Hq. apply round_nearest_even_bounds. }
  assert (0 <= q) as Hq0.
  { unfold q. destruct (Z.ltb_spec 0 n); [|done].
    apply Z.div_pos; [done|]. apply Z.pow_pos_nonneg; lia. }
  assert (0 <= m1) as Hm1.
  { unfold m1. pose proof (round_nearest_even_bounds (shr_m r1)
                             (loc_of_shr_record r1)). lia. }
  destruct (shr_fexp_m prec emax m1 e1 loc_Exact Hm1) as [Hq2 He2].
  destruct (shr_fexp prec emax m1 e1 loc_Exact) as [r2 e2'] eqn:H2.
  simpl in Hq2, He2. subst e2'. rewrite Hq2. done.
Qed.

Lemma digits2_pos_size (p : positive) : digits2_pos p = Pos.size p.
Proof. induction p as [p IH|p IH|]; simpl; by rewrite ?IH. Qed.

(** The number of binary digits of a positive number. *)
Lemma Zdigits2_bounds (p : positive) :
  2 ^ (Zdigits2 (Zpos p) - 1) <= Zpos p < 2 ^ Zdigits2 (Zpos p).
Proof.
  simpl. rewrite digits2_pos_size.
  pose proof (Pos.size_gt p) as Hgt. pose proof (Pos.size_le p) as Hle.
  apply Pos2Z.pos_lt_pos in Hgt. apply Pos2Z.pos_le_pos in Hle.
  rewrite Pos2Z.inj_pow in Hgt, Hle.
  change (Z.pos p~0) with (2 * Z.pos p) in Hle.
  split; [|done].
  replace (Z.pos (Pos.size p)) with (Z.succ (Z.pos (Pos.size p) - 1))
    in Hle by lia.
  rewrite Z.pow_succ_r in Hle by lia. lia.
Qed.

Lemma Zdigits2_unique (z d : Z) :
  0 < z -> 2 ^ (d - 1) <= z < 2 ^ d -> 1 <= d -> Zdigits2 z = d.
Proof.
  intros Hz [Hlo Hhi] Hd. destruct z as [|p|p]; try lia.
  pose proof (Zdigits2_bounds p) as [Hlo' Hhi'].
  assert (1 <= Zdigits2 (Z.pos p)) as Hd' by (simpl; lia).
  destruct (Z.lt_trichotomy (Zdigits2 (Z.pos p)) d) as [Hlt|[Heq|Hgt]];
    [|done|].
  - assert (2 ^ Zdigits2 (Z.pos p) <= 2 ^ (d - 1))
      by (apply Z.pow_le_mono_r; lia). lia.
  - assert (2 ^ d <= 2 ^ (Zdigits2 (Z.pos p) - 1))
      by (apply Z.pow_le_mono_r; lia). lia.
Qed.

End Binary64Rounding.

Section Binary64Scaling.

Ltac pow2 :=
  repeat match goal with
         | |- context [2 ^ ?k] =>
             let v := eval vm_compute in (2 ^ k) in
             match v with Z.pos _ => change (2 ^ k) with v end
         | H : context [2 ^ ?k] |- _ =>
             let v := eval vm_compute in (2 ^ k) in
             match v with Z.pos _ => change (2 ^ k) with v in H end
         end.

(** A binary64 mantissa is normal (53 digits) or belongs to the least
    exponent. *)
Lemma bounded_cases (m : positive) (e : Z) :
  SpecFloat.bounded 53 1024 m e = true ->
  e <= 971 /\
  ((4503599627370496 <= Z.pos m < 9007199254740992 /\ -1074 <= e) \/
   (Z.pos m < 4503599627370496 /\ e = -1074)).
Proof.
  intros Hb. apply andb_prop in Hb as [Hcan Hemax].
  apply Z.eqb_eq in Hcan. apply Z.leb_le in Hemax.
  unfold fexp, emin in Hcan. split; [lia|].
  pose proof (Zdigits2_bounds m) as Hd. simpl Zdigits2 in Hd.
  set (d := Z.pos (digits2_pos m)) in *.
  destruct (decide (d = 53)) as [Hd53|Hd53].
  - left. rewrite Hd53 in Hd. pow2. lia.
  - right. assert (d <= 52 /\ e = -1074) as [Hd52 ->] by lia.
    split; [|done].
    assert (2 ^ d <= 2 ^ 52) as Hpow by (apply Z.pow_le_mono_r; lia).
    pow2. lia.
Qed.

Lemma SFltb_finite (m1 m2 : positive) (e1 e2 : Z) :
  e1 < e2 \/ (e1 = e2 /\ Z.pos m1 < Z.pos m2) ->
  SFltb (S754_finite false m1 e1) (S754_finite false m2 e2) = true.
Proof.
  intros Hlt. unfold SFltb, SFcompare.
  destruct (Z.compare_spec e1 e2) as [Heq|Hl|Hg]; try done; try lia.
  change (Pos.compare_cont Eq m1 m2) with (m1 ?= m2)%positive.
  assert ((m1 ?= m2)%positive = Lt) as -> by (apply Pos.compare_lt_iff; lia).
  done.
Qed.

(** The second shift and the range check of [binary_round_aux], on a
    rounded mantissa of at most 54 digits. *)
Lemma rounded_is_above (m : positive) (e m1 e1 : Z) :
  -1074 <= e1 ->
  (e1 = e /\ Z.pos m < m1 <= 9007199254740992) \/
  (e < e1 /\ 0 < m1 <= 9007199254740992) ->
  let n2 := fexp 53 1024 (Zdigits2 m1 + e1) - e1 in
  let m2 := if 0 <? n2 then m1 / 2 ^ n2 else m1 in
  let e2 := if 0 <? n2 then e1 + n2 else e1 in
  SFltb (S754_finite false m e)
    match m2 with
    | Z0 => S754_zero false
    | Zpos m' =>
        if e2 <=? 1024 - 53 then S754_finite false m' e2
        else S754_infinity false
    | Zneg _ => S754_nan
    end = true.
Proof.
  intros He1 Hcase n2 m2 e2.
  assert (0 < m1 <= 9007199254740992) as Hm1 by lia.
  destruct (decide (m1 = 9007199254740992)) as [->|Hne].
  - assert (n2 = 1) as Hn2.
    { unfold n2. rewrite (Zdigits2_unique 9007199254740992 54);
        [unfold fexp, emin; lia|lia|pow2; lia|lia]. }
    unfold m2, e2. rewrite Hn2.
    change (0 <? 1) with true. cbv iota.
    change (9007199254740992 / 2 ^ 1) with 4503599627370496.
    destruct (e1 + 1 <=? 1024 - 53); [|done]. apply SFltb_finite. lia.
  - destruct m1 as [|p1|p1]; try lia.
    pose proof (Zdigits2_bounds p1) as Hd.
    assert (Zdigits2 (Z.pos p1) <= 53) as Hd53.
    { destruct (decide (Zdigits2 (Z.pos p1) <= 53)) as [|Hgt]; [done|].
      assert (2 ^ 53 <= 2 ^ (Zdigits2 (Z.pos p1) - 1)) as Hpow
        by (apply Z.pow_le_mono_r; lia).
      pow2. lia. }
    assert (n2 <= 0) as Hn2 by (unfold n2, fexp, emin; lia).
    unfold m2, e2. destruct (Z.ltb_spec 0 n2); [lia|].
    destruct (e1 <=? 1024 - 53); [|done]. apply SFltb_finite. lia.
Qed.

(** In binary64 [1.5 * x] is above [x] for every positive finite
    [x]: the product is rounded to a neighbour of [1.5 * x], or
    overflows to the infinity. *)
Lemma SF_three_halves_above (m : positive) (e : Z) :
  SpecFloat.bounded 53 1024 m e = true ->
  SFltb (S754_finite false m e)
    (SFmul 53 1024 (S754_finite false 6755399441055744 (-52))
       (S754_finite false m e)) = true.
Proof.
  intros Hb. destruct (bounded_cases m e Hb) as [Hemax Hcases].
  destruct (decide (m = 1%positive)) as [->|Hm1].
  { assert (e = -1074) as -> by lia. by vm_compute. }
  assert (2 <= Z.pos m) as Hm2 by lia.
  unfold SFmul. simpl xorb.
  set (P := Z.pos (6755399441055744 * m)).
  assert (P = 6755399441055744 * Z.pos m) as HP by (unfold P; lia).
  destruct (binary_round_aux_shape 53 1024 false P (-52 + e))
    as (m1 & Hm1b & ->); [lia|].
  pose proof (Zdigits2_bounds (6755399441055744 * m)) as HD. fold P in HD.
  set (D := Zdigits2 P) in *.
  assert (1 <= D) as HD1 by (unfold D, P; simpl; lia).
  destruct Hcases as [[Hm He]|[Hm ->]].
  - destruct (decide (P < 40564819207303340847894502572032)) as [Hlt|Hge].
    + (* the product has 105 digits: a shift by 52 *)
      assert (D = 105) as HD105.
      { apply Zdigits2_unique; [lia|pow2; lia|lia]. }
      assert (fexp 53 1024 (D + (-52 + e)) - (-52 + e) = 52) as Hn
        by (unfold fexp, emin; lia).
      rewrite Hn in Hm1b |- *. clear Hn.
      change (0 <? 52) with true in Hm1b |- *. cbv iota in Hm1b |- *.
      change (2 ^ 52) with 4503599627370496 in Hm1b.
      assert (Z.pos m + 1 <= P / 4503599627370496) as Hlo
        by (apply Z.div_le_lower_bound; lia).
      assert (P / 4503599627370496 < 9007199254740992) as Hhi
        by (apply Z.div_lt_upper_bound; lia).
      replace (-52 + e + 52) with e by lia.
      apply rounded_is_above; [lia|]. left. lia.
    + (* the product has 106 digits: a shift by 53 *)
      assert (D = 106) as HD106.
      { apply Zdigits2_unique; [lia|pow2; lia|lia]. }
      assert (fexp 53 1024 (D + (-52 + e)) - (-52 + e) = 53) as Hn
        by (unfold fexp, emin; lia).
      rewrite Hn in Hm1b |- *. clear Hn.
      change (0 <? 53) with true in Hm1b |- *. cbv iota in Hm1b |- *.
      change (2 ^ 53) with 9007199254740992 in Hm1b.
      assert (4503599627370496 <= P / 9007199254740992) as Hlo
        by (apply Z.div_le_lower_bound; lia).
      assert (P / 9007199254740992 < 9007199254740992) as Hhi
        by (apply Z.div_lt_upper_bound; lia).
      replace (-52 + e + 53) with (e + 1) by lia.
      apply rounded_is_above; [lia|]. right. lia.
  - (* the least exponent: a shift by 52 *)
    assert (D <= 105) as HD105.
    { destruct (decide (D <= 105)) as [|Hgt]; [done|].
      assert (2 ^ 105 <= 2 ^ (D - 1)) as Hpow
        by (apply Z.pow_le_mono_r; lia).
      pow2. lia. }
    assert (fexp 53 1024 (D + (-52 + -1074)) - (-52 + -1074) = 52) as Hn
      by (unfold fexp, emin; lia).
    rewrite Hn in Hm1b |- *. clear Hn.
      change (0 <? 52) with true in Hm1b |- *. cbv iota in Hm1b |- *.
    change (2 ^ 52) with 4503599627370496 in Hm1b.
    assert (Z.pos m + 1 <= P / 4503599627370496) as Hlo
      by (apply Z.div_le_lower_bound; lia).
    assert (P / 4503599627370496 < 9007199254740992) as Hhi
      by (apply Z.div_lt_upper_bound; lia).
    change (-52 + -1074 + 52) with (-1074).
    apply rounded_is_above; [lia|]. left. lia.
Qed.

End Binary64Scaling.

Section Binary64Order.

Ltac compare_cases :=
  repeat match goal with
         | |- context [Pos.compare_cont Eq ?a ?b] =>
             change (Pos.compare_cont Eq a b) with (a ?= b)%positive
         | H : context [Pos.compare_cont Eq ?a ?b] |- _ =>
             change (Pos.compare_cont Eq a b) with (a ?= b)%positive in H
         end;
  repeat match goal with
         | |- context [(?a ?= ?b)%Z] => destruct (Z.compare_spec a b)
         | H : context [(?a ?= ?b)%Z] |- _ => destruct (Z.compare_spec a b)
         | |- context [(?a ?= ?b)%positive] => destruct (Pos.compare_spec a b)
         | H : context [(?a ?= ?b)%positive] |- _ =>
             destruct (Pos.compare_spec a b)
         end;
  try done; try lia.

Lemma SF_le_lt_trans (s t : spec_float) (m : positive) (e : Z) :
  SFleb s (S754_finite false m e) = true ->
  SFltb (S754_finite false m e) t = true ->
  SFltb s t = true.
Proof.
  unfold SFleb, SFltb, SFcompare.
  destruct s as [[]|[]| |[] ms es], t as [[]|[]| |[] mt et]; try done.
  intros Hle Hlt. compare_cases.
Qed.

Lemma SF_not_le_gt (s : spec_float) (m : positive) (e : Z) :
  s <> S754_nan ->
  SFleb s (S754_finite false m e) = false ->
  SFltb (S754_finite false m e) s = true.
Proof.
  unfold SFleb, SFltb, SFcompare.
  destruct s as [[]|[]| |[] ms es]; try done.
  intros _ Hle. compare_cases.
Qed.

Lemma SF_positive_finite (x : spec_float) :
  SFleb x (S754_zero false) = false ->
  SFltb x (S754_infinity false) = true ->
  exists m e, x = S754_finite false m e.
Proof.
  unfold SFleb, SFltb, SFcompare.
  destruct x as [[]|[]| |[] m e]; try done. intros _ _. by exists m, e.
Qed.

Lemma SF_positive (x : spec_float) :
  x <> S754_nan ->
  SFleb x (S754_zero false) = false ->
  x = S754_infinity false \/ exists m e, x = S754_finite false m e.
Proof.
  unfold SFleb, SFcompare.
  destruct x as [[]|[]| |[] m e]; try done; intros _ _; [by left|].
  right. by exists m, e.
Qed.

Lemma SFeqb_refl (x : spec_float) : x <> S754_nan -> SFeqb x x = true.
Proof.
  unfold SFeqb, SFcompare. destruct x as [[]|[]| |[] m e]; try done; intros _.
  - rewrite Z.compare_refl. change (Pos.compare_cont Eq m m) with (m ?= m)%positive.
    by rewrite Pos.compare_refl.
  - rewrite Z.compare_refl. change (Pos.compare_cont Eq m m) with (m ?= m)%positive.
    by rewrite Pos.compare_refl.
Qed.

(** A rounded non-negative mantissa is no NaN. *)
Lemma binary_round_aux_not_nan (sx : bool) (mx ex : Z) :
  0 <= mx -> binary_round_aux 53 1024 sx mx ex loc_Exact <> S754_nan.
Proof.
  intros Hmx.
  destruct (binary_round_aux_shape 53 1024 sx mx ex Hmx) as (m1 & Hm1 & ->).
  set (n := fexp 53 1024 (Zdigits2 mx + ex) - ex) in *.
  assert (0 <= m1) as Hm1pos.
  { destruct (0 <? n) eqn:Hn; [|lia].
    assert (0 <= mx / 2 ^ n); [|lia].
    apply Z.ltb_lt in Hn.
    apply Z.div_pos; [lia|]. apply Z.pow_pos_nonneg; lia. }
  match goal with
  | |- match ?m2 with _ => _ end <> _ => assert (0 <= m2) as Hm2
  end.
  { destruct (Z.ltb_spec 0
                (fexp 53 1024
                   (Zdigits2 m1 + (if 0 <? n then ex + n else ex))
                 - (if 0 <? n then ex + n else ex))); [|done].
    apply Z.div_pos; [done|]. apply Z.pow_pos_nonneg; lia. }
  match goal with
  | |- match ?m2 with _ => _ end <> _ => destruct m2; try done; try lia
  end.
  by match goal with |- (if ?c then _ else _) <> _ => destruct c end.
Qed.

End Binary64Order.

Section Binary64Smax.
Local Open Scope float_scope.

Lemma float_is_nan_false (x : float) :
  PrimFloat.is_nan x = false <-> Prim2SF x <> S754_nan.
Proof.
  unfold PrimFloat.is_nan. rewrite FloatAxioms.eqb_spec. split.
  - intros Hx Hnan. rewrite Hnan in Hx. done.
  - intros Hx. by rewrite SFeqb_refl.
Qed.

Lemma float_positive_finite (x : float) :
  (x <=? 0) = false -> (x <? infinity) = true ->
  exists m e, Prim2SF x = S754_finite false m e /\
              SpecFloat.bounded 53 1024 m e = true.
Proof.
  rewrite FloatAxioms.leb_spec, FloatAxioms.ltb_spec. intros Hle Hlt.
  destruct (SF_positive_finite (Prim2SF x) Hle Hlt) as (m & e & Hx).
  exists m, e. split; [done|].
  pose proof (Prim2SF_valid x) as Hv. rewrite Hx in Hv. exact Hv.
Qed.

(** [1.5 * x > x] for every positive finite binary64 [x]. *)
Lemma float_three_halves_above (x : float) :
  (x <=? 0) = false -> (x <? infinity) = true -> (x <? 1.5 * x) = true.
Proof.
  intros Hle Hlt.
  destruct (float_positive_finite x Hle Hlt) as (m & e & Hx & Hb).
  rewrite FloatAxioms.ltb_spec, FloatAxioms.mul_spec, Hx.
  change (Prim2SF 1.5) with (S754_finite false 6755399441055744 (-52)).
  by apply SF_three_halves_above.
Qed.

Lemma float_le_lt_trans (s x t : float) :
  (x <=? 0) = false -> (x <? infinity) = true ->
  (s <=? x) = true -> (x <? t) = true -> (s <? t) = true.
Proof.
  intros Hle Hlt.
  destruct (float_positive_finite x Hle Hlt) as (m & e & Hx & _).
  rewrite FloatAxioms.leb_spec, !FloatAxioms.ltb_spec, Hx. apply SF_le_lt_trans.
Qed.

Lemma float_not_le_gt (s x : float) :
  (x <=? 0) = false -> (x <? infinity) = true ->
  PrimFloat.is_nan s = false -> (s <=? x) = false -> (x <? s) = true.
Proof.
  intros Hle Hlt Hnan.
  destruct (float_positive_finite x Hle Hlt) as (m & e & Hx & _).
  rewrite FloatAxioms.leb_spec, FloatAxioms.ltb_spec, Hx. apply SF_not_le_gt.
  by apply float_is_nan_false.
Qed.

(** [3.0 * K] is no NaN for a positive [K]. *)
Lemma float_scaled_strike_not_nan (K : float) :
  (K <=? 0) = false -> PrimFloat.is_nan K = false ->
  PrimFloat.is_nan (3 * K) = false.
Proof.
  intros Hle Hnan. apply float_is_nan_false. rewrite FloatAxioms.mul_spec.
  apply float_is_nan_false in Hnan. rewrite FloatAxioms.leb_spec in Hle.
  change (Prim2SF 3) with (S754_finite false 6755399441055744 (-51)).
  destruct (SF_positive (Prim2SF K) Hnan Hle) as [->|(m & e & ->)]; [done|].
  unfold SFmul. by apply binary_round_aux_not_nan.
Qed.

End Binary64Smax.

(** C5, as the claim states it, fails in binary64: an infinite spot
    passes [validate_option_inputs] ([inf <= 0] is false), the candidate
    [3 * K] does not exceed it, [max(3 * K, 1.5 * inf)] is the infinity
    again, and the resolved [Smax] is not above [S0]. *)
Lemma resolved_Smax_not_above_infinite_spot :
  ~ (forall (Smax : option float) (S0 K T sigma : float),
       validate_option_inputs S0 K T sigma = Ok tt ->
       (S0 <.? resolve_Smax Smax S0 K) = true).
Proof.
  intros Hclaim.
  specialize (Hclaim None infinity 100%float 1%float 0.25%float eq_refl).
  vm_compute in Hclaim. discriminate Hclaim.
Qed.

(** C5, amended.  The candidate is the caller's [Smax], or 3 times the
    strike when there is none.  In exact arithmetic, for [S0 > 0]: a
    candidate that does not exceed [S0] is replaced by the larger of
    itself and [1.5 * S0], a candidate above [S0] is kept, and the
    resolved [Smax] is strictly above [S0].  In binary64, for inputs that
    pass [validate_option_inputs], a finite [S0] and no NaN as strike or
    as caller's [Smax]: a candidate that does not exceed [S0] is replaced
    by [1.5 * S0], any other is kept, and the resolved [Smax] is strictly
    above [S0]. *)
Theorem resolved_Smax_exceeds_spot :
  (forall (F : Type) (HA : Arith F) (s K : F),
     Smax_candidate (Some s) K = s /\
     Smax_candidate None K = fthree *! K) /\
  (forall (Smax : option R) (S0 K : R),
     (0 < S0)%R ->
     Smax_candidate None K = (3 * K)%R /\
     ((Smax_candidate Smax K <= S0)%R ->
      resolve_Smax Smax S0 K = Rmax (Smax_candidate Smax K) (1.5 * S0) /\
      (1.5 * S0 <= resolve_Smax Smax S0 K)%R) /\
     ((S0 < Smax_candidate Smax K)%R ->
      resolve_Smax Smax S0 K = Smax_candidate Smax K) /\
     (S0 < resolve_Smax Smax S0 K)%R) /\
  (forall (Smax : option float) (S0 K T sigma : float),
     validate_option_inputs S0 K T sigma = Ok tt ->
     (S0 <? infinity)%float = true ->
     match Smax with
     | Some s => PrimFloat.is_nan s = false
     | None => PrimFloat.is_nan K = false
     end ->
     ((Smax_candidate Smax K <=? S0)%float = true ->
      resolve_Smax Smax S0 K = (1.5 * S0)%float) /\
     ((Smax_candidate Smax K <=? S0)%float = false ->
      resolve_Smax Smax S0 K = Smax_candidate Smax K) /\
     (S0 <? resolve_Smax Smax S0 K)%float = true).
Proof.
  split; [|split].
  - intros F HA s K. by split.
  - intros Smax S0 K HS0. split.
    { unfold Smax_candidate, S_MAX_MULTIPLIER. simpl. lra. }
    unfold resolve_Smax, py_max.
    generalize (Smax_candidate Smax K). intros c. simpl.
    unfold Rleb, Rltb, Rmax.
    destruct (Rle_dec c S0), (Rlt_dec c (3 / 2 * S0)),
      (Rle_dec c (1.5 * S0)); repeat split; intros; lra.
  - intros Smax S0 K T sigma Hv Hfin Hnan.
    assert ((S0 <=? 0)%float = false /\ (K <=? 0)%float = false) as [HS0 HK].
    { unfold validate_option_inputs in Hv. simpl in Hv.
      destruct (S0 <=? 0)%float; [done|]. by destruct (K <=? 0)%float. }
    assert (PrimFloat.is_nan (Smax_candidate Smax K) = false) as Hc.
    { destruct Smax as [s|]; [done|].
      by apply float_scaled_strike_not_nan. }
    unfold resolve_Smax, py_max. simpl.
    generalize dependent (Smax_candidate Smax K). intros c Hc.
    pose proof (float_three_halves_above S0 HS0 Hfin) as Habove.
    destruct (c <=? S0)%float eqn:Hle.
    + rewrite (float_le_lt_trans c S0 (1.5 * S0)%float HS0 Hfin Hle Habove).
      by repeat split.
    + repeat split; try done. by apply float_not_le_gt.
Qed.

Lemma resolved_Smax_exceeds_spot_witness :
  (100 < resolve_Smax (Some 50%R) 100%R 100%R)%R /\
  (100 <? resolve_Smax (Some 50%float) 100%float 100%float)%float = true.
Proof.
  destruct resolved_Smax_exceeds_spot as (_ & HR & Hfl). split.
  - apply (HR (Some 50%R) 100%R 100%R). lra.
  - apply (Hfl (Some 50%float) 100%float 100%float 1%float 0.25%float);
      reflexivity.
Defined.

(** C9.  Importing [pde_adaptive_time] fails at line 11: [config] defines
    no [PDEConfig].  A caller gets an [ImportError], for every input, and
    never reaches the [NotImplementedError] of the function body. *)
Theorem adaptive_time_import_error :
  forall (F : Type) (spot strike rate volatility time_to_expiry : F)
         (num_space_points : Z) (option_type : string),
    price_option_adaptive_time spot strike rate volatility time_to_expiry
      num_space_points option_type
    = Raise (ImportError "cannot import name PDEConfig") /\
    price_option_adaptive_time_body spot strike rate volatility
      time_to_expiry num_space_points option_type
    = Raise (NotImplementedError
               "Adaptive time-stepping solver not yet implemented").
Proof. intros. split; reflexivity. Qed.

(** C4, as the claim states it, fails: with [S0 = 0] and [M = 2] the call
    raises the [ValueError] of the parameter check, not the one of the
    grid check: the parameters are checked first. *)
Lemma grid_check_after_parameter_check :
  ~ (forall (S0 K T r sigma : float) (option_type : string)
            (Mo No : option Z) (Smax : option float) (return_grid : bool)
            (h : gmap loc (list float)),
       default DEFAULT_PRICE_STEPS Mo < 3 \/
       default DEFAULT_TIME_STEPS No < 1 ->
       exists msg,
         invalid_grid_message msg /\
         (price_european_fixed_grid no_exp no_interp S0 K T r sigma
            option_type Mo No Smax return_grid h).1
         = Raise (ValueError msg)).
Proof.
  intros Hclaim.
  destruct (Hclaim 0%float 100%float 1%float 0.5%float 0.25%float "call"
              (Some 2) None None false ∅) as (msg & Hmsg & Hrun).
  - left. simpl. lia.
  - vm_compute in Hrun. injection Hrun as <-.
    unfold invalid_grid_message in Hmsg. discriminate Hmsg.
Qed.

Section Validation.
Context {F : Type} `{Arith F}.
Variable math_exp : F -> result F.
Variable np_interp : F -> list F -> list F -> F.

Lemma validate_invalid (S0 K T sigma : F) :
  (S0 <=.? fzero) = true \/ (K <=.? fzero) = true \/
  (T <=.? fzero) = true \/ (sigma <=.? fzero) = true ->
  exists msg, invalid_parameter_message msg /\
              validate_option_inputs S0 K T sigma = Raise (ValueError msg).
Proof.
  intros Hbad. unfold validate_option_inputs, invalid_parameter_message.
  destruct (S0 <=.? fzero) eqn:HS; [eexists; split; [|done]; tauto|].
  destruct (K <=.? fzero) eqn:HK; [eexists; split; [|done]; tauto|].
  destruct (T <=.? fzero) eqn:HT; [eexists; split; [|done]; tauto|].
  destruct (sigma <=.? fzero) eqn:Hs; [eexists; split; [|done]; tauto|].
  destruct Hbad as [?|[?|[?|?]]]; done.
Qed.

Lemma validate_valid (S0 K T sigma : F) :
  (S0 <=.? fzero) = false -> (K <=.? fzero) = false ->
  (T <=.? fzero) = false -> (sigma <=.? fzero) = false ->
  validate_option_inputs S0 K T sigma = Ok tt.
Proof.
  intros HS HK HT Hs. unfold validate_option_inputs.
  by rewrite HS, HK, HT, Hs.
Qed.

Lemma option_type_check (option_type : string) :
  negb (String.eqb option_type "call" || String.eqb option_type "put")
  = true <-> option_type <> "call" /\ option_type <> "put".
Proof.
  destruct (String.eqb_spec option_type "call") as [->|Hc]; simpl.
  - split; [done|]. by intros [? _].
  - destruct (String.eqb_spec option_type "put") as [->|Hp]; simpl.
    + split; [done|]. by intros [_ ?].
    + done.
Qed.

Lemma engine_invalid_parameter h (S0 K T r sigma : F) (option_type : string)
    (Mo No : option Z) (Smax : option F) (return_grid : bool) :
  (S0 <=.? fzero) = true \/ (K <=.? fzero) = true \/
  (T <=.? fzero) = true \/ (sigma <=.? fzero) = true \/
  (option_type <> "call" /\ option_type <> "put") ->
  exists msg,
    invalid_parameter_message msg /\
    price_european_fixed_grid math_exp np_interp S0 K T r sigma option_type
      Mo No Smax return_grid h = (Raise (ValueError msg), h).
Proof.
  intros Hbad. unfold price_european_fixed_grid.
  destruct (validate_option_inputs S0 K T sigma) as [[]|e] eqn:Hv.
  - assert (option_type <> "call" /\ option_type <> "put") as Hopt.
    { destruct Hbad as [?|[?|[?|[?|?]]]]; try done.
      all: destruct (validate_invalid S0 K T sigma) as (msg & _ & Hmsg);
        [tauto|congruence]. }
    apply option_type_check in Hopt.
    unfold lift, bind. rewrite Hopt. eexists. split; [|done].
    unfold invalid_parameter_message. tauto.
  - unfold validate_option_inputs in Hv. unfold lift, bind.
    unfold invalid_parameter_message.
    repeat case_match; try done; injection Hv as <-;
      eexists; (split; [|done]); tauto.
Qed.

Lemma engine_invalid_grid h (S0 K T r sigma : F) (option_type : string)
    (Mo No : option Z) (Smax : option F) (return_grid : bool) :
  (S0 <=.? fzero) = false -> (K <=.? fzero) = false ->
  (T <=.? fzero) = false -> (sigma <=.? fzero) = false ->
  option_type = "call" \/ option_type = "put" ->
  default DEFAULT_PRICE_STEPS Mo < 3 \/ default DEFAULT_TIME_STEPS No < 1 ->
  price_european_fixed_grid math_exp np_interp S0 K T r sigma option_type
    Mo No Smax return_grid h
  = (Raise (ValueError "Need M >= 3 and N >= 1 for a meaningful grid"), h).
Proof.
  intros HS HK HT Hs Hopt Hgrid. unfold price_european_fixed_grid.
  rewrite (validate_valid S0 K T sigma HS HK HT Hs). unfold lift, bind.
  replace (negb (String.eqb option_type "call" || String.eqb option_type "put"))
    with false by (by destruct Hopt as [-> | ->]).
  destruct (Z.ltb_spec (default DEFAULT_PRICE_STEPS Mo) 3);
    destruct (Z.ltb_spec (default DEFAULT_TIME_STEPS No) 1); try done.
  lia.
Qed.

End Validation.

(** C4, amended.  A call with a non-positive spot, strike, time to expiry
    or volatility, or with an option kind other than call and put, raises
    a [ValueError] of the parameter checks; a call whose parameters and
    option kind pass and whose [M < 3] or [N < 1] raises the [ValueError]
    of the grid check; in both cases the store is the one the call started
    from (no array has been built) and no price is returned. *)
Theorem validation_errors :
  forall (F : Type) (HA : Arith F) (math_exp : F -> result F)
         (np_interp : F -> list F -> list F -> F)
         (S0 K T r sigma : F) (option_type : string) (Mo No : option Z)
         (Smax : option F) (return_grid : bool) (h : gmap loc (list F)),
    ((S0 <=.? fzero) = true \/ (K <=.? fzero) = true \/
     (T <=.? fzero) = true \/ (sigma <=.? fzero) = true \/
     (option_type <> "call" /\ option_type <> "put") ->
     exists msg,
       invalid_parameter_message msg /\
       price_european_fixed_grid math_exp np_interp S0 K T r sigma
         option_type Mo No Smax return_grid h
       = (Raise (ValueError msg), h)) /\
    ((S0 <=.? fzero) = false -> (K <=.? fzero) = false ->
     (T <=.? fzero) = false -> (sigma <=.? fzero) = false ->
     option_type = "call" \/ option_type = "put" ->
     default DEFAULT_PRICE_STEPS Mo < 3 \/
     default DEFAULT_TIME_STEPS No < 1 ->
     exists msg,
       invalid_grid_message msg /\
       price_european_fixed_grid math_exp np_interp S0 K T r sigma
         option_type Mo No Smax return_grid h
       = (Raise (ValueError msg), h)).
Proof.
  intros. split.
  - by apply engine_invalid_parameter.
  - intros. eexists. split; [reflexivity|]. by apply engine_invalid_grid.
Qed.

Lemma validation_errors_witness :
  (exists msg,
     invalid_parameter_message msg /\
     price_european_fixed_grid no_exp no_interp 100%float (-5)%float 1%float
       0.5%float 0.25%float "call" None None None false ∅
     = (Raise (ValueError msg), ∅)) /\
  (exists msg,
     invalid_grid_message msg /\
     price_european_fixed_grid no_exp no_interp 100%float 100%float 1%float
       0.5%float 0.25%float "put" (Some 2) None None false ∅
     = (Raise (ValueError msg), ∅)).
Proof.
  split.
  - apply (proj1 (validation_errors float float_arith no_exp no_interp
             100%float (-5)%float 1%float 0.5%float 0.25%float "call"
             None None None false ∅)).
    right. left. reflexivity.
  - apply (proj2 (validation_errors float float_arith no_exp no_interp
             100%float 100%float 1%float 0.5%float 0.25%float "put"
             (Some 2) None None false ∅)); try reflexivity.
    + by right.
    + left. simpl. lia.
Defined.

Section BoundaryRows.
Context {F : Type} `{Arith F}.
Variable math_exp : F -> result F.
Variable np_interp : F -> list F -> list F -> F.

Lemma boundary_ok option_type (Smax K r tau e : F) :
  math_exp ((-! r) *! tau) = Ok e ->
  boundary math_exp option_type Smax K r tau
  = Ok (boundary_at_zero option_type K e,
        boundary_at_Smax option_type Smax K e).
Proof.
  intros He. unfold boundary, boundary_at_zero, boundary_at_Smax.
  rewrite He. by destruct (String.eqb option_type "call").
Qed.

(** A row of the surface: the boundary values at both ends, the
    solver's output in between. *)
Lemma step_value_row option_type (Smax K r dt : F) (A B C : list F)
    (M : nat) (n : Z) (V row : list F) (e_n e_np1 : F) :
  (1 <= M)%nat -> length B = (M - 1)%nat ->
  math_exp ((-! r) *! (of_int n *! dt)) = Ok e_n ->
  math_exp ((-! r) *! (of_int (n + 1) *! dt)) = Ok e_np1 ->
  step_value math_exp option_type Smax K r dt A B C M n V = Ok row ->
  let b0 := boundary_at_zero option_type K in
  let bM := boundary_at_Smax option_type Smax K in
  row !! 0%nat = Some (b0 e_np1) /\
  row !! M = Some (bM e_np1) /\
  py_slice row 1 M
  = spec_thomas (lower_L dt A) (diag_L dt B) (upper_L dt C)
      (assemble_rhs dt A B C M
         (<[M := bM e_n]> (<[0%nat := b0 e_n]> V))
         (b0 e_n) (bM e_n) (b0 e_np1) (bM e_np1)).
Proof.
  intros HM HB Hen Henp1 Hstep b0 bM.
  pose proof (step_value_length math_exp _ _ _ _ _ A B C M n V row HM HB Hstep)
    as Hlen.
  unfold step_value in Hstep.
  rewrite (boundary_ok option_type Smax K r _ e_n Hen) in Hstep.
  rewrite (boundary_ok option_type Smax K r _ e_np1 Henp1) in Hstep.
  simpl in Hstep. injection Hstep as <-. fold b0 bM in Hlen |- *.
  set (xs := spec_thomas _ _ _ _) in *.
  assert (length xs = (M - 1)%nat) as Hxs.
  { simpl in Hlen. rewrite length_app in Hlen. simpl in Hlen. lia. }
  split; [done|]. split.
  - replace M with (S (length xs)) by lia. simpl.
    by apply list_lookup_middle.
  - unfold py_slice. replace (M - 1)%nat with (length xs) by lia.
    change (drop 1 (b0 e_np1 :: xs ++ [bM e_np1])) with (xs ++ [bM e_np1]).
    by rewrite take_app_length.
Qed.

Lemma engine_rows h (S0 K T r sigma : F) (option_type : string)
    (Mo No : option Z) (Smax : option F) :
  let M := default DEFAULT_PRICE_STEPS Mo in
  let N := default DEFAULT_TIME_STEPS No in
  let Sx := resolve_Smax Smax S0 K in
  let dt := T /! of_int N in
  let A := grid_A sigma r Sx M in
  let B := grid_B sigma r Sx M in
  let C := grid_C sigma r Sx M in
  let b0 := boundary_at_zero option_type K in
  let bM := boundary_at_Smax option_type Sx K in
  validate_option_inputs S0 K T sigma = Ok tt ->
  option_type = "call" \/ option_type = "put" ->
  3 <= M -> 1 <= N ->
  (forall n, 0 <= n <= N ->
     exists e, math_exp ((-! r) *! (of_int n *! dt)) = Ok e) ->
  exists price info rows h',
    price_european_fixed_grid math_exp np_interp S0 K T r sigma option_type
      Mo No Smax true h = (Ok (PriceInfo price info), h') /\
    info_surface info = Some rows /\
    length rows = Z.to_nat (N + 1) /\
    forall n : nat, Z.of_nat n < N ->
      exists prev row e_n e_np1,
        math_exp ((-! r) *! (of_int (Z.of_nat n) *! dt)) = Ok e_n /\
        math_exp ((-! r) *! (of_int (Z.of_nat n + 1) *! dt)) = Ok e_np1 /\
        rows !! n = Some prev /\ rows !! S n = Some row /\
        row !! 0%nat = Some (b0 e_np1) /\
        row !! Z.to_nat M = Some (bM e_np1) /\
        py_slice row 1 (Z.to_nat M)
        = spec_thomas (lower_L dt A) (diag_L dt B) (upper_L dt C)
            (assemble_rhs dt A B C (Z.to_nat M)
               (<[Z.to_nat M := bM e_n]> (<[0%nat := b0 e_n]> prev))
               (b0 e_n) (bM e_n) (b0 e_np1) (bM e_np1)).
Proof.
  intros M N Sx dt A B C b0 bM Hvalid Hopt HM HN Hexp.
  set (V0 := payoff option_type K (grid_S Sx M)).
  destruct (steps_values_total
              (step_value math_exp option_type Sx K r dt A B C (Z.to_nat M))
              (range_up 0 N) V0) as [rows Hrows].
  { intros n V Hn. unfold range_up in Hn.
    apply list_elem_of_fmap in Hn as (k & -> & Hk%elem_of_seq).
    destruct (Hexp (0 + Z.of_nat k)) as [e_n Hen]; [lia|].
    destruct (Hexp (0 + Z.of_nat k + 1)) as [e_np1 Henp1]; [lia|].
    unfold step_value.
    rewrite (boundary_ok option_type Sx K r _ e_n Hen).
    rewrite (boundary_ok option_type Sx K r _ e_np1 Henp1). by eexists. }
  destruct (engine_run math_exp np_interp h S0 K T r sigma option_type
              Mo No Smax true rows Hvalid Hopt HM HN Hrows)
    as (h' & Hrun & _).
  do 2 eexists. exists (V0 :: rows), h'. split; [exact Hrun|].
  split; [done|]. split.
  { simpl. rewrite (steps_values_length _ _ _ _ Hrows), range_up_length. lia. }
  intros n Hn.
  destruct (steps_values_lookup _ _ _ _ n (Z.of_nat n) Hrows)
    as (prev & row & Hprev & Hrow & Hstep).
  { by rewrite range_up_lookup by lia. }
  destruct (Hexp (Z.of_nat n)) as [e_n Hen]; [lia|].
  destruct (Hexp (Z.of_nat n + 1)) as [e_np1 Henp1]; [lia|].
  exists prev, row, e_n, e_np1.
  destruct (step_value_row option_type Sx K r dt A B C (Z.to_nat M)
              (Z.of_nat n) prev row e_n e_np1) as (H0 & H1 & H2);
    try done.
  { lia. }
  { unfold B. rewrite grid_B_length. lia. }
Qed.

End BoundaryRows.

(** C3.  On valid inputs whose exponentials [exp(-r * n * dt)],
    [n = 0 .. N], are in range, a call with [return_grid] returns a
    surface of [N+1] rows, and for every time step [n = 0 .. N-1] row
    [n+1], the value vector after that step, holds at index [0] and at
    index [M] the boundary formulas at [tau_(n+1)] (call: [0] and
    [Smax - K*exp(-r*tau)]; put: [K*exp(-r*tau)] and [0]); its entries
    [1 .. M-1], and only those, are the output of the tridiagonal solve of
    that step. *)
Theorem boundary_values_exact :
  forall (F : Type) (HA : Arith F) (math_exp : F -> result F)
         (np_interp : F -> list F -> list F -> F)
         (h : gmap loc (list F)) (S0 K T r sigma : F) (option_type : string)
         (Mo No : option Z) (Smax : option F),
    let M := default DEFAULT_PRICE_STEPS Mo in
    let N := default DEFAULT_TIME_STEPS No in
    let Sx := resolve_Smax Smax S0 K in
    let dt := T /! of_int N in
    let A := grid_A sigma r Sx M in
    let B := grid_B sigma r Sx M in
    let C := grid_C sigma r Sx M in
    let b0 := boundary_at_zero option_type K in
    let bM := boundary_at_Smax option_type Sx K in
    validate_option_inputs S0 K T sigma = Ok tt ->
    option_type = "call" \/ option_type = "put" ->
    3 <= M -> 1 <= N ->
    (forall n, 0 <= n <= N ->
       exists e, math_exp ((-! r) *! (of_int n *! dt)) = Ok e) ->
    exists price info rows h',
      price_european_fixed_grid math_exp np_interp S0 K T r sigma option_type
        Mo No Smax true h = (Ok (PriceInfo price info), h') /\
      info_surface info = Some rows /\
      length rows = Z.to_nat (N + 1) /\
      forall n : nat, Z.of_nat n < N ->
        exists prev row e_n e_np1,
          math_exp ((-! r) *! (of_int (Z.of_nat n) *! dt)) = Ok e_n /\
          math_exp ((-! r) *! (of_int (Z.of_nat n + 1) *! dt)) = Ok e_np1 /\
          rows !! n = Some prev /\ rows !! S n = Some row /\
          row !! 0%nat = Some (b0 e_np1) /\
          row !! Z.to_nat M = Some (bM e_np1) /\
          py_slice row 1 (Z.to_nat M)
          = spec_thomas (lower_L dt A) (diag_L dt B) (upper_L dt C)
              (assemble_rhs dt A B C (Z.to_nat M)
                 (<[Z.to_nat M := bM e_n]> (<[0%nat := b0 e_n]> prev))
                 (b0 e_n) (bM e_n) (b0 e_np1) (bM e_np1)).
Proof. intros. by apply engine_rows. Qed.

Lemma boundary_values_exact_witness :
  exists price info rows h',
    price_european_fixed_grid real_exp linear_interp 100%R 100%R 1%R
      (1 / 20)%R (1 / 5)%R "call" (Some 3) (Some 1) None true ∅
    = (Ok (PriceInfo price info), h') /\
    info_surface info = Some rows /\ length rows = 2%nat.
Proof.
  destruct (boundary_values_exact R R_arith real_exp linear_interp ∅
              100%R 100%R 1%R (1 / 20)%R (1 / 5)%R "call"
              (Some 3) (Some 1) None)
    as (price & info & rows & h' & Hrun & Hsurf & Hlen & _).
  - unfold validate_option_inputs. simpl. unfold Rleb.
    repeat (destruct (Rle_dec _ _); [lra|]). reflexivity.
  - by left.
  - simpl. lia.
  - simpl. lia.
  - intros n Hn. by eexists.
  - exists price, info, rows, h'. by repeat split.
Defined.

(** * Further properties of the solver, the engine and the other modules *)

(** ** [_thomas_solve] on arrays that are too short *)

Section ThomasShort.
Context {F : Type} `{Arith F}.
Implicit Types (h : gmap loc (list F)) (bv cv dv yv : list F).

Lemma bind_assoc {A B C} (m : Prog (F := F) A) (k1 : A -> Prog B)
    (k2 : B -> Prog C) h :
  bind (bind m k1) k2 h = bind m (fun a => bind (k1 a) k2) h.
Proof. unfold bind. by destruct (m h) as [[a|e] h']. Qed.

Lemma bind_ext {A B} (m : Prog (F := F) A) (k1 k2 : A -> Prog B) h :
  (forall a h', k1 a h' = k2 a h') -> bind m k1 h = bind m k2 h.
Proof. intros Hk. unfold bind. by destruct (m h) as [[a|e] h']. Qed.

Lemma for_each_app (xs ys : list Z) (body : Z -> Prog (F := F) unit) h :
  for_each (xs ++ ys) body h
  = bind (for_each xs body) (fun _ => for_each ys body) h.
Proof.
  revert h. induction xs as [|i xs IH]; intros h; simpl; [done|].
  rewrite bind_assoc. apply bind_ext. intros _ h'. apply IH.
Qed.

Lemma getitem_out h (l : loc) (a : list F) (i : Z) :
  h !! l = Some a -> Z.of_nat (length a) <= i ->
  getitem l i h = (Raise (IndexError "index out of bounds"), h).
Proof.
  intros Hl Hi. unfold getitem. rewrite (bind_ok _ _ _ _ _ (load_ok _ _ _ Hl)).
  unfold py_index. destruct (Z.leb_spec 0 i); [|lia].
  by destruct (Z.ltb_spec i (Z.of_nat (length a))); [lia|].
Qed.

(** The forward step [k] when the sub- or the super-diagonal has no entry
    [k-1]. *)
Lemma forward_body_short h (b c d y : loc) bv cv dv yv (k : nat) :
  h !! b = Some bv -> h !! c = Some cv ->
  h !! d = Some dv -> h !! y = Some yv ->
  (1 <= k)%nat -> (k < length dv)%nat ->
  (length bv <= k - 1 \/ length cv <= k - 1)%nat ->
  forward_body b c d y (Z.of_nat k) h
  = (Raise (IndexError "index out of bounds"), h).
Proof.
  intros Hb Hc Hd Hy Hk1 Hkd Hshort. unfold forward_body.
  destruct (decide (length bv <= k - 1)%nat) as [Hlb|Hlb].
  { rewrite (bind_raise _ _ _ _ _ (getitem_out h b bv (Z.of_nat k - 1) Hb ltac:(lia))). done. }
  assert (length cv <= k - 1)%nat as Hlc by lia.
  assert (Z.to_nat (Z.of_nat k - 1) = (k - 1)%nat) as Hk' by lia.
  rewrite (bind_ok _ _ _ _ _ (getitem_ok h b bv (Z.of_nat k - 1) (k - 1) Hb
    ltac:(rewrite py_index_nonneg by lia; by rewrite Hk'))).
  rewrite (bind_ok _ _ _ _ _ (getitem_ok h d dv (Z.of_nat k - 1) (k - 1) Hd
    ltac:(rewrite py_index_nonneg by lia; by rewrite Hk'))).
  rewrite (bind_ok _ _ _ _ _ (getitem_ok h d dv (Z.of_nat k) k Hd
    ltac:(rewrite py_index_nonneg by lia; by rewrite Nat2Z.id))).
  rewrite (bind_raise _ _ _ _ _ (getitem_out h c cv (Z.of_nat k - 1) Hc ltac:(lia))). done.
Qed.

(** With a sub- or a super-diagonal of fewer than [n-1] entries the
    forward loop reads past its end. *)
Lemma thomas_short h (lower diag upper rhs : loc) bv dv cv yv :
  h !! lower = Some bv -> h !! diag = Some dv ->
  h !! upper = Some cv -> h !! rhs = Some yv ->
  length yv = length dv ->
  (length bv < length dv - 1 \/ length cv < length dv - 1)%nat ->
  observe (_thomas_solve lower diag upper rhs) h
  = Raise (IndexError "index out of bounds").
Proof.
  intros Hb Hd Hc Hy Hlen Hshort. unfold observe, _thomas_solve.
  rewrite (bind_ok _ _ _ _ _ (np_size_ok _ _ _ Hd)).
  rewrite (bind_ok _ _ _ _ _ (np_size_ok _ _ _ Hy)).
  rewrite Hlen, Nat.eqb_refl. simpl.
  set (n := length dv) in *.
  destruct (private_copy_run h upper cv Hc) as (c & h1 & Hr1 & Hc0 & Hc1 & Hs1).
  rewrite (bind_ok _ _ _ _ _ Hr1).
  destruct (private_copy_run h1 diag dv (lookup_weaken _ _ _ _ Hd Hs1))
    as (d & h2 & Hr2 & Hd1 & Hd2 & Hs2).
  rewrite (bind_ok _ _ _ _ _ Hr2).
  destruct (private_copy_run h2 lower bv
              (lookup_weaken _ _ _ _ (lookup_weaken _ _ _ _ Hb Hs1) Hs2))
    as (b & h3 & Hr3 & Hb2 & Hb3 & Hs3).
  rewrite (bind_ok _ _ _ _ _ Hr3).
  destruct (private_copy_run h3 rhs yv
              (lookup_weaken _ _ _ _ (lookup_weaken _ _ _ _
                 (lookup_weaken _ _ _ _ Hy Hs1) Hs2) Hs3))
    as (y & h4 & Hr4 & Hy3 & Hy4 & Hs4).
  rewrite (bind_ok _ _ _ _ _ Hr4).
  pose proof (lookup_weaken _ _ _ _ Hc1 Hs2) as Hc2.
  pose proof (lookup_weaken _ _ _ _ Hc2 Hs3) as Hc3.
  pose proof (lookup_weaken _ _ _ _ Hc3 Hs4) as Hc4.
  pose proof (lookup_weaken _ _ _ _ Hd2 Hs3) as Hd3.
  pose proof (lookup_weaken _ _ _ _ Hd3 Hs4) as Hd4.
  pose proof (lookup_weaken _ _ _ _ Hb3 Hs4) as Hb4.
  assert (c <> d) as Hcd by (intros ->; congruence).
  assert (c <> y) as Hcy by (intros ->; congruence).
  assert (b <> d) as Hbd by (intros ->; congruence).
  assert (d <> y) as Hdy by (intros ->; congruence).
  assert (b <> y) as Hby by (intros ->; congruence).
  (* the steps before the first missing entry, then the step that fails *)
  set (k0 := (length bv `min` length cv)%nat).
  change 1 with (Z.of_nat 1). rewrite range_up_seq.
  replace (n - 1)%nat with (k0 + S (n - 2 - k0))%nat by lia.
  rewrite seq_app, map_app. simpl seq. rewrite map_cons.
  destruct (forward_loop_run b c d y bv cv n (seq 1 k0)
              Hdy Hbd Hby Hcd Hcy) with (h := h4) (dv := dv) (yv := yv)
    as (h5 & Hr5 & Hd5 & Hy5 & Hfr5); try done.
  { apply Forall_forall. intros k Hk%elem_of_seq. lia. }
  destruct (forward_sweep_length bv cv (seq 1 k0) dv yv) as [Hl1 Hl2].
  match goal with
  | |- context [bind (for_each (?xs ++ ?j :: ?ys) ?body) ?k ?hh] =>
      assert (for_each (xs ++ j :: ys) body hh
              = (Raise (IndexError "index out of bounds"), h5)) as Hloop
  end.
  { rewrite for_each_app, (bind_ok _ _ _ _ _ Hr5). simpl.
    rewrite (bind_raise _ _ _ _ _
      (forward_body_short h5 b c d y bv cv _ _ (1 + k0)
         ltac:(rewrite Hfr5; done) ltac:(rewrite Hfr5; done) Hd5 Hy5
         ltac:(lia) ltac:(rewrite Hl1; lia) ltac:(lia))).
    done. }
  by rewrite (bind_raise _ _ _ _ _ Hloop).
Qed.

(** With a right-hand side as long as the main diagonal, the outcome is
    decided by the lengths alone. *)
Lemma thomas_index_error h (lower diag upper rhs : loc) bv dv cv yv :
  h !! lower = Some bv -> h !! diag = Some dv ->
  h !! upper = Some cv -> h !! rhs = Some yv ->
  length yv = length dv ->
  (exists msg, observe (_thomas_solve lower diag upper rhs) h
               = Raise (IndexError msg))
  <-> (length dv = 0 \/ length bv < length dv - 1
       \/ length cv < length dv - 1)%nat.
Proof.
  intros Hb Hd Hc Hy Hlen. split.
  - intros [msg Hmsg].
    destruct (decide (length dv = 0 \/ length bv < length dv - 1
                      \/ length cv < length dv - 1)%nat) as [|Hn]; [done|].
    rewrite (observe_thomas_ok h lower diag upper rhs bv dv cv yv) in Hmsg
      by (try done; lia).
    discriminate Hmsg.
  - intros [Hz|Hshort].
    + destruct dv; [|done]. destruct yv; [|done]. eexists.
      by apply (thomas_empty h lower diag upper rhs bv cv).
    + eexists. by apply (thomas_short h lower diag upper rhs bv dv cv yv).
Qed.

End ThomasShort.

(** X1.  Given a right-hand side as long as the main diagonal (length
    [n]), [_thomas_solve] raises an [IndexError] exactly when [n = 0] (the
    read [y[-1]] of line 31) or when the sub- or the super-diagonal has
    fewer than [n-1] entries (the reads [b[i-1]], [c[i-1]] of lines 26-27);
    it then returns nothing, and it never raises one otherwise. *)
Theorem thomas_solve_index_error :
  forall (F : Type) (HA : Arith F) (h : gmap loc (list F))
         (lower diag upper rhs : loc) (bv dv cv yv : list F),
    h !! lower = Some bv -> h !! diag = Some dv ->
    h !! upper = Some cv -> h !! rhs = Some yv ->
    length yv = length dv ->
    ((exists msg, observe (_thomas_solve lower diag upper rhs) h
                  = Raise (IndexError msg))
     <-> (length dv = 0 \/ length bv < length dv - 1
          \/ length cv < length dv - 1)%nat).
Proof.
  intros F HA h lower diag upper rhs bv dv cv yv Hb Hd Hc Hy Hlen.
  by apply (thomas_index_error h lower diag upper rhs bv dv cv yv).
Qed.

Lemma thomas_solve_index_error_witness :
  (exists msg,
     observe (_thomas_solve 1%positive 2%positive 3%positive 4%positive)
       (store4 [1%float] [2%float; 2%float; 2%float] [1%float; 1%float]
               [1%float; 1%float; 1%float])
     = Raise (IndexError msg))
  <-> (length [2%float; 2%float; 2%float] = 0
       \/ length [1%float] < length [2%float; 2%float; 2%float] - 1
       \/ length [1%float; 1%float]
          < length [2%float; 2%float; 2%float] - 1)%nat.
Proof.
  apply (thomas_solve_index_error float float_arith
           (store4 [1%float] [2%float; 2%float; 2%float] [1%float; 1%float]
                   [1%float; 1%float; 1%float])
           1%positive 2%positive 3%positive 4%positive
           [1%float] [2%float; 2%float; 2%float] [1%float; 1%float]
           [1%float; 1%float; 1%float]); reflexivity.
Defined.

(** ** Strictly dominant systems have non-zero pivots *)

Section Dominant.
Implicit Types (bv cv dv yv : list R).

Lemma quotient_bound (b p c : R) :
  (Rabs c < Rabs p)%R -> (Rabs (b / p * c) <= Rabs b)%R.
Proof.
  intros Hc. pose proof (Rabs_pos c) as Hc0. pose proof (Rabs_pos b) as Hb0.
  assert (p <> 0)%R as Hp.
  { intros ->. rewrite Rabs_R0 in Hc. lra. }
  unfold Rdiv. rewrite !Rabs_mult, Rabs_inv.
  assert (Rabs c * / Rabs p <= 1)%R as Hq.
  { apply (Rmult_le_reg_r (Rabs p)); [lra|].
    rewrite Rmult_assoc, Rinv_l by lra. lra. }
  replace (Rabs b * / Rabs p * Rabs c)%R
    with (Rabs b * (Rabs c * / Rabs p))%R by ring.
  nra.
Qed.

(** Every pivot exceeds, in modulus, the super-diagonal entry of its
    row. *)
Lemma dominant_pivots bv dv cv yv :
  length yv = length dv -> strictly_dominant bv dv cv ->
  forall i, (i < length dv)%nat ->
    ((if decide (S i < length dv)%nat then Rabs (cv !!! i) else 0)
     < Rabs (pivots bv dv cv yv !!! i))%R.
Proof.
  intros Hlen Hdom. unfold pivots.
  destruct (forward_sweep_rec bv dv cv yv Hlen) as (_ & _ & Hd0 & _ & Hrec).
  set (st := spec_forward_sweep bv dv cv yv (length dv)) in *.
  induction i as [|j IH]; intros Hi.
  - rewrite Hd0. specialize (Hdom 0%nat Hi). unfold off_diagonal_sum in Hdom.
    simpl in Hdom. lra.
  - destruct (Hrec (S j)) as [Hp _]; [lia|]. simpl in Hp.
    rewrite !Nat.sub_0_r in Hp. rewrite Hp.
    specialize (IH ltac:(lia)).
    destruct (decide (S j < length dv)%nat) as [_|]; [|lia].
    pose proof (quotient_bound (bv !!! j) (st.1 !!! j) (cv !!! j) IH) as Hq.
    specialize (Hdom (S j) Hi). unfold off_diagonal_sum in Hdom.
    destruct (decide (S j = 0%nat)) as [|_]; [lia|].
    replace (S j - 1)%nat with j in Hdom by lia.
    pose proof (Rabs_triang_inv (dv !!! S j)
                  (bv !!! j / st.1 !!! j * cv !!! j)) as Htri.
    lra.
Qed.

Lemma dominant_pivots_nonzero bv dv cv yv :
  length yv = length dv -> strictly_dominant bv dv cv ->
  Forall (fun p => p <> 0%R) (pivots bv dv cv yv).
Proof.
  intros Hlen Hdom. apply Forall_lookup_2. intros i p Hp.
  assert (i < length dv)%nat as Hi.
  { apply lookup_lt_Some in Hp. unfold pivots in Hp.
    by destruct (forward_sweep_rec bv dv cv yv Hlen) as (<- & _). }
  pose proof (dominant_pivots bv dv cv yv Hlen Hdom i Hi) as Hlt.
  rewrite (list_lookup_total_correct _ _ _ Hp) in Hlt.
  intros ->. rewrite Rabs_R0 in Hlt.
  destruct (decide (S i < length dv)%nat); [|lra].
  pose proof (Rabs_pos (cv !!! i)). lra.
Qed.

End Dominant.

(** X2.  In exact arithmetic, on a strictly diagonally dominant system
    (in every row the modulus of the diagonal entry exceeds the sum of
    the moduli of the off-diagonal entries) no pivot of the forward sweep
    is zero: [_thomas_solve] returns, and the vector it returns solves
    the tridiagonal system. *)
Theorem thomas_solves_dominant_system :
  forall (h : gmap loc (list R)) (lower diag upper rhs : loc)
         (bv dv cv yv : list R),
    h !! lower = Some bv -> h !! diag = Some dv ->
    h !! upper = Some cv -> h !! rhs = Some yv ->
    length yv = length dv -> (1 <= length dv)%nat ->
    length bv = (length dv - 1)%nat -> length cv = (length dv - 1)%nat ->
    strictly_dominant bv dv cv ->
    Forall (fun p => p <> 0%R) (pivots bv dv cv yv) /\
    exists x, observe (_thomas_solve lower diag upper rhs) h = Ok x /\
              solves_tridiagonal bv dv cv yv x.
Proof.
  intros h lower diag upper rhs bv dv cv yv Hb Hd Hc Hy Hlen Hn Hlb Hlc Hdom.
  pose proof (dominant_pivots_nonzero bv dv cv yv Hlen Hdom) as Hp.
  split; [done|]. exists (spec_thomas bv dv cv yv). split.
  - apply observe_thomas_ok; try done; lia.
  - by apply thomas_solves.
Qed.

Lemma thomas_solves_dominant_system_witness :
  exists x,
    observe (_thomas_solve 1%positive 2%positive 3%positive 4%positive)
      (store4 [(-1)%R; (-1)%R] [3%R; 3%R; 3%R] [(-1)%R; (-1)%R]
              [1%R; 0%R; 1%R]) = Ok x /\
    solves_tridiagonal [(-1)%R; (-1)%R] [3%R; 3%R; 3%R] [(-1)%R; (-1)%R]
      [1%R; 0%R; 1%R] x.
Proof.
  apply (thomas_solves_dominant_system
           (store4 [(-1)%R; (-1)%R] [3%R; 3%R; 3%R] [(-1)%R; (-1)%R]
                   [1%R; 0%R; 1%R])
           1%positive 2%positive 3%positive 4%positive
           [(-1)%R; (-1)%R] [3%R; 3%R; 3%R] [(-1)%R; (-1)%R]
           [1%R; 0%R; 1%R]); try first [reflexivity | simpl; lia].
  intros i Hi. unfold off_diagonal_sum.
  destruct i as [|[|[|i]]]; simpl in *; try lia;
    unfold Rabs; repeat destruct (Rcase_abs _); lra.
Defined.

(** ** With non-zero pivots the system has one solution *)

Section Unique.
Implicit Types (bv cv dv yv x : list R).

Lemma solution_is_sweep_result bv dv cv yv x :
  length yv = length dv -> (1 <= length dv)%nat ->
  Forall (fun p => p <> 0%R) (pivots bv dv cv yv) ->
  solves_tridiagonal bv dv cv yv x ->
  x = spec_thomas bv dv cv yv.
Proof.
  intros Hlen Hn Hpiv [Hlx Hrows].
  pose proof (spec_thomas_length bv dv cv yv Hlen Hn) as Hlo.
  unfold pivots in Hpiv. unfold spec_thomas in *.
  destruct (forward_sweep_rec bv dv cv yv Hlen)
    as (Hl1 & Hl2 & Hd0 & Hy0 & Hrec).
  set (st := spec_forward_sweep bv dv cv yv (length dv)) in *.
  destruct (backward_sweep_rec cv st.1 st.2 (length dv) Hn)
    as (_ & Hlast & Hback).
  set (out := spec_backward_sweep cv st.1 st.2 (length dv)) in *.
  assert (forall i, (i < length dv)%nat -> st.1 !!! i <> 0%R) as Hnz.
  { intros i Hi. eapply Forall_lookup_total_1; [exact Hpiv|]. lia. }
  (* the rows of the swept system hold of [x] *)
  assert (forall i, (i < length dv)%nat ->
            st.1 !!! i * x !!! i
            + (if decide (S i < length dv)%nat
               then cv !!! i * x !!! (i + 1)%nat else 0)
            = st.2 !!! i)%R as Hswept.
  { induction i as [|j IH]; intros Hi.
    - specialize (Hrows 0%nat Hi). unfold tridiag_row in Hrows.
      simpl in Hrows. rewrite Hd0, Hy0. simpl.
      destruct (decide (1 < length dv)%nat); lra.
    - specialize (IH ltac:(lia)).
      destruct (decide (S j < length dv)%nat) as [_|]; [|lia].
      replace (j + 1)%nat with (S j) in IH by lia.
      specialize (Hrows (S j) Hi). unfold tridiag_row in Hrows.
      simpl in Hrows. rewrite Nat.sub_0_r in Hrows.
      destruct (Hrec (S j)) as [Hp Hy]; [lia|]. simpl in Hp, Hy.
      rewrite !Nat.sub_0_r in Hp, Hy.
      pose proof (Hnz j ltac:(lia)) as Hpj.
      set (W := (bv !!! j / st.1 !!! j)%R) in *.
      assert (bv !!! j = W * st.1 !!! j)%R as HB by (unfold W; by field).
      rewrite Hp, Hy. rewrite HB in Hrows.
      rewrite ?Nat.add_1_r in Hrows |- *.
      destruct (decide (S (S j) < length dv)%nat); nra. }
  (* so [x] obeys the recurrence of the backward sweep *)
  assert (forall k, (k < length dv)%nat ->
            x !!! (length dv - 1 - k)%nat = out !!! (length dv - 1 - k)%nat)
    as Heq.
  { induction k as [|k IH]; intros Hk.
    - rewrite Nat.sub_0_r, Hlast.
      pose proof (Hswept (length dv - 1)%nat ltac:(lia)) as Hs.
      destruct (decide (S (length dv - 1) < length dv)%nat); [lia|].
      pose proof (Hnz (length dv - 1)%nat ltac:(lia)).
      simpl. apply (Rmult_eq_reg_l (st.1 !!! (length dv - 1)%nat)); [|done].
      rewrite <- Hs. field. done.
    - specialize (IH ltac:(lia)).
      set (i := (length dv - 1 - S k)%nat) in *.
      replace (length dv - 1 - k)%nat with (i + 1)%nat in IH by lia.
      rewrite (Hback i) by lia. rewrite <- IH.
      pose proof (Hswept i ltac:(lia)) as Hs.
      destruct (decide (S i < length dv)%nat); [|lia].
      pose proof (Hnz i ltac:(lia)).
      simpl. apply (Rmult_eq_reg_l (st.1 !!! i)); [|done].
      rewrite <- Hs. field. done. }
  apply (list_eq_same_length _ _ (length dv)); [done|done|].
  intros i a b Hi Ha Hb.
  rewrite <- (list_lookup_total_correct _ _ _ Ha).
  rewrite <- (list_lookup_total_correct _ _ _ Hb).
  replace i with (length dv - 1 - (length dv - 1 - i))%nat by lia.
  apply Heq. lia.
Qed.

End Unique.

(** X3.  In exact arithmetic, when no pivot of the forward sweep is
    zero, the system has exactly one solution and [_thomas_solve] returns
    it: every vector that solves the tridiagonal system is the vector the
    call returns. *)
Theorem thomas_returns_the_solution :
  forall (h : gmap loc (list R)) (lower diag upper rhs : loc)
         (bv dv cv yv x : list R),
    h !! lower = Some bv -> h !! diag = Some dv ->
    h !! upper = Some cv -> h !! rhs = Some yv ->
    length yv = length dv -> (1 <= length dv)%nat ->
    length bv = (length dv - 1)%nat -> length cv = (length dv - 1)%nat ->
    Forall (fun p => p <> 0%R) (pivots bv dv cv yv) ->
    solves_tridiagonal bv dv cv yv x ->
    observe (_thomas_solve lower diag upper rhs) h = Ok x.
Proof.
  intros h lower diag upper rhs bv dv cv yv x Hb Hd Hc Hy Hlen Hn Hlb Hlc
    Hpiv Hsol.
  rewrite (solution_is_sweep_result bv dv cv yv x Hlen Hn Hpiv Hsol).
  apply observe_thomas_ok; try done; lia.
Qed.

Lemma thomas_returns_the_solution_witness :
  observe (_thomas_solve 1%positive 2%positive 3%positive 4%positive)
    (store4 [1%R] [2%R; 2%R] [1%R] [3%R; 3%R]) = Ok [1%R; 1%R].
Proof.
  apply (thomas_returns_the_solution
           (store4 [1%R] [2%R; 2%R] [1%R] [3%R; 3%R])
           1%positive 2%positive 3%positive 4%positive
           [1%R] [2%R; 2%R] [1%R] [3%R; 3%R] [1%R; 1%R]);
    try first [reflexivity | simpl; lia].
  - unfold pivots, spec_forward_sweep, spec_forward_step. simpl.
    repeat constructor; lra.
  - split; [reflexivity|]. intros i Hi. unfold tridiag_row.
    destruct i as [|[|i]]; simpl in *; try lia; lra.
Defined.

(** ** A pricing call that fails, fails in [math.exp] *)

Section EngineOutcome.
Context {F : Type} `{Arith F}.
Variable math_exp : F -> result F.
Variable np_interp : F -> list F -> list F -> F.
Implicit Types (h : gmap loc (list F)) (V A B C : list F).

Lemma boundary_raise option_type (Smax K r tau : F) e :
  boundary math_exp option_type Smax K r tau = Raise e
  <-> math_exp ((-! r) *! tau) = Raise e.
Proof.
  unfold boundary. destruct (math_exp ((-! r) *! tau)) as [v|e'].
  - destruct (String.eqb option_type "call"); split; done.
  - split; by intros [= ->].
Qed.

Lemma boundary_returns option_type (Smax K r tau : F) :
  is_ok (boundary math_exp option_type Smax K r tau)
  = is_ok (math_exp ((-! r) *! tau)).
Proof.
  unfold boundary. destruct (math_exp ((-! r) *! tau)) as [v|e']; [|done].
  by destruct (String.eqb option_type "call").
Qed.

(** A pass whose boundary values cannot be computed raises the exception
    of [math.exp], before any array is built. *)
Lemma time_step_raise h option_type (Smax K r dt : F) A B C (M : nat)
    (lL dL uL : loc) (n : Z) V e :
  step_value math_exp option_type Smax K r dt A B C M n V = Raise e ->
  time_step math_exp option_type Smax K r dt A B C M lL dL uL n V h
  = (Raise e, h).
Proof.
  unfold step_value, time_step.
  destruct (boundary math_exp option_type Smax K r (of_int n *! dt))
    as [bn|e1]; [|by intros [= ->]].
  destruct (boundary math_exp option_type Smax K r (of_int (n + 1) *! dt))
    as [bnp1|e2]; [done|by intros [= ->]].
Qed.

Lemma step_value_raise option_type (Smax K r dt : F) A B C (M : nat)
    (n : Z) V e :
  step_value math_exp option_type Smax K r dt A B C M n V = Raise e ->
  math_exp ((-! r) *! (of_int n *! dt)) = Raise e \/
  math_exp ((-! r) *! (of_int (n + 1) *! dt)) = Raise e.
Proof.
  unfold step_value.
  destruct (boundary math_exp option_type Smax K r (of_int n *! dt))
    as [bn|e1] eqn:H1.
  - destruct (boundary math_exp option_type Smax K r (of_int (n + 1) *! dt))
      as [bnp1|e2] eqn:H2; [done|].
    intros [= ->]. right. by apply boundary_raise in H2.
  - intros [= ->]. left. by apply boundary_raise in H1.
Qed.

Lemma step_value_ok option_type (Smax K r dt : F) A B C (M : nat)
    (n : Z) V V' :
  step_value math_exp option_type Smax K r dt A B C M n V = Ok V' ->
  is_ok (math_exp ((-! r) *! (of_int n *! dt))) = true /\
  is_ok (math_exp ((-! r) *! (of_int (n + 1) *! dt))) = true.
Proof.
  unfold step_value. rewrite <- !(boundary_returns option_type Smax K).
  destruct (boundary math_exp option_type Smax K r (of_int n *! dt));
    [|done].
  by destruct (boundary math_exp option_type Smax K r (of_int (n + 1) *! dt)).
Qed.

Lemma steps_values_raise (step : Z -> list F -> result (list F))
    (ns : list Z) V e :
  steps_values step ns V = Raise e ->
  exists n V0, n ∈ ns /\ step n V0 = Raise e.
Proof.
  revert V. induction ns as [|n ns IH]; intros V; simpl; [done|].
  destruct (step n V) as [V'|e'] eqn:Hstep.
  - destruct (steps_values step ns V') as [rows|e''] eqn:Hrows; [done|].
    intros [= ->]. destruct (IH V' Hrows) as (n' & V0 & Hn' & Hs).
    exists n', V0. split; [by right|done].
  - intros [= ->]. exists n, V. split; [by left|done].
Qed.

(** The loop stops at the first pass that raises. *)
Lemma time_loop_raise option_type (Smax K r dt : F) A B C (M : nat)
    (lL dL uL : loc) (ns : list Z) e :
  (3 <= M)%nat ->
  length A = (M - 1)%nat -> length B = (M - 1)%nat ->
  length C = (M - 1)%nat ->
  forall h V (surface : option (list (list F))),
    length V = (M + 1)%nat ->
    h !! lL = Some (lower_L dt A) -> h !! dL = Some (diag_L dt B) ->
    h !! uL = Some (upper_L dt C) ->
    steps_values (step_value math_exp option_type Smax K r dt A B C M)
      ns V = Raise e ->
    exists h',
      for_fold ns
        (time_loop_body math_exp option_type Smax K r dt A B C M lL dL uL)
        (V, surface) h
      = (Raise e, h').
Proof.
  intros HM HA HB HC.
  induction ns as [|n ns IH]; intros h V surface HV HlL HdL HuL Hrows;
    simpl in Hrows; [done|].
  destruct (step_value _ _ _ _ _ _ _ _ _ _ n V) as [V'|e'] eqn:Hstep.
  - destruct (steps_values _ ns V') as [rows'|e''] eqn:Hrows'; [done|].
    injection Hrows as ->.
    destruct (time_step_run math_exp h option_type Smax K r dt A B C M
                lL dL uL n V V') as (h1 & Hrun & Hsub1); try done.
    destruct (IH h1 V' (option_map (fun done_rows => done_rows ++ [V']) surface))
      as (h' & Hloop); try done.
    { eapply step_value_length; [| |exact Hstep]; [lia|done]. }
    { by eapply lookup_weaken. }
    { by eapply lookup_weaken. }
    { by eapply lookup_weaken. }
    exists h'. simpl.
    assert (time_loop_body math_exp option_type Smax K r dt A B C M
              lL dL uL n (V, surface) h
            = (Ok (V', option_map (fun done_rows => done_rows ++ [V']) surface),
               h1)) as Hbody.
    { unfold time_loop_body. simpl. by rewrite (bind_ok _ _ _ _ _ Hrun). }
    by rewrite (bind_ok _ _ _ _ _ Hbody).
  - injection Hrows as ->. exists h. simpl.
    assert (time_loop_body math_exp option_type Smax K r dt A B C M
              lL dL uL n (V, surface) h = (Raise e, h)) as Hbody.
    { unfold time_loop_body. simpl.
      by rewrite (bind_raise _ _ _ _ _
                    (time_step_raise h _ _ _ _ _ _ _ _ _ lL dL uL _ _ _ Hstep)). }
    by rewrite (bind_raise _ _ _ _ _ Hbody).
Qed.

(** A call on valid inputs one of whose time steps raises. *)
Lemma engine_raise h (S0 K T r sigma : F) (option_type : string)
    (Mo No : option Z) (Smax : option F) (return_grid : bool) e :
  let M := default DEFAULT_PRICE_STEPS Mo in
  let N := default DEFAULT_TIME_STEPS No in
  let Sx := resolve_Smax Smax S0 K in
  let dt := T /! of_int N in
  let V0 := payoff option_type K (grid_S Sx M) in
  validate_option_inputs S0 K T sigma = Ok tt ->
  option_type = "call" \/ option_type = "put" ->
  3 <= M -> 1 <= N ->
  steps_values
    (step_value math_exp option_type Sx K r dt (grid_A sigma r Sx M)
       (grid_B sigma r Sx M) (grid_C sigma r Sx M) (Z.to_nat M))
    (range_up 0 N) V0 = Raise e ->
  exists h',
    price_european_fixed_grid math_exp np_interp S0 K T r sigma option_type
      Mo No Smax return_grid h = (Raise e, h').
Proof.
  intros M N Sx dt V0 Hvalid Hopt HM HN Hrows.
  unfold price_european_fixed_grid. rewrite Hvalid.
  unfold lift at 1. unfold bind at 1.
  replace (negb (String.eqb option_type "call" || String.eqb option_type "put"))
    with false by (by destruct Hopt as [-> | ->]).
  fold M N. destruct (Z.ltb_spec M 3); [lia|].
  destruct (Z.ltb_spec N 1); [lia|].
  change (false || false) with false. cbv iota.
  fold Sx. fold dt. fold (grid_dS Sx M). fold (grid_S Sx M).
  fold (grid_nodes Sx M). fold (grid_A sigma r Sx M).
  fold (grid_B sigma r Sx M). fold (grid_C sigma r Sx M). fold V0.
  set (A := grid_A sigma r Sx M) in *. set (B := grid_B sigma r Sx M) in *.
  set (C := grid_C sigma r Sx M) in *.
  destruct (alloc_run h (lower_L dt A)) as (lL & HrL & HlL).
  rewrite (bind_ok _ _ _ _ _ HrL). set (h1 := <[lL := _]> h).
  destruct (alloc_run h1 (diag_L dt B)) as (dL & HrD & HdL).
  rewrite (bind_ok _ _ _ _ _ HrD). set (h2 := <[dL := _]> h1).
  destruct (alloc_run h2 (upper_L dt C)) as (uL & HrU & HuL).
  rewrite (bind_ok _ _ _ _ _ HrU). set (h3 := <[uL := _]> h2).
  assert (h ⊆ h1) as Hs1 by by apply insert_subseteq.
  assert (h1 ⊆ h2) as Hs2 by by apply insert_subseteq.
  assert (h2 ⊆ h3) as Hs3 by by apply insert_subseteq.
  destruct (time_loop_raise option_type Sx K r dt A B C (Z.to_nat M)
              lL dL uL (range_up 0 N) e) with
    (h := h3) (V := V0)
    (surface := if return_grid then Some [V0] else None)
    as (h' & Hloop); try done.
  { lia. }
  { unfold A. rewrite grid_A_length. lia. }
  { unfold B. rewrite grid_B_length. lia. }
  { unfold C. rewrite grid_C_length. lia. }
  { unfold V0, grid_S. rewrite payoff_length, np_linspace_length. lia. }
  { eapply lookup_weaken; [|exact Hs3]. eapply lookup_weaken; [|exact Hs2].
    apply lookup_insert_eq. }
  { eapply lookup_weaken; [|exact Hs3]. apply lookup_insert_eq. }
  { apply lookup_insert_eq. }
  rewrite (bind_raise _ _ _ _ _ Hloop). by exists h'.
Qed.

Lemma engine_outcome h (S0 K T r sigma : F) (option_type : string)
    (Mo No : option Z) (Smax : option F) (return_grid : bool) :
  let M := default DEFAULT_PRICE_STEPS Mo in
  let N := default DEFAULT_TIME_STEPS No in
  let dt := T /! of_int N in
  let discount n := math_exp ((-! r) *! (of_int n *! dt)) in
  let outcome :=
    (price_european_fixed_grid math_exp np_interp S0 K T r sigma option_type
       Mo No Smax return_grid h).1 in
  validate_option_inputs S0 K T sigma = Ok tt ->
  option_type = "call" \/ option_type = "put" ->
  3 <= M -> 1 <= N ->
  ((forall n, 0 <= n <= N -> is_ok (discount n) = true)
   <-> is_ok outcome = true) /\
  (forall e, outcome = Raise e ->
     exists n, 0 <= n <= N /\ discount n = Raise e).
Proof.
  intros M N dt discount outcome Hvalid Hopt HM HN.
  set (Sx := resolve_Smax Smax S0 K).
  set (V0 := payoff option_type K (grid_S Sx M)).
  set (step := step_value math_exp option_type Sx K r dt (grid_A sigma r Sx M)
                 (grid_B sigma r Sx M) (grid_C sigma r Sx M) (Z.to_nat M)).
  destruct (steps_values step (range_up 0 N) V0) as [rows|e0] eqn:Hrows.
  - destruct (engine_run math_exp np_interp h S0 K T r sigma option_type
                Mo No Smax return_grid rows Hvalid Hopt HM HN Hrows)
      as (h' & Hrun & _).
    assert (is_ok outcome = true) as Hok by (unfold outcome; by rewrite Hrun).
    split; [|intros e He; by rewrite He in Hok].
    split; [done|]. intros _ n Hn.
    destruct (decide (n < N)) as [Hlt|Hge].
    + destruct (steps_values_lookup step (range_up 0 N) V0 rows
                  (Z.to_nat n) n Hrows) as (prev & row & _ & _ & Hstep).
      { rewrite range_up_lookup by lia. f_equal. lia. }
      by apply step_value_ok in Hstep as [? _].
    + destruct (steps_values_lookup step (range_up 0 N) V0 rows
                  (Z.to_nat (N - 1)) (N - 1) Hrows)
        as (prev & row & _ & _ & Hstep).
      { rewrite range_up_lookup by lia. f_equal. lia. }
      apply step_value_ok in Hstep as [_ Hlast].
      replace (N - 1 + 1) with n in Hlast by lia. done.
  - destruct (engine_raise h S0 K T r sigma option_type Mo No Smax
                return_grid e0 Hvalid Hopt HM HN Hrows) as (h' & Hrun).
    assert (outcome = Raise e0) as Hout by (unfold outcome; by rewrite Hrun).
    destruct (steps_values_raise step (range_up 0 N) V0 e0 Hrows)
      as (n & V1 & Hn & Hstep).
    apply list_elem_of_fmap in Hn as (k & -> & Hk%elem_of_seq).
    assert (exists n, 0 <= n <= N /\ discount n = Raise e0) as Hsrc.
    { apply step_value_raise in Hstep as [Hs|Hs].
      - exists (0 + Z.of_nat k). split; [lia|done].
      - exists (0 + Z.of_nat k + 1). split; [lia|done]. }
    split.
    + rewrite Hout. split; [|done]. intros Hall.
      destruct Hsrc as (n & Hn & Hd). specialize (Hall n Hn).
      by rewrite Hd in Hall.
    + intros e He. rewrite Hout in He. by injection He as <-.
Qed.

(** What a call on valid inputs returns: the same price with and
    without [return_grid], and the grid data of that price. *)
Lemma engine_info h (S0 K T r sigma : F) (option_type : string)
    (Mo No : option Z) (Smax : option F) :
  let M := default DEFAULT_PRICE_STEPS Mo in
  let N := default DEFAULT_TIME_STEPS No in
  let Sx := resolve_Smax Smax S0 K in
  let dt := T /! of_int N in
  validate_option_inputs S0 K T sigma = Ok tt ->
  option_type = "call" \/ option_type = "put" ->
  3 <= M -> 1 <= N ->
  (forall n, 0 <= n <= N ->
     is_ok (math_exp ((-! r) *! (of_int n *! dt))) = true) ->
  exists price info rows h1 h2,
    price_european_fixed_grid math_exp np_interp S0 K T r sigma option_type
      Mo No Smax false h = (Ok (Price price), h1) /\
    price_european_fixed_grid math_exp np_interp S0 K T r sigma option_type
      Mo No Smax true h = (Ok (PriceInfo price info), h2) /\
    price = np_interp S0 (info_S_grid info) (info_V_tau_T info) /\
    info_M info = M /\ info_N info = N /\ info_Smax info = Sx /\
    info_dS info = Sx /! of_int M /\ info_dt info = T /! of_int N /\
    info_S_grid info = np_linspace fzero Sx (Z.to_nat (M + 1)) /\
    info_surface info = Some rows /\
    length rows = Z.to_nat (N + 1) /\
    Forall (fun row => length row = Z.to_nat (M + 1)) rows /\
    rows !! 0%nat = Some (payoff option_type K (info_S_grid info)) /\
    last rows = Some (info_V_tau_T info).
Proof.
  intros M N Sx dt Hvalid Hopt HM HN Hexp.
  set (V0 := payoff option_type K (grid_S Sx M)).
  set (step := step_value math_exp option_type Sx K r dt (grid_A sigma r Sx M)
                 (grid_B sigma r Sx M) (grid_C sigma r Sx M) (Z.to_nat M)).
  destruct (steps_values_total step (range_up 0 N) V0) as [rows Hrows].
  { intros n V Hn. unfold range_up in Hn.
    apply list_elem_of_fmap in Hn as (k & -> & Hk%elem_of_seq).
    pose proof (Hexp (0 + Z.of_nat k) ltac:(lia)) as H1.
    pose proof (Hexp (0 + Z.of_nat k + 1) ltac:(lia)) as H2.
    rewrite <- (boundary_returns option_type Sx K) in H1, H2.
    unfold step, step_value.
    destruct (boundary math_exp option_type Sx K r (of_int (0 + Z.of_nat k) *! dt));
      [|done].
    destruct (boundary math_exp option_type Sx K r
                (of_int (0 + Z.of_nat k + 1) *! dt)); [|done].
    by eexists. }
  destruct (engine_run math_exp np_interp h S0 K T r sigma option_type
              Mo No Smax false rows Hvalid Hopt HM HN Hrows)
    as (h1 & Hrun1 & _).
  destruct (engine_run math_exp np_interp h S0 K T r sigma option_type
              Mo No Smax true rows Hvalid Hopt HM HN Hrows)
    as (h2 & Hrun2 & _).
  do 2 eexists. exists (V0 :: rows), h1, h2.
  split; [exact Hrun1|]. split; [exact Hrun2|]. simpl.
  assert (length V0 = Z.to_nat (M + 1)) as HV0.
  { unfold V0, grid_S. by rewrite payoff_length, np_linspace_length. }
  repeat split; try done.
  - rewrite (steps_values_length _ _ _ _ Hrows), range_up_length. lia.
  - apply Forall_cons. split; [done|].
    apply Forall_lookup_2. intros i row Hrow.
    assert (i < length (range_up 0 N))%nat as Hi.
    { rewrite <- (steps_values_length _ _ _ _ Hrows).
      by apply lookup_lt_Some in Hrow. }
    destruct (lookup_lt_is_Some_2 _ _ Hi) as [n Hn].
    destruct (steps_values_lookup step (range_up 0 N) V0 rows i n Hrows Hn)
      as (prev & row' & _ & Hrow' & Hstep).
    assert (row' = row) as -> by congruence.
    assert (length (grid_B sigma r Sx M) = (Z.to_nat M - 1)%nat) as HB
      by (rewrite grid_B_length; lia).
    rewrite (step_value_length math_exp _ _ _ _ _ _ _ _ (Z.to_nat M) n prev
               row ltac:(lia) HB Hstep).
    lia.
  - rewrite last_cons. by destruct (last rows).
Qed.

End EngineOutcome.

(** X4.  On valid inputs (positive spot, strike, time and volatility, a
    known option kind, [M >= 3], [N >= 1]) whose [M] and [N] are below
    [2^1023], the only operation of a pricing call that can fail is
    [math.exp]: the call returns a price exactly when the [N+1] discount
    factors [exp(-r * n * dt)], [n = 0 .. N], can all be computed, and an
    exception it raises is the exception [math.exp] raised on one of
    them.  No array operation and no solve fails.  The bound on [M] and
    [N] is needed: Python converts them to a float in [Smax / M] and
    [T / N] (lines 64-65) and raises [OverflowError] for an int that has
    no binary64 value, where [of_int] of binary64 gives the infinity.
    Arrays are lists here: running out of memory is not modelled. *)
Theorem engine_fails_only_in_exp :
  forall (F : Type) (HA : Arith F) (math_exp : F -> result F)
         (np_interp : F -> list F -> list F -> F)
         (h : gmap loc (list F)) (S0 K T r sigma : F) (option_type : string)
         (Mo No : option Z) (Smax : option F) (return_grid : bool),
    let M := default DEFAULT_PRICE_STEPS Mo in
    let N := default DEFAULT_TIME_STEPS No in
    let dt := T /! of_int N in
    let discount n := math_exp ((-! r) *! (of_int n *! dt)) in
    let outcome :=
      (price_european_fixed_grid math_exp np_interp S0 K T r sigma
         option_type Mo No Smax return_grid h).1 in
    validate_option_inputs S0 K T sigma = Ok tt ->
    option_type = "call" \/ option_type = "put" ->
    3 <= M -> 1 <= N ->
    M < 2 ^ 1023 -> N < 2 ^ 1023 ->
    ((forall n, 0 <= n <= N -> is_ok (discount n) = true)
     <-> is_ok outcome = true) /\
    (forall e, outcome = Raise e ->
       exists n, 0 <= n <= N /\ discount n = Raise e).
Proof. intros. by apply engine_outcome. Qed.

Lemma engine_fails_only_in_exp_witness :
  is_ok (price_european_fixed_grid real_exp linear_interp 100%R 100%R 1%R
           (1 / 20)%R (1 / 5)%R "put" (Some 3) (Some 2) None false ∅).1
  = true.
Proof.
  destruct (engine_fails_only_in_exp R R_arith real_exp linear_interp ∅
              100%R 100%R 1%R (1 / 20)%R (1 / 5)%R "put"
              (Some 3) (Some 2) None false) as [[Hall _] _].
  - unfold validate_option_inputs. simpl. unfold Rleb.
    repeat (destruct (Rle_dec _ _); [lra|]). reflexivity.
  - by right.
  - simpl. lia.
  - simpl. lia.
  - reflexivity.
  - reflexivity.
  - apply Hall. intros n Hn. reflexivity.
Defined.


(** X5.  On valid inputs whose discount factors can be computed, the
    flag [return_grid] does not change the price: the call without it
    returns the price the call with it returns, and that price is
    [np.interp(S0, S_grid, V_tau_T)] of the returned grid and final
    values.  The returned data are those of the computation: [M] and [N]
    (200 each by default), the resolved [Smax], [dS = Smax / M],
    [dt = T / N], the grid [np.linspace(0, Smax, M + 1)], and a surface of
    [N+1] rows of [M+1] values whose first row is the payoff on the grid
    and whose last row is [V_tau_T]. *)
Theorem return_grid_keeps_price :
  forall (F : Type) (HA : Arith F) (math_exp : F -> result F)
         (np_interp : F -> list F -> list F -> F)
         (h : gmap loc (list F)) (S0 K T r sigma : F) (option_type : string)
         (Mo No : option Z) (Smax : option F),
    let M := default DEFAULT_PRICE_STEPS Mo in
    let N := default DEFAULT_TIME_STEPS No in
    let Sx := resolve_Smax Smax S0 K in
    let dt := T /! of_int N in
    validate_option_inputs S0 K T sigma = Ok tt ->
    option_type = "call" \/ option_type = "put" ->
    3 <= M -> 1 <= N ->
    (forall n, 0 <= n <= N ->
       is_ok (math_exp ((-! r) *! (of_int n *! dt))) = true) ->
    exists price info rows h1 h2,
      price_european_fixed_grid math_exp np_interp S0 K T r sigma
        option_type Mo No Smax false h = (Ok (Price price), h1) /\
      price_european_fixed_grid math_exp np_interp S0 K T r sigma
        option_type Mo No Smax true h = (Ok (PriceInfo price info), h2) /\
      price = np_interp S0 (info_S_grid info) (info_V_tau_T info) /\
      info_M info = M /\ info_N info = N /\ info_Smax info = Sx /\
      info_dS info = Sx /! of_int M /\ info_dt info = T /! of_int N /\
      info_S_grid info = np_linspace fzero Sx (Z.to_nat (M + 1)) /\
      info_surface info = Some rows /\
      length rows = Z.to_nat (N + 1) /\
      Forall (fun row => length row = Z.to_nat (M + 1)) rows /\
      rows !! 0%nat = Some (payoff option_type K (info_S_grid info)) /\
      last rows = Some (info_V_tau_T info).
Proof. intros. by apply engine_info. Qed.

Lemma return_grid_keeps_price_witness :
  exists price info h1 h2,
    price_european_fixed_grid real_exp linear_interp 100%R 100%R 1%R
      (1 / 20)%R (1 / 5)%R "call" (Some 3) None None false ∅
    = (Ok (Price price), h1) /\
    price_european_fixed_grid real_exp linear_interp 100%R 100%R 1%R
      (1 / 20)%R (1 / 5)%R "call" (Some 3) None None true ∅
    = (Ok (PriceInfo price info), h2) /\
    info_M info = 3 /\ info_N info = 200.
Proof.
  destruct (return_grid_keeps_price R R_arith real_exp linear_interp ∅
              100%R 100%R 1%R (1 / 20)%R (1 / 5)%R "call"
              (Some 3) None None)
    as (price & info & rows & h1 & h2 & Hrun1 & Hrun2 & _ & HM & HN & _).
  - unfold validate_option_inputs. simpl. unfold Rleb.
    repeat (destruct (Rle_dec _ _); [lra|]). reflexivity.
  - by left.
  - simpl. lia.
  - simpl. unfold DEFAULT_TIME_STEPS. lia.
  - intros n Hn. reflexivity.
  - exists price, info, h1, h2. by repeat split.
Defined.

(** ** The grid, in every arithmetic and in exact arithmetic *)

Section GridNodes.
Context {F : Type} `{Arith F}.

(** [np.linspace] sets its last node to [stop]. *)
Lemma grid_S_last (Smax : F) (M : Z) :
  1 <= M -> grid_S Smax M !! Z.to_nat M = Some Smax.
Proof.
  intros HM. unfold grid_S, np_linspace.
  replace (1 <? Z.of_nat (Z.to_nat (M + 1))) with true
    by (symmetry; apply Z.ltb_lt; lia).
  replace (Z.to_nat (M + 1) - 1)%nat with (Z.to_nat M) by lia.
  apply list_lookup_insert_eq.
  repeat case_match; rewrite !length_map, length_seq; lia.
Qed.

End GridNodes.

Section RealGrid.

Lemma grid_S_real (Smax : R) (M : Z) (k : nat) :
  1 <= M -> (k <= Z.to_nat M)%nat ->
  grid_S Smax M !! k = Some (IZR (Z.of_nat k) * (Smax / IZR M))%R.
Proof.
  intros HM Hk.
  assert (IZR M <> 0)%R as HM0 by (apply not_0_IZR; lia).
  destruct (decide (k = Z.to_nat M)) as [->|Hne].
  { rewrite grid_S_last by done. f_equal. rewrite Z2Nat.id by lia. by field. }
  unfold grid_S, np_linspace.
  replace (1 <? Z.of_nat (Z.to_nat (M + 1))) with true
    by (symmetry; apply Z.ltb_lt; lia).
  replace (0 <? Z.of_nat (Z.to_nat (M + 1)) - 1) with true
    by (symmetry; apply Z.ltb_lt; lia).
  replace (Z.of_nat (Z.to_nat (M + 1)) - 1) with M by lia.
  rewrite list_lookup_insert_ne by lia.
  simpl. destruct (Reqb ((Smax - 0) / IZR M) 0);
    rewrite !list_lookup_fmap, lookup_seq_lt by lia; simpl; f_equal; by field.
Qed.

Lemma grid_S_real_total (Smax : R) (M : Z) (k : nat) :
  1 <= M -> (k <= Z.to_nat M)%nat ->
  grid_S Smax M !!! k = (IZR (Z.of_nat k) * (Smax / IZR M))%R.
Proof.
  intros HM Hk. apply list_lookup_total_correct. by apply grid_S_real.
Qed.

Lemma np_maximum_real (a b : R) : np_maximum a b = Rmax a b.
Proof.
  unfold np_maximum, Rmax. simpl. unfold Rltb.
  destruct (Rlt_dec a b), (Rle_dec a b); try done; lra.
Qed.

Lemma payoff_real (option_type : string) (K : R) (Sv : list R) (k : nat) s :
  Sv !! k = Some s ->
  payoff option_type K Sv !! k
  = Some (if String.eqb option_type "call" then Rmax (s - K) 0
          else Rmax (K - s) 0).
Proof.
  intros Hs. unfold payoff.
  destruct (String.eqb option_type "call");
    by rewrite list_lookup_fmap, Hs, <- np_maximum_real.
Qed.

End RealGrid.

(** X6.  The price grid.  In every arithmetic the grid of a call has
    [M+1] nodes and its last node is [Smax] itself, not a rounded
    product.  In exact arithmetic node [k] is [k * Smax / M]: the first
    node is [0], consecutive nodes are [dS = Smax / M] apart, and for
    [Smax > 0] they increase strictly; the values the time loop starts
    from are [max(S_k - K, 0)] for a call and [max(K - S_k, 0)] for a
    put, which are never negative. *)
Theorem grid_is_uniform :
  (forall (F : Type) (HA : Arith F) (Smax : F) (M : Z),
     1 <= M ->
     length (grid_S Smax M) = Z.to_nat (M + 1) /\
     grid_S Smax M !! Z.to_nat M = Some Smax) /\
  (forall (Smax K : R) (M : Z) (option_type : string) (k : nat),
     1 <= M -> (k <= Z.to_nat M)%nat ->
     let S_k := (IZR (Z.of_nat k) * grid_dS Smax M)%R in
     let payoff_k := if String.eqb option_type "call" then Rmax (S_k - K) 0
                     else Rmax (K - S_k) 0 in
     grid_S Smax M !! k = Some S_k /\
     grid_S Smax M !! 0%nat = Some 0%R /\
     (forall S_next, grid_S Smax M !! S k = Some S_next ->
        S_next - S_k = grid_dS Smax M /\ (0 < Smax -> S_k < S_next))%R /\
     payoff option_type K (grid_S Smax M) !! k = Some payoff_k /\
     (0 <= payoff_k)%R).
Proof.
  split.
  - intros F HA Smax M HM. split; [|by apply grid_S_last].
    unfold grid_S. apply np_linspace_length.
  - intros Smax K M option_type k HM Hk S_k payoff_k.
    assert (0 < IZR M)%R as HM0 by (apply IZR_lt; lia).
    assert (grid_S Smax M !! k = Some S_k) as Hnode
      by by apply grid_S_real.
    split; [done|]. split.
    { rewrite grid_S_real by (try done; lia). f_equal. simpl. unfold Rdiv. ring. }
    split.
    { intros S_next Hnext.
      assert (S k <= Z.to_nat M)%nat as Hk'.
      { apply lookup_lt_Some in Hnext. unfold grid_S in Hnext.
        rewrite np_linspace_length in Hnext. lia. }
      rewrite grid_S_real in Hnext by done. injection Hnext as <-.
      unfold S_k, grid_dS. simpl. rewrite Nat2Z.inj_succ, succ_IZR.
      split; [lra|]. intros HS.
      assert (0 < Smax / IZR M)%R by by apply Rdiv_lt_0_compat.
      lra. }
    split; [by apply payoff_real|].
    unfold payoff_k. destruct (String.eqb option_type "call"); apply Rmax_r.
Qed.

Lemma grid_is_uniform_witness :
  grid_S 300%R 3 !! 2%nat = Some (IZR (Z.of_nat 2) * grid_dS 300%R 3)%R.
Proof.
  apply (proj2 grid_is_uniform 300%R 100%R 3 "call" 2%nat); [lia|simpl; lia].
Defined.

(** ** The implicit operator in exact arithmetic *)

Section RealOperator.

Lemma validate_real (S0 K T sigma : R) :
  validate_option_inputs S0 K T sigma = Ok tt
  <-> (0 < S0 /\ 0 < K /\ 0 < T /\ 0 < sigma)%R.
Proof.
  unfold validate_option_inputs. simpl. unfold Rleb.
  destruct (Rle_dec S0 0), (Rle_dec K 0), (Rle_dec T 0), (Rle_dec sigma 0);
    simpl; split; try done; try (intros (? & ? & ? & ?); lra).
  intros _. lra.
Qed.

Lemma resolve_Smax_above (Smax : option R) (S0 K : R) :
  (0 < S0)%R -> (S0 < resolve_Smax Smax S0 K)%R.
Proof.
  intros HS0. unfold resolve_Smax, py_max.
  generalize (Smax_candidate Smax K). intros c. simpl. unfold Rleb, Rltb.
  destruct (Rle_dec c S0), (Rlt_dec c (3 / 2 * S0)); lra.
Qed.

(** The coefficients at the node [j * dS]. *)
Lemma A_at_node (sigma r dS j : R) :
  dS <> 0%R ->
  A_at sigma r dS (j * dS)%R = (/ 2 * (j * (sigma * sigma * j - r)))%R.
Proof. intros HdS. unfold A_at, alpha_at, beta_at. simpl. by field. Qed.

Lemma B_at_node (sigma r dS j : R) :
  dS <> 0%R ->
  B_at sigma r dS (j * dS)%R = (- (sigma * sigma * (j * j)) - r)%R.
Proof. intros HdS. unfold B_at, alpha_at. simpl. by field. Qed.

Lemma C_at_node (sigma r dS j : R) :
  dS <> 0%R ->
  C_at sigma r dS (j * dS)%R = (/ 2 * (j * (sigma * sigma * j + r)))%R.
Proof. intros HdS. unfold C_at, alpha_at, beta_at. simpl. by field. Qed.

(** The inequality behind the dominance of row [j]. *)
Lemma dominant_row (sigma r dt j : R) :
  (0 < dt)%R -> (0 <= r <= sigma * sigma)%R -> (1 <= j)%R ->
  let a := (/ 2 * (j * (sigma * sigma * j - r)))%R in
  let b := (- (sigma * sigma * (j * j)) - r)%R in
  let c := (/ 2 * (j * (sigma * sigma * j + r)))%R in
  (Rabs (- / 2 * dt * a) + Rabs (- / 2 * dt * c) < Rabs (1 - / 2 * dt * b)
   /\ Rabs (- / 2 * dt * a) < Rabs (1 - / 2 * dt * b)
   /\ Rabs (- / 2 * dt * c) < Rabs (1 - / 2 * dt * b)
   /\ 0 < Rabs (1 - / 2 * dt * b))%R.
Proof.
  intros Hdt Hr Hj a b c.
  assert (0 <= sigma * sigma)%R as Hs by nra.
  assert (0 <= j * (sigma * sigma * j - r))%R as Ha by nra.
  assert (0 <= j * (sigma * sigma * j + r))%R as Hc by nra.
  set (u := (dt * (j * (sigma * sigma * j - r)))%R).
  set (v := (dt * (j * (sigma * sigma * j + r)))%R).
  set (q := (dt * r)%R).
  assert (0 <= u)%R as Hu by (unfold u; nra).
  assert (0 <= v)%R as Hv by (unfold v; nra).
  assert (0 <= q)%R as Hq by (unfold q; nra).
  replace (- / 2 * dt * a)%R with (- (u / 4))%R by (unfold a, u; field).
  replace (- / 2 * dt * c)%R with (- (v / 4))%R by (unfold c, v; field).
  replace (1 - / 2 * dt * b)%R with (1 + (u + v) / 4 + q / 2)%R
    by (unfold b, u, v, q; field).
  rewrite !Rabs_Ropp, !Rabs_pos_eq by lra. lra.
Qed.

(** For [0 <= r <= sigma^2] the implicit operator of a call is strictly
    diagonally dominant. *)
Lemma implicit_dominant (sigma r Sx dt : R) (M : Z) :
  3 <= M -> (0 < Sx)%R -> (0 < dt)%R -> (0 <= r <= sigma * sigma)%R ->
  strictly_dominant (lower_L dt (grid_A sigma r Sx M))
    (diag_L dt (grid_B sigma r Sx M)) (upper_L dt (grid_C sigma r Sx M)).
Proof.
  intros HM HSx Hdt Hr i Hi.
  rewrite diag_L_length, grid_B_length in Hi.
  unfold off_diagonal_sum. rewrite diag_L_length, grid_B_length.
  assert (0 < IZR M)%R as HM0 by (apply IZR_lt; lia).
  assert (Sx / IZR M <> 0)%R as HdS.
  { apply Rgt_not_eq. by apply Rdiv_lt_0_compat. }
  set (j := Z.of_nat i + 1).
  destruct (operator_entries sigma r Sx dt M j)
    as (_ & _ & _ & HdL & _ & Hlow & Hup); [lia|lia|].
  rewrite grid_S_real_total in HdL, Hlow, Hup by lia.
  change (grid_dS Sx M) with (Sx / IZR M)%R in HdL, Hlow, Hup.
  rewrite A_at_node in Hlow by done. rewrite B_at_node in HdL by done.
  rewrite C_at_node in Hup by done.
  replace (Z.to_nat (j - 1)) with i in HdL, Hup by lia.
  rewrite (list_lookup_total_correct _ _ _ HdL).
  assert (1 <= IZR (Z.of_nat (Z.to_nat j)))%R as Hj by (apply IZR_le; lia).
  destruct (dominant_row sigma r dt _ Hdt Hr Hj) as (Hboth & Hsub & Hsup & Hd).
  simpl in HdL, Hlow, Hup |- *.
  destruct (decide (i = 0%nat)) as [Hi0|Hi0];
    destruct (decide (S i < Z.to_nat (M - 1))%nat) as [Hlast|Hlast].
  - destruct Hup as [Hup _]; [lia|].
    rewrite (list_lookup_total_correct _ _ _ Hup). lra.
  - lra.
  - destruct Hlow as [Hlow _]; [lia|]. destruct Hup as [Hup _]; [lia|].
    replace (Z.to_nat (j - 2)) with (i - 1)%nat in Hlow by lia.
    rewrite (list_lookup_total_correct _ _ _ Hlow).
    rewrite (list_lookup_total_correct _ _ _ Hup). lra.
  - destruct Hlow as [Hlow _]; [lia|].
    replace (Z.to_nat (j - 2)) with (i - 1)%nat in Hlow by lia.
    rewrite (list_lookup_total_correct _ _ _ Hlow). lra.
Qed.

End RealOperator.

(** X7.  In exact arithmetic, on valid inputs with [0 <= r <= sigma^2],
    the matrix of the implicit operator (sub-diagonal [lower_L], diagonal
    [diag_L], super-diagonal [upper_L]) is strictly diagonally dominant.
    So no solve of the time loop divides by zero: in every time step
    [n = 0 .. N-1] the interior values [1 .. M-1] of the new row solve
    the tridiagonal system of the implicit operator for the right-hand
    side assembled from the row before. *)
Theorem time_steps_solve_implicit_system :
  forall (np_interp : R -> list R -> list R -> R) (h : gmap loc (list R))
         (S0 K T r sigma : R) (option_type : string) (Mo No : option Z)
         (Smax : option R),
    let M := default DEFAULT_PRICE_STEPS Mo in
    let N := default DEFAULT_TIME_STEPS No in
    let Sx := resolve_Smax Smax S0 K in
    let dt := (T / IZR N)%R in
    let A := grid_A sigma r Sx M in
    let B := grid_B sigma r Sx M in
    let C := grid_C sigma r Sx M in
    let b0 n := boundary_at_zero option_type K (exp (- r * (IZR n * dt))) in
    let bM n :=
      boundary_at_Smax option_type Sx K (exp (- r * (IZR n * dt))) in
    (0 < S0)%R -> (0 < K)%R -> (0 < T)%R -> (0 < sigma)%R ->
    option_type = "call" \/ option_type = "put" ->
    3 <= M -> 1 <= N -> (0 <= r <= sigma * sigma)%R ->
    strictly_dominant (lower_L dt A) (diag_L dt B) (upper_L dt C) /\
    exists price info rows h',
      price_european_fixed_grid real_exp np_interp S0 K T r sigma option_type
        Mo No Smax true h = (Ok (PriceInfo price info), h') /\
      info_surface info = Some rows /\
      forall n : nat, Z.of_nat n < N ->
        exists prev row,
          rows !! n = Some prev /\ rows !! S n = Some row /\
          solves_tridiagonal (lower_L dt A) (diag_L dt B) (upper_L dt C)
            (assemble_rhs dt A B C (Z.to_nat M)
               (<[Z.to_nat M := bM (Z.of_nat n)]>
                  (<[0%nat := b0 (Z.of_nat n)]> prev))
               (b0 (Z.of_nat n)) (bM (Z.of_nat n))
               (b0 (Z.of_nat n + 1)) (bM (Z.of_nat n + 1)))
            (py_slice row 1 (Z.to_nat M)).
Proof.
  intros np_interp h S0 K T r sigma option_type Mo No Smax M N Sx dt A B C
    b0 bM HS0 HK HT Hsigma Hopt HM HN Hr.
  assert (0 < Sx)%R as HSx.
  { pose proof (resolve_Smax_above Smax S0 K HS0). unfold Sx. lra. }
  assert (0 < dt)%R as Hdt.
  { apply Rdiv_lt_0_compat; [done|]. apply IZR_lt. lia. }
  pose proof (implicit_dominant sigma r Sx dt M HM HSx Hdt Hr) as Hdom.
  fold A B C in Hdom. split; [done|].
  destruct (engine_rows real_exp np_interp h S0 K T r sigma option_type
              Mo No Smax) as (price & info & rows & h' & Hrun & Hsurf & Hlen & Hrows).
  { apply validate_real. done. }
  { done. }
  { done. }
  { done. }
  { intros n Hn. by eexists. }
  destruct (engine_info real_exp np_interp h S0 K T r sigma option_type
              Mo No Smax)
    as (price' & info' & rows' & h1 & h2 & _ & Hrun' & _ & _ & _ & _ & _ & _
        & _ & Hsurf' & _ & Hall & _).
  { apply validate_real. done. }
  { done. }
  { done. }
  { done. }
  { done. }
  rewrite Hrun in Hrun'. injection Hrun' as _ <- _.
  rewrite Hsurf in Hsurf'. injection Hsurf' as <-.
  exists price, info, rows, h'. split; [done|]. split; [done|].
  intros n Hn.
  destruct (Hrows n Hn)
    as (prev & row & e_n & e_np1 & He_n & He_np1 & Hprev & Hrow & _ & _ & Hin).
  exists prev, row. split; [done|]. split; [done|].
  injection He_n as <-. injection He_np1 as <-.
  fold M Sx in Hin. rewrite Hin.
  pose proof (Forall_lookup_1 _ _ _ _ Hall Hprev) as Hlprev. simpl in Hlprev.
  assert (length (diag_L dt B) = Z.to_nat (M - 1)) as HlB.
  { rewrite diag_L_length. unfold B. by rewrite grid_B_length. }
  match goal with |- solves_tridiagonal _ _ _ ?rhs _ =>
    assert (length rhs = length (diag_L dt B)) as Hlrhs end.
  { rewrite HlB, assemble_rhs_length; unfold A, B, C;
      rewrite ?grid_A_length, ?grid_B_length, ?grid_C_length, ?length_insert;
      lia. }
  apply thomas_solves.
  - exact Hlrhs.
  - change (1 <= length (diag_L dt B))%nat. rewrite HlB. lia.
  - by apply dominant_pivots_nonzero.
Qed.

Lemma time_steps_solve_implicit_system_witness :
  strictly_dominant
    (lower_L (1 / IZR 2)%R
       (grid_A (1 / 5)%R (1 / 100)%R (resolve_Smax None 100%R 100%R) 3))
    (diag_L (1 / IZR 2)%R
       (grid_B (1 / 5)%R (1 / 100)%R (resolve_Smax None 100%R 100%R) 3))
    (upper_L (1 / IZR 2)%R
       (grid_C (1 / 5)%R (1 / 100)%R (resolve_Smax None 100%R 100%R) 3)).
Proof.
  apply (time_steps_solve_implicit_system linear_interp ∅ 100%R 100%R 1%R
           (1 / 100)%R (1 / 5)%R "call" (Some 3) (Some 2) None);
    try lra; try (simpl; lia).
  by left.
Defined.

(** ** Which binary64 values pass the comparison [x <= 0] *)

Section Binary64Checks.

Lemma SFcompare_refl_finite (s : bool) (m : positive) (e : Z) :
  SFcompare (S754_finite s m e) (S754_finite s m e) = Some Eq.
Proof.
  simpl. rewrite Z.compare_refl, Pos.compare_cont_refl. by destruct s.
Qed.

(** [x <= 0] is false exactly on the positive values and on NaN. *)
Lemma leb_zero_false (x : float) :
  (x <=? 0)%float = false
  <-> (0 <? x)%float = true \/ PrimFloat.is_nan x = true.
Proof.
  unfold PrimFloat.is_nan.
  rewrite leb_spec, ltb_spec, FloatAxioms.eqb_spec.
  change (Prim2SF 0%float) with (S754_zero false).
  destruct (Prim2SF x) as [s|s| |s m e].
  - destruct s; simpl; split; try done; intros [|]; done.
  - destruct s; simpl; split; try done; try tauto; intros [|]; done.
  - simpl. split; [by right|done].
  - unfold SFeqb. rewrite SFcompare_refl_finite.
    destruct s; simpl; split; try done; try tauto; intros [|]; done.
Qed.

Lemma validate_binary64 (S0 K T sigma : float) :
  validate_option_inputs S0 K T sigma = Ok tt
  <-> Forall (fun x => (0 <? x)%float = true \/ PrimFloat.is_nan x = true)
        [S0; K; T; sigma].
Proof.
  rewrite !Forall_cons, Forall_nil, <- !leb_zero_false.
  unfold validate_option_inputs. simpl.
  destruct (S0 <=? 0)%float, (K <=? 0)%float, (T <=? 0)%float,
    (sigma <=? 0)%float; simpl; split; try done; intros (? & ? & ? & ? & _);
    done.
Qed.

End Binary64Checks.

(** X8.  What [validate_option_inputs] lets through.  In exact
    arithmetic it returns exactly on four positive arguments.  In
    binary64 it returns exactly when each argument is positive or a NaN:
    the checks are written [x <= 0], which is false on a NaN, so a NaN
    spot, strike, time or volatility is not rejected (nor is an
    infinity). *)
Theorem validation_accepts_positive_or_nan :
  (forall S0 K T sigma : R,
     validate_option_inputs S0 K T sigma = Ok tt
     <-> (0 < S0 /\ 0 < K /\ 0 < T /\ 0 < sigma)%R) /\
  (forall S0 K T sigma : float,
     validate_option_inputs S0 K T sigma = Ok tt
     <-> Forall (fun x => (0 <? x)%float = true \/ PrimFloat.is_nan x = true)
           [S0; K; T; sigma]).
Proof. split; [apply validate_real|apply validate_binary64]. Qed.

(** ** The right-hand side of a time step, entry by entry *)

Section RhsEntries.
Context {F : Type} `{Arith F}.
Implicit Types (V A B C : list F).

Lemma lookup_total_Some (l : list F) (i : nat) :
  (i < length l)%nat -> l !! i = Some (l !!! i).
Proof. intros Hi. by apply list_lookup_lookup_total_lt. Qed.

Lemma py_slice_lookup V (M i : nat) :
  (M <= length V)%nat -> (i + 1 < M)%nat ->
  py_slice V 1 M !! i = Some (V !!! (i + 1)%nat).
Proof.
  intros HM Hi. unfold py_slice.
  rewrite lookup_take_lt by lia. rewrite lookup_drop.
  replace (1 + i)%nat with (i + 1)%nat by lia.
  apply lookup_total_Some. lia.
Qed.

(** Lines 116-122 in index form: entry [i] of [rhs] is the product with
    the diagonal, then the sub-diagonal term (rows after the first), then
    the super-diagonal term (rows before the last), then the boundary
    term (first and last row). *)
Lemma assemble_rhs_lookup dt A B C (M : nat) V (V0_n VM_n V0_np1 VM_np1 : F)
    (i : nat) :
  (3 <= M)%nat -> length V = (M + 1)%nat ->
  length A = (M - 1)%nat -> length B = (M - 1)%nat ->
  length C = (M - 1)%nat -> (i < M - 1)%nat ->
  let e0 := diag_R dt B !!! i *! V !!! (i + 1)%nat in
  let e1 := if decide (i = 0)%nat then e0
            else e0 +! lower_R dt A !!! (i - 1)%nat *! V !!! i in
  let e2 := if decide (i = M - 2)%nat then e1
            else e1 +! upper_R dt C !!! i *! V !!! (i + 2)%nat in
  let e3 := if decide (i = 0)%nat
            then e2 +! fhalf *! dt *! A !!! 0%nat *! (V0_n +! V0_np1)
            else e2 in
  let e4 := if decide (i = M - 2)%nat
            then e3 +! fhalf *! dt *! C !!! (M - 2)%nat *! (VM_n +! VM_np1)
            else e3 in
  assemble_rhs dt A B C M V V0_n VM_n V0_np1 VM_np1 !! i = Some e4.
Proof.
  intros HM HV HA HB HC Hi e0 e1 e2 e3 e4. unfold assemble_rhs.
  set (V_in := py_slice V 1 M).
  assert (length V_in = (M - 1)%nat) as HVin
    by (unfold V_in; rewrite py_slice_length; lia).
  assert (forall k, (k < M - 1)%nat -> V_in !! k = Some (V !!! (k + 1)%nat))
    as Hv by (intros k Hk; apply py_slice_lookup; lia).
  pose proof (diag_R_length dt B) as HdR.
  pose proof (lower_R_length dt A) as HlR.
  pose proof (upper_R_length dt C) as HuR.
  (* the product with the diagonal *)
  set (rhs0 := zip_with fmul (diag_R dt B) V_in).
  assert (length rhs0 = (M - 1)%nat) as Hl0
    by (unfold rhs0; rewrite length_zip_with; lia).
  assert (forall k, (k < M - 1)%nat ->
            rhs0 !! k = Some (diag_R dt B !!! k *! V !!! (k + 1)%nat)) as H0.
  { intros k Hk. unfold rhs0. apply lookup_zip_with_Some.
    do 2 eexists. split; [done|]. split; [|by apply Hv].
    apply lookup_total_Some. lia. }
  (* the sub-diagonal terms *)
  set (rhs1 := take 1 rhs0 ++
               zip_with fadd (py_tail rhs0)
                 (zip_with fmul (lower_R dt A) (py_init V_in))).
  assert (length rhs1 = (M - 1)%nat) as Hl1.
  { unfold rhs1. rewrite length_app, length_take, !length_zip_with,
      py_tail_length, py_init_length. lia. }
  assert (forall k, (k < M - 1)%nat ->
            rhs1 !! k
            = Some (if decide (k = 0)%nat
                    then diag_R dt B !!! k *! V !!! (k + 1)%nat
                    else diag_R dt B !!! k *! V !!! (k + 1)%nat
                         +! lower_R dt A !!! (k - 1)%nat *! V !!! k)) as H1.
  { intros k Hk. unfold rhs1. destruct (decide (k = 0)%nat) as [->|Hk0].
    - rewrite lookup_app_l by (rewrite length_take; lia).
      rewrite lookup_take_lt by lia. by apply H0.
    - rewrite lookup_app_r by (rewrite length_take; lia).
      rewrite length_take. replace (1 `min` length rhs0)%nat with 1%nat by lia.
      apply lookup_zip_with_Some. do 2 eexists. split; [done|]. split.
      + rewrite py_tail_lookup. replace (S (k - 1)) with k by lia.
        by apply H0.
      + apply lookup_zip_with_Some. do 2 eexists. split; [done|]. split.
        * apply lookup_total_Some. lia.
        * rewrite py_init_lookup by lia. rewrite Hv by lia.
          do 2 f_equal. lia. }
  (* the super-diagonal terms *)
  set (rhs2 := zip_with fadd (py_init rhs1)
                 (zip_with fmul (upper_R dt C) (py_tail V_in)) ++
               drop (length rhs1 - 1) rhs1).
  assert (length rhs2 = (M - 1)%nat) as Hl2.
  { unfold rhs2. rewrite length_app, length_drop, !length_zip_with,
      py_tail_length, py_init_length. lia. }
  assert (rhs2 !! i = Some e2) as H2.
  { unfold rhs2, e2, e1, e0. destruct (decide (i = M - 2)%nat) as [->|Hil].
    - rewrite lookup_app_r
        by (rewrite !length_zip_with, py_init_length, py_tail_length; lia).
      rewrite !length_zip_with, py_init_length, py_tail_length.
      rewrite lookup_drop.
      replace (length rhs1 - 1 +
               (M - 2 - (length rhs1 - 1) `min`
                  (length (upper_R dt C) `min` (length V_in - 1))))%nat
        with (M - 2)%nat by lia.
      by apply H1.
    - rewrite lookup_app_l
        by (rewrite !length_zip_with, py_init_length, py_tail_length; lia).
      apply lookup_zip_with_Some. do 2 eexists. split; [done|]. split.
      + rewrite py_init_lookup by lia. by apply H1.
      + apply lookup_zip_with_Some. do 2 eexists. split; [done|]. split.
        * apply lookup_total_Some. lia.
        * rewrite py_tail_lookup. rewrite Hv by lia. do 2 f_equal. lia. }
  (* the boundary terms *)
  assert (forall (l : list F) k v, l !! k = Some v -> l !!! k = v) as Htot
    by (intros l k v; apply list_lookup_total_correct).
  set (rhs3 := <[0%nat := rhs2 !!! 0%nat
                          +! fhalf *! dt *! A !!! 0%nat *! (V0_n +! V0_np1)]>
                 rhs2).
  assert (length rhs3 = (M - 1)%nat) as Hl3
    by (unfold rhs3; by rewrite length_insert).
  assert (rhs3 !! i = Some e3) as H3.
  { unfold rhs3, e3. destruct (decide (i = 0)%nat) as [Hi0|Hi0].
    - subst i. rewrite list_lookup_insert_eq by lia.
      by rewrite (Htot _ _ _ H2).
    - by rewrite list_lookup_insert_ne by lia. }
  rewrite Hl3. unfold e4.
  replace (length C - 1)%nat with (M - 2)%nat by lia.
  replace (M - 1 - 1)%nat with (M - 2)%nat by lia.
  destruct (decide (i = M - 2)%nat) as [Hil|Hil].
  - subst i. rewrite list_lookup_insert_eq by lia.
    by rewrite (Htot _ _ _ H3).
  - by rewrite list_lookup_insert_ne by lia.
Qed.

End RhsEntries.

(** X9.  The right-hand side of a time step.  The slice updates of
    lines 116-122 compute, for the interior node [j = i + 1], in every
    arithmetic and in this order: [diag_R[i] * V[j]], plus
    [lower_R[i-1] * V[j-1]] except in the first row, plus
    [upper_R[i] * V[j+1]] except in the last row, plus the boundary term
    [0.5 * dt * A[0] * (V0_n + V0_np1)] in the first row and
    [0.5 * dt * C[-1] * (VM_n + VM_np1)] in the last.  In exact
    arithmetic, [V[0]] and [V[M]] being the boundary values at [tau_n],
    that is the explicit operator applied to [V] plus the part of the
    implicit operator that meets the boundary values at [tau_(n+1)]. *)
Theorem rhs_is_explicit_operator :
  (forall (F : Type) (HA : Arith F) (dt : F) (A B C : list F) (M : nat)
          (V : list F) (V0_n VM_n V0_np1 VM_np1 : F) (i : nat),
     (3 <= M)%nat -> length V = (M + 1)%nat ->
     length A = (M - 1)%nat -> length B = (M - 1)%nat ->
     length C = (M - 1)%nat -> (i < M - 1)%nat ->
     let e0 := diag_R dt B !!! i *! V !!! (i + 1)%nat in
     let e1 := if decide (i = 0)%nat then e0
               else e0 +! lower_R dt A !!! (i - 1)%nat *! V !!! i in
     let e2 := if decide (i = M - 2)%nat then e1
               else e1 +! upper_R dt C !!! i *! V !!! (i + 2)%nat in
     let e3 := if decide (i = 0)%nat
               then e2 +! fhalf *! dt *! A !!! 0%nat *! (V0_n +! V0_np1)
               else e2 in
     let e4 := if decide (i = M - 2)%nat
               then e3 +! fhalf *! dt *! C !!! (M - 2)%nat *! (VM_n +! VM_np1)
               else e3 in
     assemble_rhs dt A B C M V V0_n VM_n V0_np1 VM_np1 !! i = Some e4) /\
  (forall (dt : R) (A B C : list R) (M : nat) (V : list R)
          (V0_n VM_n V0_np1 VM_np1 : R) (i : nat),
     (3 <= M)%nat -> length V = (M + 1)%nat ->
     length A = (M - 1)%nat -> length B = (M - 1)%nat ->
     length C = (M - 1)%nat -> (i < M - 1)%nat ->
     V !!! 0%nat = V0_n -> V !!! M = VM_n ->
     assemble_rhs dt A B C M V V0_n VM_n V0_np1 VM_np1 !! i
     = Some (0.5 * dt * A !!! i * V !!! i
             + (1 + 0.5 * dt * B !!! i) * V !!! (i + 1)%nat
             + 0.5 * dt * C !!! i * V !!! (i + 2)%nat
             + (if decide (i = 0)%nat then 0.5 * dt * A !!! i * V0_np1
                else 0)
             + (if decide (i = M - 2)%nat then 0.5 * dt * C !!! i * VM_np1
                else 0))%R).
Proof.
  split.
  - intros. by apply assemble_rhs_lookup.
  - intros dt A B C M V V0_n VM_n V0_np1 VM_np1 i HM HV HA HB HC Hi H0 HMn.
    rewrite assemble_rhs_lookup by done. f_equal.
    assert (forall (l : list R) k v, l !! k = Some v -> l !!! k = v) as Htot
      by (intros l k v; apply list_lookup_total_correct).
    assert (diag_R dt B !!! i = 1 + / 2 * dt * B !!! i)%R as ->.
    { apply Htot. unfold diag_R. rewrite list_lookup_fmap.
      by rewrite (lookup_total_Some B i) by lia. }
    destruct (decide (i = 0)%nat) as [Hi0|Hi0];
      destruct (decide (i = M - 2)%nat) as [Hil|Hil]; try lia.
    + subst i. simpl.
      assert (upper_R dt C !!! 0%nat = / 2 * dt * C !!! 0%nat)%R as ->.
      { apply Htot. unfold upper_R. rewrite list_lookup_fmap.
        rewrite py_init_lookup by lia.
        by rewrite (lookup_total_Some C 0) by lia. }
      rewrite H0. lra.
    + subst i. simpl.
      assert (lower_R dt A !!! (M - 2 - 1)%nat
              = / 2 * dt * A !!! (M - 2)%nat)%R as ->.
      { apply Htot. unfold lower_R. rewrite list_lookup_fmap, py_tail_lookup.
        replace (S (M - 2 - 1)) with (M - 2)%nat by lia.
        by rewrite (lookup_total_Some A (M - 2)) by lia. }
      replace (M - 2 + 2)%nat with M by lia.
      rewrite HMn. lra.
    + simpl.
      assert (lower_R dt A !!! (i - 1)%nat = / 2 * dt * A !!! i)%R as ->.
      { apply Htot. unfold lower_R. rewrite list_lookup_fmap, py_tail_lookup.
        replace (S (i - 1)) with i by lia.
        by rewrite (lookup_total_Some A i) by lia. }
      assert (upper_R dt C !!! i = / 2 * dt * C !!! i)%R as ->.
      { apply Htot. unfold upper_R. rewrite list_lookup_fmap.
        rewrite py_init_lookup by lia.
        by rewrite (lookup_total_Some C i) by lia. }
      lra.
Qed.

Lemma rhs_is_explicit_operator_witness :
  assemble_rhs 0.5%float [1%float; 2%float] [3%float; 4%float]
    [5%float; 6%float] 3 [0%float; 1%float; 2%float; 3%float]
    0%float 3%float 0%float 3%float !! 0%nat
  = Some (diag_R 0.5%float [3%float; 4%float] !!! 0%nat * 1
          + upper_R 0.5%float [5%float; 6%float] !!! 0%nat * 2
          + 0.5 * 0.5 * 1 * (0 + 0))%float.
Proof.
  apply (proj1 rhs_is_explicit_operator float float_arith 0.5%float
           [1%float; 2%float] [3%float; 4%float] [5%float; 6%float] 3%nat
           [0%float; 1%float; 2%float; 3%float]
           0%float 3%float 0%float 3%float 0%nat); simpl; lia.
Defined.

(** ** The ends of the final value vector *)

Section FinalValues.
Context {F : Type} `{Arith F}.
Variable math_exp : F -> result F.
Variable np_interp : F -> list F -> list F -> F.

Lemma is_ok_value {A : Type} (res : result A) :
  is_ok res = true -> exists a, res = Ok a.
Proof. destruct res; [by eexists|done]. Qed.

Lemma engine_final_values h (S0 K T r sigma : F) (option_type : string)
    (Mo No : option Z) (Smax : option F) (e_N : F) :
  let M := default DEFAULT_PRICE_STEPS Mo in
  let N := default DEFAULT_TIME_STEPS No in
  let Sx := resolve_Smax Smax S0 K in
  let dt := T /! of_int N in
  validate_option_inputs S0 K T sigma = Ok tt ->
  option_type = "call" \/ option_type = "put" ->
  3 <= M -> 1 <= N ->
  (forall n, 0 <= n <= N ->
     is_ok (math_exp ((-! r) *! (of_int n *! dt))) = true) ->
  math_exp ((-! r) *! (of_int N *! dt)) = Ok e_N ->
  exists price info h',
    price_european_fixed_grid math_exp np_interp S0 K T r sigma option_type
      Mo No Smax true h = (Ok (PriceInfo price info), h') /\
    length (info_V_tau_T info) = Z.to_nat (M + 1) /\
    info_V_tau_T info !! 0%nat = Some (boundary_at_zero option_type K e_N) /\
    info_V_tau_T info !! Z.to_nat M
    = Some (boundary_at_Smax option_type Sx K e_N).
Proof.
  intros M N Sx dt Hvalid Hopt HM HN Hexp HeN.
  destruct (engine_info math_exp np_interp h S0 K T r sigma option_type
              Mo No Smax Hvalid Hopt HM HN Hexp)
    as (price & info & rows & h1 & h2 & _ & Hrun & _ & _ & _ & _ & _ & _
        & _ & Hsurf & Hlen & Hall & _ & Hlast).
  destruct (engine_rows math_exp np_interp h S0 K T r sigma option_type
              Mo No Smax Hvalid Hopt HM HN)
    as (price' & info' & rows' & h' & Hrun' & Hsurf' & _ & Hrows).
  { intros n Hn. by apply is_ok_value, Hexp. }
  rewrite Hrun in Hrun'. injection Hrun' as _ <- _.
  rewrite Hsurf in Hsurf'. injection Hsurf' as <-.
  destruct (Hrows (Z.to_nat (N - 1)) ltac:(lia))
    as (prev & row & e_n & e_np1 & _ & He & _ & Hrow & H0 & HMrow & _).
  replace (Z.of_nat (Z.to_nat (N - 1)) + 1) with N in He by lia.
  change (math_exp ((-! r) *! (of_int N *! dt)) = Ok e_np1) in He.
  rewrite HeN in He. injection He as <-.
  rewrite last_lookup, Hlen in Hlast.
  fold N in Hlast.
  replace (Init.Nat.pred (Z.to_nat (N + 1))) with (S (Z.to_nat (N - 1)))
    in Hlast by lia.
  rewrite Hrow in Hlast. injection Hlast as ->.
  exists price, info, h2. split; [done|]. split; [|by split].
  apply (Forall_lookup_1 _ _ _ _ Hall Hrow).
Qed.

End FinalValues.

(** X10.  The returned final values [V_tau_T] end in the boundary values
    at the last time level: in every arithmetic, on valid inputs whose
    discount factors can be computed, [V_tau_T[0]] and [V_tau_T[M]] are
    the boundary formulas with [exp(-r * N * dt)]; in exact arithmetic
    that factor is [exp(-r T)], so a call ends in [0] and
    [Smax - K exp(-r T)] and a put in [K exp(-r T)] and [0].  The value
    at [Smax] is not clamped: for a call whose resolved [Smax] is below
    [K exp(-r T)] it is negative. *)
Theorem final_values_end_in_boundary_values :
  (forall (F : Type) (HA : Arith F) (math_exp : F -> result F)
          (np_interp : F -> list F -> list F -> F)
          (h : gmap loc (list F)) (S0 K T r sigma : F) (option_type : string)
          (Mo No : option Z) (Smax : option F) (e_N : F),
     let M := default DEFAULT_PRICE_STEPS Mo in
     let N := default DEFAULT_TIME_STEPS No in
     let Sx := resolve_Smax Smax S0 K in
     let dt := T /! of_int N in
     validate_option_inputs S0 K T sigma = Ok tt ->
     option_type = "call" \/ option_type = "put" ->
     3 <= M -> 1 <= N ->
     (forall n, 0 <= n <= N ->
        is_ok (math_exp ((-! r) *! (of_int n *! dt))) = true) ->
     math_exp ((-! r) *! (of_int N *! dt)) = Ok e_N ->
     exists price info h',
       price_european_fixed_grid math_exp np_interp S0 K T r sigma
         option_type Mo No Smax true h = (Ok (PriceInfo price info), h') /\
       length (info_V_tau_T info) = Z.to_nat (M + 1) /\
       info_V_tau_T info !! 0%nat
       = Some (boundary_at_zero option_type K e_N) /\
       info_V_tau_T info !! Z.to_nat M
       = Some (boundary_at_Smax option_type Sx K e_N)) /\
  (forall (np_interp : R -> list R -> list R -> R) (h : gmap loc (list R))
          (S0 K T r sigma : R) (option_type : string) (Mo No : option Z)
          (Smax : option R),
     let M := default DEFAULT_PRICE_STEPS Mo in
     let N := default DEFAULT_TIME_STEPS No in
     let Sx := resolve_Smax Smax S0 K in
     (0 < S0)%R -> (0 < K)%R -> (0 < T)%R -> (0 < sigma)%R ->
     option_type = "call" \/ option_type = "put" ->
     3 <= M -> 1 <= N ->
     exists price info h' v0 vM,
       price_european_fixed_grid real_exp np_interp S0 K T r sigma
         option_type Mo No Smax true h = (Ok (PriceInfo price info), h') /\
       info_V_tau_T info !! 0%nat = Some v0 /\
       info_V_tau_T info !! Z.to_nat M = Some vM /\
       (option_type = "call" ->
        v0 = 0%R /\ vM = (Sx - K * exp (- r * T))%R /\
        ((Sx < K * exp (- r * T))%R -> (vM < 0)%R)) /\
       (option_type = "put" ->
        v0 = (K * exp (- r * T))%R /\ vM = 0%R)).
Proof.
  split.
  - intros. by apply engine_final_values.
  - intros np_interp h S0 K T r sigma option_type Mo No Smax M N Sx
      HS0 HK HT Hsigma Hopt HM HN.
    destruct (engine_final_values real_exp np_interp h S0 K T r sigma
                option_type Mo No Smax
                (exp ((-! r) *! (of_int N *! (T /! of_int N)))))
      as (price & info & h' & Hrun & _ & H0 & HMv); try done.
    { by apply validate_real. }
    assert (0 < IZR N)%R as HN0 by (apply IZR_lt; lia).
    assert ((-! r) *! (of_int N *! (T /! of_int N)) = (- r * T)%R) as Harg.
    { simpl. field. lra. }
    rewrite Harg in H0, HMv. fold M Sx in HMv.
    do 5 eexists. split; [exact Hrun|]. split; [exact H0|].
    split; [exact HMv|]. unfold boundary_at_zero, boundary_at_Smax. split.
    + intros ->. simpl. repeat split; try done. lra.
    + intros ->. simpl. done.
Qed.

Lemma final_values_end_in_boundary_values_witness :
  exists price info h' v0 vM,
    price_european_fixed_grid real_exp linear_interp 1%R 100%R 1%R
      (1 / 20)%R (1 / 5)%R "call" (Some 3) (Some 1) (Some 10%R) true ∅
    = (Ok (PriceInfo price info), h') /\
    info_V_tau_T info !! 0%nat = Some v0 /\
    info_V_tau_T info !! 3%nat = Some vM /\
    v0 = 0%R /\ vM = (10 - 100 * exp (- (1 / 20) * 1))%R.
Proof.
  destruct (proj2 final_values_end_in_boundary_values linear_interp ∅
              1%R 100%R 1%R (1 / 20)%R (1 / 5)%R "call"
              (Some 3) (Some 1) (Some 10%R))
    as (price & info & h' & v0 & vM & Hrun & H0 & HM & Hcall & _);
    try lra; try (simpl; lia).
  - by left.
  - destruct (Hcall eq_refl) as (Hv0 & HvM & _).
    exists price, info, h', v0, vM. repeat split; try done.
    rewrite HvM. unfold resolve_Smax, Smax_candidate. simpl.
    unfold Rleb. destruct (Rle_dec 10 1); [lra|]. done.
Defined.

(** ** The boundary values a pass writes before it assembles *)

Section BoundaryOverwrite.
Context {F : Type} `{Arith F}.
Variable math_exp : F -> result F.
Variable np_interp : F -> list F -> list F -> F.

(** From the second pass on, the row a pass starts from carries the
    boundary values of its time level already. *)
Lemma later_pass_keeps_row h (S0 K T r sigma : F) (option_type : string)
    (Mo No : option Z) (Smax : option F) :
  let M := default DEFAULT_PRICE_STEPS Mo in
  let N := default DEFAULT_TIME_STEPS No in
  let Sx := resolve_Smax Smax S0 K in
  let dt := T /! of_int N in
  validate_option_inputs S0 K T sigma = Ok tt ->
  option_type = "call" \/ option_type = "put" ->
  3 <= M -> 1 <= N ->
  (forall n, 0 <= n <= N ->
     is_ok (math_exp ((-! r) *! (of_int n *! dt))) = true) ->
  exists price info rows h',
    price_european_fixed_grid math_exp np_interp S0 K T r sigma option_type
      Mo No Smax true h = (Ok (PriceInfo price info), h') /\
    info_surface info = Some rows /\
    forall n : nat, (1 <= n)%nat -> Z.of_nat n < N ->
      exists prev e_n,
        rows !! n = Some prev /\
        math_exp ((-! r) *! (of_int (Z.of_nat n) *! dt)) = Ok e_n /\
        <[Z.to_nat M := boundary_at_Smax option_type Sx K e_n]>
          (<[0%nat := boundary_at_zero option_type K e_n]> prev) = prev.
Proof.
  intros M N Sx dt Hvalid Hopt HM HN Hexp.
  destruct (engine_rows math_exp np_interp h S0 K T r sigma option_type
              Mo No Smax Hvalid Hopt HM HN)
    as (price & info & rows & h' & Hrun & Hsurf & _ & Hrows).
  { intros n Hn. by apply is_ok_value, Hexp. }
  exists price, info, rows, h'. split; [done|]. split; [done|].
  intros n Hn1 HnN.
  destruct (Hrows (n - 1)%nat ltac:(lia))
    as (_ & row & _ & e & _ & He & _ & Hrow & H0 & HMrow & _).
  replace (S (n - 1)) with n in Hrow by lia.
  replace (Z.of_nat (n - 1) + 1) with (Z.of_nat n) in He by lia.
  exists row, e. split; [done|]. split; [done|].
  rewrite (list_insert_id _ 0 _ H0). by apply list_insert_id.
Qed.

End BoundaryOverwrite.

Section RealPayoff.

Lemma default_Smax_covers_strike (S0 K : R) :
  (0 < K)%R -> (K <= resolve_Smax None S0 K)%R.
Proof.
  intros HK. unfold resolve_Smax, Smax_candidate, py_max, S_MAX_MULTIPLIER.
  simpl. unfold Rleb, Rltb.
  destruct (Rle_dec (3 * K) S0), (Rlt_dec (3 * K) (3 / 2 * S0)); lra.
Qed.

(** The payoff agrees with the boundary values at [tau = 0] exactly
    when the grid reaches the strike. *)
Lemma payoff_boundary_real (option_type : string) (Sx K r dt : R) (M : Z) :
  option_type = "call" \/ option_type = "put" ->
  3 <= M -> (0 < K)%R ->
  let V0 := payoff option_type K (grid_S Sx M) in
  let e0 := exp ((-! r) *! (of_int 0 *! dt)) in
  (K <= Sx)%R
  <-> <[Z.to_nat M := boundary_at_Smax option_type Sx K e0]>
        (<[0%nat := boundary_at_zero option_type K e0]> V0) = V0.
Proof.
  intros Hopt HM HK V0 e0.
  assert (e0 = 1%R) as ->.
  { unfold e0. simpl. replace (- r * (0 * dt))%R with 0%R by ring.
    apply exp_0. }
  assert (V0 !! 0%nat
          = Some (if String.eqb option_type "call" then Rmax (0 - K) 0
                  else Rmax (K - 0) 0)) as H0.
  { unfold V0. apply payoff_real.
    rewrite grid_S_real by lia. f_equal. simpl. unfold Rdiv. ring. }
  assert (V0 !! Z.to_nat M
          = Some (if String.eqb option_type "call" then Rmax (Sx - K) 0
                  else Rmax (K - Sx) 0)) as HMv.
  { unfold V0. apply payoff_real. apply grid_S_last. lia. }
  assert (boundary_at_zero option_type K 1%R
          = if String.eqb option_type "call" then Rmax (0 - K) 0
            else Rmax (K - 0) 0) as Hb0.
  { unfold boundary_at_zero. destruct Hopt as [-> | ->]; simpl.
    - rewrite Rmax_right; lra.
    - rewrite Rmax_left; lra. }
  rewrite Hb0, (list_insert_id _ 0 _ H0).
  split.
  - intros HSx. apply list_insert_id. rewrite HMv. f_equal.
    unfold boundary_at_Smax. destruct Hopt as [-> | ->]; simpl.
    + rewrite Rmax_left; lra.
    + rewrite Rmax_right; lra.
  - intros Heq.
    assert (V0 !! Z.to_nat M = Some (boundary_at_Smax option_type Sx K 1%R))
      as Hlook.
    { rewrite <- Heq at 1. apply list_lookup_insert_eq.
      apply lookup_lt_Some in HMv. done. }
    rewrite HMv in Hlook. injection Hlook as Hv.
    unfold boundary_at_Smax in Hv. destruct Hopt as [-> | ->]; simpl in Hv.
    + pose proof (Rmax_r (Sx - K) 0). lra.
    + destruct (Rle_dec K Sx); [done|].
      rewrite Rmax_left in Hv; lra.
Qed.

End RealPayoff.

(** X11.  Lines 113-114 overwrite [V[0]] and [V[M]] with the boundary
    values at [tau_n] at the start of every pass.  From the second pass
    on this changes nothing, in every arithmetic: the row the pass starts
    from ends in those values already, because [tau_n] of this pass is
    computed as [tau_(n+1)] of the pass before.  In the first pass, in
    exact arithmetic, it changes nothing exactly when the resolved [Smax]
    is at least the strike [K], which the default [Smax = 3 K] always
    is; with a smaller [Smax] the payoff at [Smax] and the boundary value
    disagree. *)
Theorem boundary_overwrite_is_consistent :
  (forall (F : Type) (HA : Arith F) (math_exp : F -> result F)
          (np_interp : F -> list F -> list F -> F)
          (h : gmap loc (list F)) (S0 K T r sigma : F) (option_type : string)
          (Mo No : option Z) (Smax : option F),
     let M := default DEFAULT_PRICE_STEPS Mo in
     let N := default DEFAULT_TIME_STEPS No in
     let Sx := resolve_Smax Smax S0 K in
     let dt := T /! of_int N in
     validate_option_inputs S0 K T sigma = Ok tt ->
     option_type = "call" \/ option_type = "put" ->
     3 <= M -> 1 <= N ->
     (forall n, 0 <= n <= N ->
        is_ok (math_exp ((-! r) *! (of_int n *! dt))) = true) ->
     exists price info rows h',
       price_european_fixed_grid math_exp np_interp S0 K T r sigma
         option_type Mo No Smax true h = (Ok (PriceInfo price info), h') /\
       info_surface info = Some rows /\
       forall n : nat, (1 <= n)%nat -> Z.of_nat n < N ->
         exists prev e_n,
           rows !! n = Some prev /\
           math_exp ((-! r) *! (of_int (Z.of_nat n) *! dt)) = Ok e_n /\
           <[Z.to_nat M := boundary_at_Smax option_type Sx K e_n]>
             (<[0%nat := boundary_at_zero option_type K e_n]> prev) = prev) /\
  (forall (S0 K r dt : R) (option_type : string) (M : Z) (Smax : option R),
     let Sx := resolve_Smax Smax S0 K in
     let V0 := payoff option_type K (grid_S Sx M) in
     let e0 := exp (- r * (0 * dt)) in
     option_type = "call" \/ option_type = "put" ->
     3 <= M -> (0 < K)%R ->
     ((K <= Sx)%R
      <-> <[Z.to_nat M := boundary_at_Smax option_type Sx K e0]>
            (<[0%nat := boundary_at_zero option_type K e0]> V0) = V0) /\
     (Smax = None -> (K <= Sx)%R)).
Proof.
  split.
  - intros. by apply later_pass_keeps_row.
  - intros S0 K r dt option_type M Smax Sx V0 e0 Hopt HM HK. split.
    + by apply (payoff_boundary_real option_type Sx K r dt M).
    + intros ->. by apply default_Smax_covers_strike.
Qed.

Lemma boundary_overwrite_is_consistent_witness :
  (100 <= resolve_Smax None 100%R 100%R)%R.
Proof.
  apply (proj2 boundary_overwrite_is_consistent 100%R 100%R (1 / 20)%R
           (1 / 200)%R "call" 3 None); try first [by left | lia | lra | done].
Defined.

(** * The closed-form prices of [src/bs_analytic.py] *)

Section BsErrors.
Context {F : Type} `{Arith F}.

Lemma bs_validate_invalid (S0 K T r sigma : F) :
  (S0 <=.? fzero) = true \/ (K <=.? fzero) = true \/
  (T <=.? fzero) = true \/ (sigma <=.? fzero) = true ->
  exists msg, bs_parameter_message msg /\
              _validate_inputs S0 K T r sigma = Raise (ValueError msg).
Proof.
  intros Hbad. unfold _validate_inputs, bs_parameter_message.
  destruct (S0 <=.? fzero) eqn:HS; [eexists; split; [|done]; tauto|].
  destruct (K <=.? fzero) eqn:HK; [eexists; split; [|done]; tauto|].
  destruct (T <=.? fzero) eqn:HT; [eexists; split; [|done]; tauto|].
  destruct (sigma <=.? fzero) eqn:Hs; [eexists; split; [|done]; tauto|].
  destruct Hbad as [?|[?|[?|?]]]; done.
Qed.

(** An exception of the parameter check is the outcome of every entry
    point. *)
Lemma bs_validate_raise (math_sqrt math_log math_exp : F -> result F)
    (norm_cdf norm_pdf py_abs : F -> F)
    (S0 K T r sigma : F) (option_type : string) e :
  _validate_inputs S0 K T r sigma = Raise e ->
  _d1_d2 math_sqrt math_log S0 K T r sigma = Raise e /\
  bs_price math_sqrt math_log math_exp norm_cdf S0 K T r sigma option_type
  = Raise e /\
  bs_greeks math_sqrt math_log norm_cdf norm_pdf S0 K T r sigma option_type
  = Raise e /\
  call_put_parity_error math_sqrt math_log math_exp norm_cdf py_abs
    S0 K T r sigma = Raise e.
Proof.
  intros Hv.
  assert (_d1_d2 math_sqrt math_log S0 K T r sigma = Raise e) as Hd
    by (unfold _d1_d2; by rewrite Hv).
  unfold call_put_parity_error, bs_call_price, bs_greeks, bs_price.
  by rewrite Hd.
Qed.

End BsErrors.

Section BsReal.
Variable norm_cdf : R -> R.

Lemma bs_validate_real (S0 K T r sigma : R) :
  (0 < S0)%R -> (0 < K)%R -> (0 < T)%R -> (0 < sigma)%R ->
  _validate_inputs S0 K T r sigma = Ok tt.
Proof.
  intros HS HK HT Hs. unfold _validate_inputs. simpl. unfold Rleb.
  by repeat (destruct (Rle_dec _ _); [lra|]).
Qed.

Lemma d1_d2_real (S0 K T r sigma : R) :
  (0 < S0)%R -> (0 < K)%R -> (0 < T)%R -> (0 < sigma)%R ->
  let d1 := ((ln (S0 / K) + (r + / 2 * sigma * sigma) * T)
             / (sigma * sqrt T))%R in
  _d1_d2 real_sqrt real_log S0 K T r sigma
  = Ok (d1, (d1 - sigma * sqrt T)%R).
Proof.
  intros HS HK HT Hs d1. unfold _d1_d2.
  rewrite bs_validate_real by done. simpl.
  unfold real_sqrt, Rleb. destruct (Rle_dec 0 T); [|lra]. simpl.
  unfold float_truediv. simpl. unfold Reqb.
  destruct (Req_dec_T K 0); [lra|]. simpl.
  assert (0 < S0 / K)%R as Hq by by apply Rdiv_lt_0_compat.
  unfold real_log, Rltb. destruct (Rlt_dec 0 (S0 / K)); [|lra]. simpl.
  pose proof (sqrt_lt_R0 T HT) as Hsq.
  assert (0 < sigma * sqrt T)%R as Hden by by apply Rmult_lt_0_compat.
  destruct (Req_dec_T (sigma * sqrt T) 0); [lra|]. done.
Qed.

Lemma bs_price_real (S0 K T r sigma : R) (option_type : string) :
  (0 < S0)%R -> (0 < K)%R -> (0 < T)%R -> (0 < sigma)%R ->
  let d1 := ((ln (S0 / K) + (r + / 2 * sigma * sigma) * T)
             / (sigma * sqrt T))%R in
  let d2 := (d1 - sigma * sqrt T)%R in
  bs_price real_sqrt real_log real_exp norm_cdf S0 K T r sigma option_type
  = if String.eqb option_type "call" then
      Ok (S0 * norm_cdf d1 - K * exp (- r * T) * norm_cdf d2)%R
    else if String.eqb option_type "put" then
      Ok (K * exp (- r * T) * norm_cdf (- d2) - S0 * norm_cdf (- d1))%R
    else Raise (ValueError "option_type must be 'call' or 'put'").
Proof.
  intros HS HK HT Hs d1 d2. unfold bs_price.
  rewrite d1_d2_real by done. reflexivity.
Qed.

Lemma real_norm_pdf_pos (x : R) : (0 < real_norm_pdf x)%R.
Proof.
  unfold real_norm_pdf. apply Rdiv_lt_0_compat; [apply exp_pos|].
  apply sqrt_lt_R0. pose proof PI_RGT_0. lra.
Qed.

Lemma logistic_symmetric : symmetric_cdf logistic_cdf.
Proof.
  intros x. unfold logistic_cdf. rewrite Ropp_involutive, exp_Ropp.
  pose proof (exp_pos x) as Hx.
  assert (0 < / exp x)%R as Hi by by apply Rinv_0_lt_compat.
  split.
  - split.
    + apply Rdiv_lt_0_compat; lra.
    + apply (Rmult_lt_reg_r (1 + / exp x)); [lra|].
      unfold Rdiv. rewrite Rmult_assoc, Rinv_l by lra. lra.
  - field. split; lra.
Qed.

End BsReal.


Section BsBinary64.
Variable math_sqrt math_log : float -> result float.

Lemma positive_is_not_zero (x : float) :
  (x <=? 0)%float = false -> (x =? 0)%float = false.
Proof.
  rewrite leb_spec, FloatAxioms.eqb_spec.
  change (Prim2SF 0%float) with (S754_zero false).
  destruct (Prim2SF x) as [s|s| |s m e]; try done; by destruct s.
Qed.

Lemma d1_d2_binary64 (S0 K T r sigma sqrtT l : float) :
  _validate_inputs S0 K T r sigma = Ok tt ->
  math_sqrt T = Ok sqrtT -> math_log (S0 / K)%float = Ok l ->
  float_truediv S0 K = Ok (S0 / K)%float /\
  _d1_d2 math_sqrt math_log S0 K T r sigma
  = if (sigma * sqrtT =? 0)%float
    then Raise (ZeroDivisionError "float division by zero")
    else
      let d1 := ((l + (r + 0.5 * sigma * sigma) * T) / (sigma * sqrtT))%float in
      Ok (d1, (d1 - sigma * sqrtT)%float).
Proof.
  intros Hv Hsqrt Hlog.
  assert ((K <=? 0)%float = false) as HK.
  { unfold _validate_inputs in Hv. simpl in Hv.
    destruct (S0 <=? 0)%float; [done|]. by destruct (K <=? 0)%float. }
  assert (float_truediv S0 K = Ok (S0 / K)%float) as Hq.
  { unfold float_truediv. simpl. by rewrite (positive_is_not_zero K HK). }
  split; [done|]. unfold _d1_d2. rewrite Hv. simpl. rewrite Hsqrt. simpl.
  rewrite Hq. simpl. rewrite Hlog. simpl. unfold float_truediv. simpl.
  by destruct (sigma * sqrtT =? 0)%float.
Qed.

End BsBinary64.

(** X12.  Bad parameters come first in [bs_analytic]: when the spot, the
    strike, the time or the volatility is [<= 0], each of [_d1_d2],
    [bs_price], [bs_greeks] and [call_put_parity_error] raises the
    [ValueError] of [_validate_inputs], with the message of the first
    failing check in the order [S0], [K], [T], [sigma], whatever the
    option kind is and before any function of [math] or [scipy] is
    called.  The rate [r] is never checked. *)
Theorem bs_invalid_parameters_first :
  forall (F : Type) (HA : Arith F) (math_sqrt math_log math_exp : F -> result F)
         (norm_cdf norm_pdf py_abs : F -> F)
         (S0 K T r sigma : F) (option_type : string),
    (S0 <=.? fzero) = true \/ (K <=.? fzero) = true \/
    (T <=.? fzero) = true \/ (sigma <=.? fzero) = true ->
    exists msg,
      bs_parameter_message msg /\
      _validate_inputs S0 K T r sigma = Raise (ValueError msg) /\
      _d1_d2 math_sqrt math_log S0 K T r sigma = Raise (ValueError msg) /\
      bs_price math_sqrt math_log math_exp norm_cdf S0 K T r sigma
        option_type = Raise (ValueError msg) /\
      bs_greeks math_sqrt math_log norm_cdf norm_pdf S0 K T r sigma
        option_type = Raise (ValueError msg) /\
      call_put_parity_error math_sqrt math_log math_exp norm_cdf py_abs
        S0 K T r sigma = Raise (ValueError msg) /\
      ((S0 <=.? fzero) = true -> msg = "S0 (spot price) must be > 0") /\
      ((S0 <=.? fzero) = false -> (K <=.? fzero) = true ->
       msg = "K (strike) must be > 0") /\
      ((S0 <=.? fzero) = false -> (K <=.? fzero) = false ->
       (T <=.? fzero) = true ->
       msg = "T (time to maturity, years) must be > 0") /\
      ((S0 <=.? fzero) = false -> (K <=.? fzero) = false ->
       (T <=.? fzero) = false ->
       msg = "sigma (volatility) must be > 0").
Proof.
  intros F HA math_sqrt math_log math_exp norm_cdf norm_pdf py_abs
    S0 K T r sigma option_type Hbad.
  destruct (bs_validate_invalid S0 K T r sigma Hbad) as (msg & Hmsg & Hv).
  destruct (bs_validate_raise math_sqrt math_log math_exp norm_cdf norm_pdf
              py_abs S0 K T r sigma option_type _ Hv) as (H1 & H2 & H3 & H4).
  exists msg. repeat split; try done.
  - intros HS. unfold _validate_inputs in Hv. rewrite HS in Hv.
    by injection Hv as <-.
  - intros HS HK. unfold _validate_inputs in Hv. rewrite HS, HK in Hv.
    by injection Hv as <-.
  - intros HS HK HT. unfold _validate_inputs in Hv. rewrite HS, HK, HT in Hv.
    by injection Hv as <-.
  - intros HS HK HT. unfold _validate_inputs in Hv. rewrite HS, HK, HT in Hv.
    destruct (sigma <=.? fzero); [by injection Hv as <-|done].
Qed.

Lemma bs_invalid_parameters_first_witness :
  exists msg,
    bs_parameter_message msg /\
    bs_price no_exp no_exp no_exp (fun x => x) 100%float 0%float (-1)%float
      0.5%float 0.25%float "swap" = Raise (ValueError msg).
Proof.
  destruct (bs_invalid_parameters_first float float_arith no_exp no_exp no_exp
              (fun x => x) (fun x => x) (fun x => x)
              100%float 0%float (-1)%float 0.5%float 0.25%float "swap")
    as (msg & Hmsg & _ & _ & Hprice & _).
  - right. left. reflexivity.
  - by exists msg.
Defined.

(** X13.  In exact arithmetic, for positive spot, strike, time and
    volatility and every rate, nothing in [bs_analytic] leaves the domain
    of [math.sqrt] or [math.log] or divides by zero: [_d1_d2] returns
    [d1 = (ln(S0/K) + (r + sigma^2/2) T) / (sigma sqrt(T))] and
    [d2 = d1 - sigma sqrt(T) < d1]; [bs_price] returns
    [S0 cdf(d1) - K exp(-r T) cdf(d2)] for a call and
    [K exp(-r T) cdf(-d2) - S0 cdf(-d1)] for a put, and only for another
    option kind raises its [ValueError]. *)
Theorem bs_price_closed_form :
  forall (norm_cdf : R -> R) (S0 K T r sigma : R) (option_type : string),
    (0 < S0)%R -> (0 < K)%R -> (0 < T)%R -> (0 < sigma)%R ->
    let d1 := ((ln (S0 / K) + (r + sigma ^ 2 / 2) * T)
               / (sigma * sqrt T))%R in
    let d2 := (d1 - sigma * sqrt T)%R in
    _d1_d2 real_sqrt real_log S0 K T r sigma = Ok (d1, d2) /\
    (d2 < d1)%R /\
    bs_call_price real_sqrt real_log real_exp norm_cdf S0 K T r sigma
    = Ok (S0 * norm_cdf d1 - K * exp (- r * T) * norm_cdf d2)%R /\
    bs_put_price real_sqrt real_log real_exp norm_cdf S0 K T r sigma
    = Ok (K * exp (- r * T) * norm_cdf (- d2) - S0 * norm_cdf (- d1))%R /\
    (option_type <> "call" -> option_type <> "put" ->
     bs_price real_sqrt real_log real_exp norm_cdf S0 K T r sigma option_type
     = Raise (ValueError "option_type must be 'call' or 'put'")).
Proof.
  intros norm_cdf S0 K T r sigma option_type HS HK HT Hs d1 d2.
  assert (d1 = ((ln (S0 / K) + (r + / 2 * sigma * sigma) * T)
                / (sigma * sqrt T))%R) as Hd1.
  { unfold d1. f_equal. f_equal. f_equal. field. }
  pose proof (sqrt_lt_R0 T HT) as Hsq.
  assert (0 < sigma * sqrt T)%R as Hden by by apply Rmult_lt_0_compat.
  split; [|split; [|split; [|split]]].
  - unfold d2. rewrite Hd1. by apply d1_d2_real.
  - unfold d2. lra.
  - unfold bs_call_price. rewrite bs_price_real by done. simpl.
    unfold d2. by rewrite Hd1.
  - unfold bs_put_price. rewrite bs_price_real by done. simpl.
    unfold d2. by rewrite Hd1.
  - intros Hc Hp. rewrite bs_price_real by done.
    destruct (String.eqb_spec option_type "call"); [done|].
    by destruct (String.eqb_spec option_type "put").
Qed.

Lemma bs_price_closed_form_witness :
  bs_call_price real_sqrt real_log real_exp logistic_cdf 100%R 100%R 1%R
    (1 / 20)%R (1 / 5)%R
  = Ok (let d1 := ((ln (100 / 100) + (1 / 20 + (1 / 5) ^ 2 / 2) * 1)
                   / (1 / 5 * sqrt 1))%R in
        100 * logistic_cdf d1
        - 100 * exp (- (1 / 20) * 1) * logistic_cdf (d1 - 1 / 5 * sqrt 1))%R.
Proof.
  apply (bs_price_closed_form logistic_cdf 100%R 100%R 1%R (1 / 20)%R
           (1 / 5)%R "call"); lra.
Defined.

(** X14.  Put-call parity.  In exact arithmetic, with a distribution
    function that is symmetric ([cdf(-x) = 1 - cdf(x)], as the normal one
    is), the prices of [bs_call_price] and [bs_put_price] on the same
    valid inputs differ by exactly [S0 - K exp(-r T)], and
    [call_put_parity_error] returns [0]. *)
Theorem bs_put_call_parity :
  forall (norm_cdf : R -> R) (S0 K T r sigma : R),
    symmetric_cdf norm_cdf ->
    (0 < S0)%R -> (0 < K)%R -> (0 < T)%R -> (0 < sigma)%R ->
    exists C P : R,
      bs_call_price real_sqrt real_log real_exp norm_cdf S0 K T r sigma
      = Ok C /\
      bs_put_price real_sqrt real_log real_exp norm_cdf S0 K T r sigma
      = Ok P /\
      (C - P = S0 - K * exp (- r * T))%R /\
      call_put_parity_error real_sqrt real_log real_exp norm_cdf Rabs
        S0 K T r sigma = Ok 0%R.
Proof.
  intros norm_cdf S0 K T r sigma Hcdf HS HK HT Hs.
  unfold call_put_parity_error, bs_call_price, bs_put_price.
  rewrite !bs_price_real by done. simpl.
  set (d1 := ((ln (S0 / K) + (r + / 2 * sigma * sigma) * T)
              / (sigma * sqrt T))%R).
  set (d2 := (d1 - sigma * sqrt T)%R).
  destruct (Hcdf d1) as [_ H1]. destruct (Hcdf d2) as [_ H2].
  do 2 eexists. split; [done|]. split; [done|].
  rewrite H1, H2. split; [ring|].
  unfold real_exp. simpl. f_equal.
  match goal with |- Rabs ?x = _ => replace x with 0%R by ring end.
  apply Rabs_R0.
Qed.

Lemma bs_put_call_parity_witness :
  call_put_parity_error real_sqrt real_log real_exp logistic_cdf Rabs
    100%R 100%R 1%R (1 / 20)%R (1 / 5)%R = Ok 0%R.
Proof.
  destruct (bs_put_call_parity logistic_cdf 100%R 100%R 1%R (1 / 20)%R
              (1 / 5)%R)
    as (C & P & _ & _ & _ & Herr); try lra.
  - apply logistic_symmetric.
  - exact Herr.
Defined.

(** X15.  The Greeks.  In exact arithmetic, with the normal density and
    a distribution function with values strictly between 0 and 1,
    [bs_greeks] returns on every valid input; [gamma] and [vega] are
    positive and the same for a call and a put, [vega] is
    [S0^2 sigma T] times [gamma], the call's [delta] lies strictly
    between 0 and 1, and the put's [delta] is the call's minus 1, hence
    strictly between -1 and 0. *)
Theorem bs_greeks_signs :
  forall (norm_cdf : R -> R) (S0 K T r sigma : R),
    symmetric_cdf norm_cdf ->
    (0 < S0)%R -> (0 < K)%R -> (0 < T)%R -> (0 < sigma)%R ->
    exists gc gp : Greeks R,
      bs_greeks real_sqrt real_log norm_cdf real_norm_pdf S0 K T r sigma
        "call" = Ok gc /\
      bs_greeks real_sqrt real_log norm_cdf real_norm_pdf S0 K T r sigma
        "put" = Ok gp /\
      (0 < gamma gc)%R /\ (0 < vega gc)%R /\
      gamma gp = gamma gc /\ vega gp = vega gc /\
      vega gc = (S0 * S0 * sigma * T * gamma gc)%R /\
      (0 < delta gc < 1)%R /\
      delta gp = (delta gc - 1)%R /\ (-1 < delta gp < 0)%R.
Proof.
  intros norm_cdf S0 K T r sigma Hcdf HS HK HT Hs.
  unfold bs_greeks. rewrite d1_d2_real by done. simpl.
  set (d1 := ((ln (S0 / K) + (r + / 2 * sigma * sigma) * T)
              / (sigma * sqrt T))%R).
  unfold real_sqrt, Rleb. destruct (Rle_dec 0 T); [|lra]. simpl.
  pose proof (sqrt_lt_R0 T HT) as Hsq.
  pose proof (real_norm_pdf_pos d1) as Hpdf.
  destruct (Hcdf d1) as [Hrange _].
  assert (0 < S0 * sigma * sqrt T)%R as Hden
    by (repeat apply Rmult_lt_0_compat; done).
  do 2 eexists. split; [done|]. split; [done|]. simpl.
  repeat split; try lra.
  - by apply Rdiv_lt_0_compat.
  - apply Rmult_lt_0_compat; [by apply Rmult_lt_0_compat|done].
  - pose proof (sqrt_def T ltac:(lra)) as HsqT.
    apply (Rmult_eq_reg_r (S0 * sigma * sqrt T)); [|lra].
    replace (S0 * S0 * sigma * T * (real_norm_pdf d1 / (S0 * sigma * sqrt T))
             * (S0 * sigma * sqrt T))%R
      with (S0 * S0 * sigma * T * real_norm_pdf d1)%R by (field; lra).
    generalize (real_norm_pdf d1). intros p.
    set (s := sqrt T) in *. rewrite <- HsqT. ring.
Qed.

Lemma bs_greeks_signs_witness :
  exists gc : Greeks R,
    bs_greeks real_sqrt real_log logistic_cdf real_norm_pdf
      100%R 100%R 1%R (1 / 20)%R (1 / 5)%R "call" = Ok gc /\
    (0 < gamma gc)%R /\ (0 < delta gc < 1)%R.
Proof.
  destruct (bs_greeks_signs logistic_cdf 100%R 100%R 1%R (1 / 20)%R
              (1 / 5)%R)
    as (gc & gp & Hc & _ & Hg & _ & _ & _ & _ & Hd & _); try lra.
  - apply logistic_symmetric.
  - by exists gc.
Defined.

(** X16.  In binary64, once the parameter check of [bs_analytic] has
    passed, the division [S0 / K] of line 31 cannot raise (a strike that
    is not [<= 0] is not zero), and when [math.sqrt] and [math.log]
    return, [_d1_d2] raises a [ZeroDivisionError] exactly when the
    product [sigma * sqrt(T)] is zero, which a positive volatility and a
    positive time do not exclude: the product of two small positive
    numbers underflows to zero. *)
Theorem bs_division_by_zero_binary64 :
  forall (math_sqrt math_log : float -> result float)
         (S0 K T r sigma sqrtT l : float),
    _validate_inputs S0 K T r sigma = Ok tt ->
    math_sqrt T = Ok sqrtT -> math_log (S0 / K)%float = Ok l ->
    float_truediv S0 K = Ok (S0 / K)%float /\
    _d1_d2 math_sqrt math_log S0 K T r sigma
    = if (sigma * sqrtT =? 0)%float
      then Raise (ZeroDivisionError "float division by zero")
      else
        let d1 :=
          ((l + (r + 0.5 * sigma * sigma) * T) / (sigma * sqrtT))%float in
        Ok (d1, (d1 - sigma * sqrtT)%float).
Proof. intros. by apply d1_d2_binary64. Qed.

Lemma bs_division_by_zero_binary64_witness :
  _d1_d2 (fun x => Ok (PrimFloat.sqrt x)) (fun x => Ok 0%float)
    1%float 1%float 0x1p-1074%float 0.25%float 0x1p-600%float
  = Raise (ZeroDivisionError "float division by zero").
Proof.
  apply (bs_division_by_zero_binary64
           (fun x => Ok (PrimFloat.sqrt x)) (fun x => Ok 0%float)
           1%float 1%float 0x1p-1074%float 0.25%float 0x1p-600%float
           (PrimFloat.sqrt 0x1p-1074%float) 0%float); reflexivity.
Defined.

(** * [src/benchmarks.py] records nothing *)

Section BenchmarkRuns.
Context {F : Type} `{Arith F}.
Variables (kwargs value : Type).
Variable dict_get : kwargs -> string -> option value.
Variable is_call : kwargs -> bool.
Variable py_abs : F -> F.
Variable call_attr : string -> kwargs -> outcome F.
Variable solver_func : kwargs -> kwargs -> outcome F.
Variable params : kwargs.

Lemma benchmark_case_raises (tc : kwargs) :
  exists e,
    benchmark_case kwargs value dict_get is_call py_abs call_attr
      solver_func params tc = Raises e /\
    case_error is_call solver_func params tc e.
Proof.
  unfold benchmark_case, case_error.
  destruct (solver_func tc params) as [price|e]; [|by exists e; split; [|left]].
  destruct (is_call tc); eexists; (split; [reflexivity|]); right;
    (split; [by eexists|done]).
Qed.

Lemma benchmark_loop_records_nothing (test_cases : list kwargs)
    (results : list (bench_row F value))
    (printed : list (kwargs * bench_exn)) :
  let run := benchmark_loop kwargs value dict_get is_call py_abs call_attr
               solver_func params test_cases results printed in
  Forall (fun p => case_error is_call solver_func params p.1 p.2) printed ->
  run.1 = results /\
  map fst run.2 = map fst printed ++ test_cases /\
  Forall (fun p => case_error is_call solver_func params p.1 p.2) run.2.
Proof.
  revert printed. induction test_cases as [|tc rest IH]; intros printed run Hp.
  - subst run. simpl. by rewrite app_nil_r.
  - subst run. simpl.
    destruct (benchmark_case_raises tc) as (e & -> & He).
    destruct (IH (printed ++ [(tc, e)])) as (H1 & H2 & H3).
    { apply Forall_app. split; [done|]. by apply Forall_singleton. }
    split; [done|]. split; [|done].
    rewrite H2, map_app. simpl. by rewrite <- app_assoc.
Qed.

End BenchmarkRuns.

(** X17.  [src/benchmarks.py] cannot produce a result.  Importing the
    module raises an [ImportError]: line 11 imports [PDEConfig], which
    [config] does not define.  Were it imported: for every solver,
    parameters and list of test cases, [benchmark_solver] appends no row
    to its table and prints one error for each test case, in order,
    because after the solver has returned a price the lookup of
    [bs_analytic.call_price] or [bs_analytic.put_price] raises an
    [AttributeError], which the [except Exception] clause swallows; and
    [compare_solvers] raises an [AttributeError] for every input, since
    [pde_fixed_grid] defines no [price_option_fixed_grid]. *)
Theorem benchmarks_record_nothing :
  benchmarks_module = Raise (ImportError "cannot import name PDEConfig") /\
  (forall (F : Type) (HA : Arith F) (kwargs value : Type)
          (dict_get : kwargs -> string -> option value)
          (is_call : kwargs -> bool) (py_abs : F -> F)
          (call_attr : string -> kwargs -> outcome F)
          (solver_func : kwargs -> kwargs -> outcome F)
          (params : kwargs) (test_cases : list kwargs) (name : string),
     let run := benchmark_solver kwargs value dict_get is_call py_abs
                  call_attr solver_func params test_cases name in
     run.1 = [] /\
     map fst run.2 = test_cases /\
     Forall (fun p => case_error is_call solver_func params p.1 p.2)
       run.2) /\
  (forall (F : Type) (HA : Arith F) (kwargs value : Type)
          (dict_get : kwargs -> string -> option value)
          (is_call : kwargs -> bool) (py_abs : F -> F)
          (call_attr : string -> kwargs -> outcome F)
          (price_option_fixed_grid : kwargs -> kwargs -> outcome F)
          (test_cases : list kwargs) (params : kwargs),
     compare_solvers kwargs value dict_get is_call py_abs call_attr
       price_option_fixed_grid test_cases params
     = Raises (AttributeError
                 "module 'pde_fixed_grid' has no attribute 'price_option_fixed_grid'")).
Proof.
  split; [reflexivity|]. split.
  - intros F HA kwargs value dict_get is_call py_abs call_attr solver_func
      params test_cases name run.
    by apply (benchmark_loop_records_nothing kwargs value dict_get is_call
                py_abs call_attr solver_func params test_cases [] []).
  - reflexivity.
Qed.
